(** * Batch reducers of [tensorflow_transform/tf_utils.py]

    A shallow embedding of the batch-reduction layer: the TensorFlow
    primitives the module calls are given an executable meaning on
    row-major arrays, and every function of the module is transcribed
    statement by statement on top of them.

    Conventions.
    - A graph tensor is a static shape (what Python sees while the graph is
      built) together with the outcome of evaluating it (an array, or the
      runtime error raised by an op it depends on).
    - Python exceptions raised while the graph is built live in the
      [construct] monad; errors raised by [session.run] live in [eval].
    - Integer element types are [Z] with the wrap-around of their width
      written out; floating element types are IEEE-754 values of the
      Standard Library's [SpecFloat], with binary32 and binary64 parameters
      and round-to-nearest-even. *)

From Stdlib Require Import ZArith List Bool Lia String Arith.
From Stdlib Require Import SpecFloat.
Import ListNotations.

Local Open Scope Z_scope.

(* ================================================================= *)
(** ** Element types *)

(** The integer element types. *)
Inductive IntType : Set :=
| tf_uint8 | tf_uint16 | tf_uint32 | tf_uint64
| tf_int8 | tf_int16 | tf_int32 | tf_int64.

(** The floating element types. *)
Inductive FloatType : Set :=
| tf_float32 | tf_float64.

(** The numeric element types. *)
Inductive NumType : Set :=
| IntT (i : IntType)
| FloatT (f : FloatType).

(** All element types: the numeric ones, [tf.bool] and [tf.string]. *)
Inductive DType : Set :=
| DT (d : NumType)
| tf_bool
| tf_string.

Coercion IntT : IntType >-> NumType.
Coercion FloatT : FloatType >-> NumType.
Coercion DT : NumType >-> DType.

Definition IntType_eq_dec (a b : IntType) : {a = b} + {a <> b}.
Proof. decide equality. Defined.

Definition FloatType_eq_dec (a b : FloatType) : {a = b} + {a <> b}.
Proof. decide equality. Defined.

Definition NumType_eq_dec (a b : NumType) : {a = b} + {a <> b}.
Proof. decide equality; [apply IntType_eq_dec | apply FloatType_eq_dec]. Defined.

Definition DType_eq_dec (a b : DType) : {a = b} + {a <> b}.
Proof. decide equality; apply NumType_eq_dec. Defined.

(** [a == b] on element types. *)
Definition dtype_eqb (a b : NumType) : bool :=
  if NumType_eq_dec a b then true else false.

(** [dtype.is_floating] *)
Definition is_floating (d : NumType) : bool :=
  match d with FloatT _ => true | IntT _ => false end.

Definition is_unsigned (i : IntType) : bool :=
  match i with
  | tf_uint8 | tf_uint16 | tf_uint32 | tf_uint64 => true
  | _ => false
  end.

(** Width in bits of an integer type. *)
Definition bits (i : IntType) : Z :=
  match i with
  | tf_uint8 | tf_int8 => 8
  | tf_uint16 | tf_int16 => 16
  | tf_uint32 | tf_int32 => 32
  | tf_uint64 | tf_int64 => 64
  end.

(** [dtype.min] and [dtype.max] of the integer types. *)
Definition int_min (i : IntType) : Z :=
  if is_unsigned i then 0 else - 2 ^ (bits i - 1).
Definition int_max (i : IntType) : Z :=
  if is_unsigned i then 2 ^ bits i - 1 else 2 ^ (bits i - 1) - 1.

(** Two's-complement (or modular, for unsigned types) wrap-around. *)
Definition wrap (i : IntType) (z : Z) : Z :=
  if is_unsigned i then z mod 2 ^ bits i
  else (z + 2 ^ (bits i - 1)) mod 2 ^ bits i - 2 ^ (bits i - 1).

(** Mantissa width and infinity exponent of the floating formats. *)
Definition prec (f : FloatType) : Z :=
  match f with tf_float32 => 24 | tf_float64 => 53 end.
Definition emax (f : FloatType) : Z :=
  match f with tf_float32 => 128 | tf_float64 => 1024 end.

(** The Rocq type of one element. *)
Definition num (d : NumType) : Type :=
  match d with
  | IntT _ => Z
  | FloatT _ => spec_float
  end.

Definition carrier (t : DType) : Type :=
  match t with
  | DT d => num d
  | tf_bool => bool
  | tf_string => string
  end.

(* ================================================================= *)
(** ** Scalar arithmetic *)

(** A Python integer literal converted to an element of type [d]
    ([tf.constant(z, d)], [tf.zeros_like], [tf.ones_like]). *)
Definition of_Z (d : NumType) : Z -> num d :=
  match d with
  | IntT i => fun z => wrap i z
  | FloatT f => fun z => binary_normalize (prec f) (emax f) z 0 false
  end.

Definition zero (d : NumType) : num d := of_Z d 0.
Definition one (d : NumType) : num d := of_Z d 1.

(** [float('nan')] as a constant of type [d]; an integer type has no NaN
    and the conversion of the Python float is refused by TensorFlow. *)
Definition nan_of (d : NumType) : option (num d) :=
  match d with
  | IntT _ => None
  | FloatT _ => Some S754_nan
  end.

Definition add (d : NumType) : num d -> num d -> num d :=
  match d with
  | IntT i => fun a b => wrap i (a + b)
  | FloatT f => SFadd (prec f) (emax f)
  end.

Definition sub (d : NumType) : num d -> num d -> num d :=
  match d with
  | IntT i => fun a b => wrap i (a - b)
  | FloatT f => SFsub (prec f) (emax f)
  end.

Definition mul (d : NumType) : num d -> num d -> num d :=
  match d with
  | IntT i => fun a b => wrap i (a * b)
  | FloatT f => SFmul (prec f) (emax f)
  end.

(** Real division, the meaning of Python's [/] on floating tensors. *)
Definition fdiv (f : FloatType) : num f -> num f -> num f :=
  SFdiv (prec f) (emax f).

Definition ltb (d : NumType) : num d -> num d -> bool :=
  match d with
  | IntT _ => Z.ltb
  | FloatT _ => SFltb
  end.

Definition leb (d : NumType) : num d -> num d -> bool :=
  match d with
  | IntT _ => Z.leb
  | FloatT _ => SFleb
  end.

Definition eqb (d : NumType) : num d -> num d -> bool :=
  match d with
  | IntT _ => Z.eqb
  | FloatT _ => SFeqb
  end.

(** Equality of elements as [tf.unique] sees it. *)
Definition el_eqb (t : DType) : carrier t -> carrier t -> bool :=
  match t with
  | DT d => eqb d
  | tf_bool => Bool.eqb
  | tf_string => String.eqb
  end.

Definition SFis_nan (x : spec_float) : bool :=
  match x with S754_nan => true | _ => false end.

Definition SFis_inf (x : spec_float) : bool :=
  match x with S754_infinity _ => true | _ => false end.

(** [tf.math.is_inf] on one element; integers are never infinite. *)
Definition is_inf (d : NumType) : num d -> bool :=
  match d with
  | IntT _ => fun _ => false
  | FloatT _ => SFis_inf
  end.

(** The accumulator of a maximum reduction starts at the bottom of the
    type (minus infinity for floating types) and is replaced by an element
    only when that element compares greater: a NaN never replaces it, so
    that a reduction over NaNs alone yields minus infinity, as the note at
    the end of [reduce_batch_minus_min_and_max] records. *)
Definition lowest (d : NumType) : num d :=
  match d with
  | IntT i => int_min i
  | FloatT _ => S754_infinity true
  end.

Definition highest (d : NumType) : num d :=
  match d with
  | IntT i => int_max i
  | FloatT _ => S754_infinity false
  end.

Definition max_acc (d : NumType) (acc t : num d) : num d :=
  if ltb d acc t then t else acc.

Definition min_acc (d : NumType) (acc t : num d) : num d :=
  if ltb d t acc then t else acc.

(** Truncation of a floating value towards zero; [None] for NaN and the
    infinities. *)
Definition SFtrunc (x : spec_float) : option Z :=
  match x with
  | S754_zero _ => Some 0
  | S754_finite s m e =>
      let t := match e with
               | Zneg p => Z.shiftr (Zpos m) (Zpos p)
               | _ => Zpos m * 2 ^ e
               end in
      Some (if s then - t else t)
  | _ => None
  end.

(** [tf.cast] on one element. *)
Definition cast (a b : NumType) : num a -> num b :=
  match a, b with
  | IntT _, IntT j => fun z => wrap j z
  | IntT _, FloatT g => fun z => binary_normalize (prec g) (emax g) z 0 false
  | FloatT f, FloatT g =>
      fun x =>
        if FloatType_eq_dec f g then x
        else match x with
             | S754_finite s m e =>
                 binary_normalize (prec g) (emax g) (cond_Zopp s (Zpos m)) e s
             | _ => x
             end
  | FloatT _, IntT j =>
      fun x => match SFtrunc x with
               | Some z => wrap j z
               | None => int_min j
               end
  end.

(* ================================================================= *)
(** ** Outcomes: graph construction and evaluation *)

Inductive result (E A : Type) : Type :=
| Ok (a : A)
| Raise (e : E).

Arguments Ok {E A} a.
Arguments Raise {E A} e.

Definition bind {E A B} (m : result E A) (k : A -> result E B) : result E B :=
  match m with
  | Ok a => k a
  | Raise e => Raise e
  end.

Notation "x <- m ;; k" := (bind m (fun x => k))
  (at level 61, m at next level, right associativity).
Notation "' pat <- m ;; k" := (bind m (fun x => match x with pat => k end))
  (at level 61, pat pattern, m at next level, right associativity).

Definition rmap {E A B} (f : A -> B) (m : result E A) : result E B :=
  a <- m ;; Ok (f a).

(** Python exceptions raised while the graph is being built. *)
Inductive PyExn : Set :=
| TypeError
| ValueError
| AttributeError
| NotImplementedError.

Definition construct (A : Type) : Type := result PyExn A.

(** Row-major arrays: the value a tensor takes when it is evaluated. *)
Record ndarray (A : Type) : Type := mk_nd {
  shape : list nat;
  data : list A
}.

Arguments mk_nd {A} shape data.
Arguments shape {A} n.
Arguments data {A} n.

Definition any_array : Type := { t : DType & ndarray (carrier t) }.

(** Errors raised by an op when the graph is run.  [InvalidArgument]
    carries the tensors the failing op reports ([tf.Assert] prints its
    [data] argument, [assert_equal] its two operands).  [Unmodelled] marks
    the few behaviours of TensorFlow the embedding does not cover (general
    broadcasting); no theorem below relies on it. *)
Inductive OpError : Type :=
| InvalidArgument (reported : list any_array)
| Unmodelled.

Definition eval (A : Type) : Type := result OpError A.

(** A static shape, as [tensor.shape] shows it during construction:
    [None] is an unknown rank, and each dimension may be unknown. *)
Definition TensorShape : Type := option (list (option nat)).

(** A graph tensor. *)
Record Tensor (t : DType) : Type := mk_tensor {
  static_shape : TensorShape;
  value : eval (ndarray (carrier t))
}.

Arguments mk_tensor {t} static_shape value.
Arguments static_shape {t} _.
Arguments value {t} _.

Definition AnyTensor : Type := { t : DType & Tensor t }.
Definition NumTensor : Type := { d : NumType & Tensor d }.

(** A placeholder of static shape [ss] fed with the array [v]. *)
Definition placeholder {t} (ss : TensorShape) (v : ndarray (carrier t)) : Tensor t :=
  mk_tensor ss (Ok v).

Definition known_shape (sh : list nat) : TensorShape := Some (map Some sh).

(** A tensor whose static shape is fully known ([tf.constant] of an array). *)
Definition constant_array {t} (v : ndarray (carrier t)) : Tensor t :=
  placeholder (known_shape (shape v)) v.

(** [tensor_shape.assert_is_compatible_with] *)
Definition dim_compatible (a b : option nat) : bool :=
  match a, b with
  | Some m, Some n => Nat.eqb m n
  | _, _ => true
  end.

Fixpoint dims_compatible (a b : list (option nat)) : bool :=
  match a, b with
  | [], [] => true
  | x :: a', y :: b' => dim_compatible x y && dims_compatible a' b'
  | _, _ => false
  end.

Definition is_compatible_with (a b : TensorShape) : bool :=
  match a, b with
  | Some da, Some db => dims_compatible da db
  | _, _ => true
  end.

Definition assert_is_compatible_with (a b : TensorShape) : construct unit :=
  if is_compatible_with a b then Ok tt else Raise ValueError.

(** [shape.ndims] *)
Definition ndims (s : TensorShape) : option nat := option_map (@List.length _) s.

(** A feed is accepted when it agrees with the placeholder's static shape. *)
Definition feed_ok {t} (x : Tensor t) (v : ndarray (carrier t)) : Prop :=
  value x = Ok v /\ is_compatible_with (static_shape x) (known_shape (shape v)) = true.

(* ================================================================= *)
(** ** List helpers *)

Fixpoint map2 {A B C} (f : A -> B -> C) (l : list A) (m : list B) : list C :=
  match l, m with
  | a :: l', b :: m' => f a b :: map2 f l' m'
  | _, _ => []
  end.

Definition prod_dims (sh : list nat) : nat := fold_right Nat.mul 1%nat sh.

(** The [n] consecutive blocks of [k] elements of a row-major buffer. *)
Fixpoint rows {A} (n k : nat) (l : list A) : list (list A) :=
  match n with
  | O => []
  | S n' => firstn k l :: rows n' k (skipn k l)
  end.

(** [cycle l n]: the first [n] elements of [l] repeated for ever (the
    row-major image of broadcasting [l] along leading dimensions). *)
Fixpoint cycle_aux {A} (l cur : list A) (n : nat) : list A :=
  match n with
  | O => []
  | S n' =>
      match cur with
      | a :: cur' => a :: cycle_aux l cur' n'
      | [] => match l with
              | a :: l' => a :: cycle_aux l l' n'
              | [] => []
              end
      end
  end.

Definition cycle {A} (l : list A) (n : nat) : list A := cycle_aux l l n.

Fixpoint is_suffix (s l : list nat) : bool :=
  if list_eq_dec Nat.eq_dec s l then true
  else match l with
       | [] => false
       | _ :: l' => is_suffix s l'
       end.

Definition shape_eqb (a b : list nat) : bool :=
  if list_eq_dec Nat.eq_dec a b then true else false.

(* ================================================================= *)
(** ** TensorFlow primitives on arrays *)

Definition wf_nd {A} (a : ndarray A) : Prop :=
  List.length (data a) = prod_dims (shape a).

Definition nd_scalar {A} (v : A) : ndarray A := mk_nd [] [v].

Definition nd_map {A B} (f : A -> B) (a : ndarray A) : ndarray B :=
  mk_nd (shape a) (map f (data a)).

(** Binary element-wise ops.  Operands of one shape are combined
    position by position; an operand whose shape is a suffix of the
    other's (a scalar, or one instance against a batch of instances) is
    broadcast along the leading dimensions. *)
Definition nd_broadcast2 {A B C} (f : A -> B -> C)
    (a : ndarray A) (b : ndarray B) : eval (ndarray C) :=
  if shape_eqb (shape a) (shape b) then
    Ok (mk_nd (shape a) (map2 f (data a) (data b)))
  else if is_suffix (shape b) (shape a) then
    Ok (mk_nd (shape a) (map2 f (data a) (cycle (data b) (List.length (data a)))))
  else if is_suffix (shape a) (shape b) then
    Ok (mk_nd (shape b) (map2 f (cycle (data a) (List.length (data b))) (data b)))
  else Raise Unmodelled.

(** [tf.where(condition, x, y)] with three operands of one shape. *)
Definition nd_where {A} (c : ndarray bool) (a b : ndarray A) : eval (ndarray A) :=
  if shape_eqb (shape c) (shape a) && shape_eqb (shape a) (shape b) then
    Ok (mk_nd (shape a)
          (map2 (fun (ci : bool) ab => if ci then fst ab else snd ab)
                (data c) (combine (data a) (data b))))
  else Raise (InvalidArgument []).

(** [tf.reshape]: at most one dimension may be [-1]. *)
Definition nd_reshape {A} (a : ndarray A) (sh : list Z) : eval (ndarray A) :=
  let total := List.length (data a) in
  let known :=
    fold_right (fun z acc => if z =? -1 then acc else (Z.to_nat z * acc)%nat) 1%nat sh in
  let new_shape :=
    map (fun z => if z =? -1 then (total / known)%nat else Z.to_nat z) sh in
  if Nat.eqb (prod_dims new_shape) total then Ok (mk_nd new_shape (data a))
  else Raise (InvalidArgument []).

(** Reduction of the rows of a batch, column by column. *)
Definition reduce_rows {A} (op : A -> A -> A) (init : A) (k : nat)
    (rs : list (list A)) : list A :=
  fold_left (map2 op) rs (repeat init k).

(** Reduction along one axis of a row-major array. *)
Fixpoint reduce_axis {A} (op : A -> A -> A) (init : A) (axis : nat)
    (sh : list nat) (l : list A) : option (list A) :=
  match sh with
  | [] => None
  | n :: rest =>
      let k := prod_dims rest in
      match axis with
      | O => Some (reduce_rows op init k (rows n k l))
      | S axis' =>
          fold_right
            (fun blk acc =>
               match reduce_axis op init axis' rest blk, acc with
               | Some r, Some rs => Some (r ++ rs)
               | _, _ => None
               end)
            (Some []) (rows n k l)
      end
  end.

Fixpoint remove_nth {A} (k : nat) (l : list A) : list A :=
  match l, k with
  | [], _ => []
  | _ :: l', O => l'
  | a :: l', S k' => a :: remove_nth k' l'
  end.

(** [tf.reduce_sum], [tf.reduce_max], [tf.reduce_min]: over all elements
    when [axis] is [None], along [axis] otherwise. *)
Definition nd_reduce {A} (op : A -> A -> A) (init : A) (a : ndarray A)
    (axis : option nat) : eval (ndarray A) :=
  match axis with
  | None => Ok (nd_scalar (fold_left op (data a) init))
  | Some k =>
      match reduce_axis op init k (shape a) (data a) with
      | Some l => Ok (mk_nd (remove_nth k (shape a)) l)
      | None => Raise (InvalidArgument [])
      end
  end.

(** [tf.unique_with_counts]: the distinct elements in order of first
    occurrence, for every element the position of its value among them,
    and how often each occurs. *)
Fixpoint index_of {A} (eqb : A -> A -> bool) (v : A) (l : list A) : option nat :=
  match l with
  | [] => None
  | a :: l' => if eqb a v then Some O else option_map S (index_of eqb v l')
  end.

Definition unique_step {A} (eqb : A -> A -> bool)
    (st : list A * list nat) (v : A) : list A * list nat :=
  let '(y, idx) := st in
  match index_of eqb v y with
  | Some j => (y, idx ++ [j])
  | None => (y ++ [v], idx ++ [List.length y])
  end.

Definition unique_idx {A} (eqb : A -> A -> bool) (l : list A) : list A * list nat :=
  fold_left (unique_step eqb) l ([], []).

Definition count_occ_nat (j : nat) (l : list nat) : nat :=
  List.length (filter (Nat.eqb j) l).

(** In-place accumulation [out[j] <- f out[j]]. *)
Fixpoint update_at {A} (f : A -> A) (j : nat) (out : list A) : list A :=
  match out, j with
  | [], _ => []
  | a :: out', O => f a :: out'
  | a :: out', S j' => a :: update_at f j' out'
  end.

(** [tf.math.unsorted_segment_sum] on flat data: negative segment ids are
    dropped, ids beyond [num_segments] are an error. *)
Fixpoint segment_accumulate {A} (add : A -> A -> A) (vals : list A) (ids : list Z)
    (out : list A) : option (list A) :=
  match vals, ids with
  | v :: vals', j :: ids' =>
      if j <? 0 then segment_accumulate add vals' ids' out
      else if (Z.to_nat j <? List.length out)%nat then
        segment_accumulate add vals' ids' (update_at (fun a => add a v) (Z.to_nat j) out)
      else None
  | _, _ => Some out
  end.

Fixpoint is_prefix (p l : list nat) : bool :=
  match p, l with
  | [], _ => true
  | a :: p', b :: l' => Nat.eqb a b && is_prefix p' l'
  | _ :: _, [] => false
  end.

Definition nd_unsorted_segment_sum {A} (add : A -> A -> A) (zero : A)
    (a : ndarray A) (ids : ndarray Z) (num : ndarray Z) : eval (ndarray A) :=
  match data num with
  | [n] =>
      if shape_eqb (shape a) (shape ids) then
        match segment_accumulate add (data a) (data ids) (repeat zero (Z.to_nat n)) with
        | Some out => Ok (mk_nd [Z.to_nat n] out)
        | None => Raise (InvalidArgument [])
        end
      else if is_prefix (shape ids) (shape a) then Raise Unmodelled
      else Raise (InvalidArgument [])
  | _ => Raise (InvalidArgument [])
  end.

(** [tf.gather(params, indices)] along the first axis of [params]. *)
Fixpoint gather_rows {A} (rs : list (list A)) (ids : list Z) : option (list A) :=
  match ids with
  | [] => Some []
  | j :: ids' =>
      if j <? 0 then None
      else match nth_error rs (Z.to_nat j), gather_rows rs ids' with
           | Some r, Some l => Some (r ++ l)
           | _, _ => None
           end
  end.

Definition nd_gather {A} (params : ndarray A) (ids : ndarray Z) : eval (ndarray A) :=
  match shape params with
  | [] => Raise (InvalidArgument [])
  | n :: rest =>
      match gather_rows (rows n (prod_dims rest) (data params)) (data ids) with
      | Some l => Ok (mk_nd (shape ids ++ rest) l)
      | None => Raise (InvalidArgument [])
      end
  end.

(** [m[:, k]] on a matrix. *)
Definition nd_column {A} (m : ndarray A) (k : nat) : eval (ndarray A) :=
  match shape m with
  | [n; r] =>
      let cells := map (fun row => nth_error row k) (rows n r (data m)) in
      if forallb (fun c => match c with Some _ => true | None => false end) cells
      then Ok (mk_nd [n] (flat_map (fun c => match c with Some v => [v] | None => [] end) cells))
      else Raise (InvalidArgument [])
  | _ => Raise (InvalidArgument [])
  end.

(** Row-major offset of a coordinate tuple in an array of shape [sh];
    [None] when a coordinate is out of bounds. *)
Fixpoint ravel (ix : list Z) (sh : list nat) : option nat :=
  match ix, sh with
  | [], [] => Some O
  | i :: ix', n :: sh' =>
      if (0 <=? i) && (Z.to_nat i <? n)%nat then
        option_map (fun o => (Z.to_nat i * prod_dims sh' + o)%nat) (ravel ix' sh')
      else None
  | _, _ => None
  end.

(** The values of the entries that fall into output cell [c]. *)
Fixpoint group_of {A} (c : nat) (offs : list (option nat)) (vals : list A) : list A :=
  match offs, vals with
  | o :: offs', v :: vals' =>
      match o with
      | Some c' => if Nat.eqb c c' then v :: group_of c offs' vals'
                   else group_of c offs' vals'
      | None => group_of c offs' vals'
      end
  | _, _ => []
  end.

(** One output cell of a sparse reduction: the reduction of the entries
    that fall into it, and zero when there is none (the kernel clears its
    output buffer before it writes the reduced groups). *)
Definition reduce_group {A} (op : A -> A -> A) (init zero : A) (g : list A) : A :=
  match g with
  | [] => zero
  | _ => fold_left op g init
  end.

(** [tf.sparse.reduce_sum] and [tf.sparse.reduce_max]. *)
Definition nd_sparse_reduce {A} (op : A -> A -> A) (init zero : A)
    (ix : ndarray Z) (vals : ndarray A) (dsh : ndarray Z)
    (axis : option nat) : eval (ndarray A) :=
  let r := List.length (data dsh) in
  let entries := rows (List.length (data vals)) r (data ix) in
  match axis with
  | None => Ok (nd_scalar (reduce_group op init zero (data vals)))
  | Some k =>
      let kept := remove_nth k (map Z.to_nat (data dsh)) in
      let offs := map (fun e => ravel (remove_nth k e) kept) entries in
      if (k <? r)%nat
         && forallb (fun o => match o with Some _ => true | None => false end) offs
      then Ok (mk_nd kept
                 (map (fun c => reduce_group op init zero (group_of c offs (data vals)))
                      (seq 0 (prod_dims kept))))
      else Raise (InvalidArgument [])
  end.

(* ================================================================= *)
(** ** TensorFlow ops on graph tensors *)

Definition lift1 {s t} (sf : TensorShape -> TensorShape)
    (f : ndarray (carrier s) -> eval (ndarray (carrier t))) (x : Tensor s) : Tensor t :=
  mk_tensor (sf (static_shape x)) (v <- value x ;; f v).

Definition static_broadcast (a b : TensorShape) : TensorShape :=
  match a, b with
  | Some da, Some db => if (List.length da <? List.length db)%nat then b else a
  | _, _ => None
  end.

Definition lift2 {r s t} (f : carrier r -> carrier s -> carrier t)
    (x : Tensor r) (y : Tensor s) : Tensor t :=
  mk_tensor (static_broadcast (static_shape x) (static_shape y))
            (a <- value x ;; b <- value y ;; nd_broadcast2 f a b).

Definition tf_identity {t} (x : Tensor t) : Tensor t := x.

(** [tf.constant(z, d)] for a Python integer [z]. *)
Definition tf_constant (z : Z) (d : NumType) : Tensor d :=
  constant_array (nd_scalar (of_Z d z) : ndarray (carrier d)).

(** [tf.constant(float('nan'), d)] *)
Definition tf_constant_nan (d : NumType) : construct (Tensor d) :=
  match nan_of d with
  | Some v => Ok (constant_array (nd_scalar v : ndarray (carrier d)))
  | None => Raise TypeError
  end.

Definition tf_add {d : NumType} (x y : Tensor d) : Tensor d := lift2 (r := d) (s := d) (t := d) (add d) x y.
Definition tf_subtract {d : NumType} (x y : Tensor d) : Tensor d := lift2 (r := d) (s := d) (t := d) (sub d) x y.
Definition tf_multiply {d : NumType} (x y : Tensor d) : Tensor d := lift2 (r := d) (s := d) (t := d) (mul d) x y.
Definition tf_realdiv {f : FloatType} (x y : Tensor f) : Tensor f := lift2 (r := f) (s := f) (t := f) (fdiv f) x y.
Definition tf_square {d : NumType} (x : Tensor d) : Tensor d :=
  lift1 (s := d) (t := d) (fun s => s) (fun v => Ok (nd_map (fun a => mul d a a) v)) x.

Definition tf_equal {d : NumType} (x y : Tensor d) : Tensor tf_bool :=
  lift2 (r := d) (s := d) (t := tf_bool) (eqb d) x y.
Definition tf_less_equal {d : NumType} (x y : Tensor d) : Tensor tf_bool :=
  lift2 (r := d) (s := d) (t := tf_bool) (leb d) x y.
Definition tf_greater_equal {d : NumType} (x y : Tensor d) : Tensor tf_bool :=
  lift2 (r := d) (s := d) (t := tf_bool) (fun a b => leb d b a) x y.

Definition tf_cast {a : NumType} (x : Tensor a) (b : NumType) : Tensor b :=
  lift1 (s := a) (t := b) (fun s => s) (fun v => Ok (nd_map (cast a b) v)) x.

Definition tf_is_nan {f : FloatType} (x : Tensor f) : Tensor tf_bool :=
  lift1 (s := f) (t := tf_bool) (fun s => s) (fun v => Ok (nd_map SFis_nan v)) x.

Definition tf_is_inf {d : NumType} (x : Tensor d) : Tensor tf_bool :=
  lift1 (s := d) (t := tf_bool) (fun s => s) (fun v => Ok (nd_map (is_inf d) v)) x.

(** [tf.zeros_like(x, dtype)] and [tf.ones_like(x, dtype)]; the library's
    default for [dtype] is the type of [x]. *)
Definition tf_zeros_like {t} (x : Tensor t) (dtype : NumType) : Tensor dtype :=
  lift1 (t := dtype) (fun s => s) (fun v => Ok (nd_map (fun _ => zero dtype) v)) x.
Definition tf_ones_like {t} (x : Tensor t) (dtype : NumType) : Tensor dtype :=
  lift1 (t := dtype) (fun s => s) (fun v => Ok (nd_map (fun _ => one dtype) v)) x.

Definition tf_where {t} (c : Tensor tf_bool) (x y : Tensor t) : Tensor t :=
  mk_tensor (static_shape x)
            (cv <- value c ;; a <- value x ;; b <- value y ;; nd_where cv a b).

(** Static shape after [tf.reshape(x, sh)]. *)
Definition static_reshape (s : TensorShape) (sh : list Z) : TensorShape :=
  match sh with
  | [z] =>
      if z =? -1 then
        match s with
        | Some ds =>
            if forallb (fun o => match o with Some _ => true | None => false end) ds
            then Some [Some (prod_dims (map (fun o => match o with Some n => n | None => O end) ds))]
            else Some [None]
        | None => Some [None]
        end
      else Some [Some (Z.to_nat z)]
  | _ => Some (map (fun z => if z =? -1 then None else Some (Z.to_nat z)) sh)
  end.

Definition tf_reshape {t} (x : Tensor t) (sh : list Z) : Tensor t :=
  lift1 (fun s => static_reshape s sh) (fun v => nd_reshape v sh) x.

(** [tf.shape] and [tf.size] (of type [tf.int32]). *)
Definition tf_shape {t} (x : Tensor t) : Tensor tf_int32 :=
  lift1 (t := tf_int32) (fun s => Some [ndims s])
        (fun v => Ok (mk_nd [List.length (shape v)] (map Z.of_nat (shape v)))) x.

Definition tf_size {t} (x : Tensor t) : Tensor tf_int32 :=
  lift1 (t := tf_int32) (fun _ => Some [])
        (fun v => Ok (nd_scalar (Z.of_nat (List.length (data v))))) x.

(** [tf.fill(dims, value)] *)
Definition tf_fill {t} (dims : Tensor tf_int32) (v : Tensor t) : Tensor t :=
  mk_tensor None
            (dv <- value dims ;; a <- value v ;;
             match data a with
             | [c] => let sh := map Z.to_nat (data dv) in
                      Ok (mk_nd sh (repeat c (prod_dims sh)))
             | _ => Raise (InvalidArgument [])
             end).

Definition static_reduce (s : TensorShape) (axis : option nat) : TensorShape :=
  match axis with
  | None => Some []
  | Some k => option_map (remove_nth k) s
  end.

Definition tf_reduce_sum {d : NumType} (x : Tensor d) (axis : option nat) : Tensor d :=
  lift1 (s := d) (t := d) (fun s => static_reduce s axis)
        (fun v => nd_reduce (add d) (zero d) v axis) x.

Definition tf_reduce_max {d : NumType} (x : Tensor d) (axis : option nat) : Tensor d :=
  lift1 (s := d) (t := d) (fun s => static_reduce s axis)
        (fun v => nd_reduce (max_acc d) (lowest d) v axis) x.

Definition tf_reduce_min {d : NumType} (x : Tensor d) (axis : option nat) : Tensor d :=
  lift1 (s := d) (t := d) (fun s => static_reduce s axis)
        (fun v => nd_reduce (min_acc d) (highest d) v axis) x.

(** An op that is run for its effect only (an assertion). *)
Definition Op : Type := eval unit.

Fixpoint run_ops (ops : list Op) : eval unit :=
  match ops with
  | [] => Ok tt
  | o :: ops' => _ <- o ;; run_ops ops'
  end.

(** [with tf.control_dependencies(ops): ... x ...]: [x] is evaluated only
    after every op of [ops] has run. *)
Definition tf_control_dependencies {t} (ops : list Op) (x : Tensor t) : Tensor t :=
  mk_tensor (static_shape x) (_ <- run_ops ops ;; value x).

Fixpoint eval_all (ts : list AnyTensor) : eval (list any_array) :=
  match ts with
  | [] => Ok []
  | existT _ t x :: ts' =>
      v <- value x ;; vs <- eval_all ts' ;; Ok (existT _ t v :: vs)
  end.

(** [tf.Assert(condition, data)] *)
Definition tf_Assert (condition : Tensor tf_bool) (data_ : list AnyTensor) : Op :=
  c <- value condition ;;
  if forallb (fun b : bool => b) (data c) then Ok tt
  else (vs <- eval_all data_ ;; Raise (InvalidArgument vs)).

(** [tf.compat.v1.assert_equal(x, y)] *)
Definition tf_assert_equal {d : NumType} (x y : Tensor d) : Op :=
  a <- value x ;; b <- value y ;;
  if shape_eqb (shape a) (shape b)
     && forallb (fun b : bool => b) (map2 (eqb d) (data a) (data b))
  then Ok tt
  else Raise (InvalidArgument [existT _ (DT d) a; existT _ (DT d) b]).

(** [tf.unique_with_counts(x, out_idx=tf.int64)] *)
Record UniqueWithCounts (t : DType) : Type := mk_unique {
  y : Tensor t;
  idx : Tensor tf_int64;
  count : Tensor tf_int64
}.
Arguments y {t} _.
Arguments idx {t} _.
Arguments count {t} _.

Definition unique_arrays {t} (v : ndarray (carrier t))
  : eval (list (carrier t) * list nat) :=
  match shape v with
  | [_] => Ok (unique_idx (el_eqb t) (data v))
  | _ => Raise (InvalidArgument [])
  end.

Definition tf_unique_with_counts {t} (x : Tensor t) : UniqueWithCounts t :=
  let u := v <- value x ;; unique_arrays v in
  {| y := mk_tensor (Some [None])
            ('(ys, _) <- u ;; Ok (mk_nd [List.length ys] ys));
     idx := mk_tensor (t := tf_int64) (static_shape x)
            ('(_, ix) <- u ;; Ok (mk_nd [List.length ix] (map Z.of_nat ix)));
     count := mk_tensor (t := tf_int64) (Some [None])
            ('(ys, ix) <- u ;;
             Ok (mk_nd [List.length ys]
                   (map (fun j => wrap tf_int64 (Z.of_nat (count_occ_nat j ix)))
                        (seq 0 (List.length ys))))) |}.

(** [tf.math.unsorted_segment_sum(data, segment_ids, num_segments)] *)
Definition tf_unsorted_segment_sum {d : NumType} (x : Tensor d)
    (segment_ids : Tensor tf_int64) (num_segments : Tensor tf_int32) : Tensor d :=
  mk_tensor (t := d) None
            (a <- value x ;; ids <- value segment_ids ;; n <- value num_segments ;;
             nd_unsorted_segment_sum (add d) (zero d) a ids n).

(** [tf.gather(params, indices)] *)
Definition tf_gather {t} (params : Tensor t) (indices_ : Tensor tf_int64) : Tensor t :=
  mk_tensor None (p <- value params ;; ix <- value indices_ ;; nd_gather p ix).

(** [m[:, k]] *)
Definition tf_column {t} (m : Tensor t) (k : nat) : Tensor t :=
  lift1 (fun _ => Some [None]) (fun v => nd_column v k) m.

(** [tf.SparseTensor(indices, values, dense_shape)] *)
Record SparseTensor (d : NumType) : Type := tf_SparseTensor {
  indices : Tensor tf_int64;
  values : Tensor d;
  dense_shape : Tensor tf_int64
}.
Arguments tf_SparseTensor {d} indices values dense_shape.
Arguments indices {d} _.
Arguments values {d} _.
Arguments dense_shape {d} _.

(** [sp.get_shape().ndims]: the static rank of a sparse tensor is the
    static length of its [dense_shape] vector. *)
Definition sparse_ndims {d} (sp : SparseTensor d) : option nat :=
  match static_shape (dense_shape sp) with
  | Some [Some r] => Some r
  | _ => None
  end.

Definition tf_sparse_reduce {d : NumType} (op : num d -> num d -> num d) (init : num d)
    (sp : SparseTensor d) (axis : option nat) : Tensor d :=
  mk_tensor (t := d) None
            (ix <- value (indices sp) ;; vals <- value (values sp) ;;
             dsh <- value (dense_shape sp) ;;
             nd_sparse_reduce op init (zero d) ix vals dsh axis).

Definition tf_sparse_reduce_sum {d : NumType} (sp : SparseTensor d)
    (axis : option nat) : Tensor d :=
  tf_sparse_reduce (add d) (zero d) sp axis.

Definition tf_sparse_reduce_max {d : NumType} (sp : SparseTensor d)
    (axis : option nat) : Tensor d :=
  tf_sparse_reduce (max_acc d) (lowest d) sp axis.

(** A batch is a dense tensor or a sparse one ([isinstance(x,
    tf.SparseTensor)] tells which). *)
Inductive TensorLike (d : NumType) : Type :=
| Dense (x : Tensor d)
| Sparse (x : SparseTensor d).
Arguments Dense {d} x.
Arguments Sparse {d} x.

(** [tf.cast] also accepts a sparse tensor and casts its values. *)
Definition tf_cast_like {a : NumType} (x : TensorLike a) (b : NumType) : TensorLike b :=
  match x with
  | Dense x => Dense (tf_cast x b)
  | Sparse sp => Sparse (tf_SparseTensor (indices sp) (tf_cast (values sp) b) (dense_shape sp))
  end.

(** Python's [+] between two tensors: the element types must agree. *)
Definition tensor_add {a b : NumType} (x : Tensor a) (y : Tensor b) : construct (Tensor a) :=
  match NumType_eq_dec b a with
  | left e => Ok (tf_add x (eq_rect b (fun n : NumType => Tensor n) y a e))
  | right _ => Raise TypeError
  end.

(** [ops.convert_to_tensor] refuses [None]; the name of an optional
    argument used as a tensor. *)
Definition convert_to_tensor {A} (o : option A) : construct A :=
  match o with
  | Some a => Ok a
  | None => Raise ValueError
  end.

(** Attribute access ([y.shape]) on an optional argument: [None] has no
    attributes. *)
Definition getattr_of {A} (o : option A) : construct A :=
  match o with
  | Some a => Ok a
  | None => Raise AttributeError
  end.

(** [tf.compat.v1.assert_type(tensor, tf_type)]: converts its argument
    to a tensor and compares the element type. *)
Definition tf_assert_type (x : option AnyTensor) (tf_type : DType)
  : construct (Tensor tf_type) :=
  x <- convert_to_tensor x ;;
  let '(existT _ t x) := x in
  match DType_eq_dec t tf_type with
  | left e => Ok (eq_rect t Tensor x tf_type e)
  | right _ => Raise TypeError
  end.

(* ================================================================= *)
(** ** The module [tf_utils] *)

Inductive VocabOrderingType : Set :=
| FREQUENCY
| WEIGHTED_FREQUENCY
| WEIGHTED_MUTUAL_INFORMATION.

Definition VocabOrderingType_eqb (a b : VocabOrderingType) : bool :=
  match a, b with
  | FREQUENCY, FREQUENCY
  | WEIGHTED_FREQUENCY, WEIGHTED_FREQUENCY
  | WEIGHTED_MUTUAL_INFORMATION, WEIGHTED_MUTUAL_INFORMATION => true
  | _, _ => false
  end.

(** [assert_same_shape(x, y)] *)
Definition assert_same_shape {s t} (x : Tensor s) (y : Tensor t) : construct (Tensor s) :=
  _ <- assert_is_compatible_with (static_shape x) (static_shape y) ;;
  let assert_eq := tf_assert_equal (tf_shape x) (tf_shape y) in
  Ok (tf_control_dependencies [assert_eq] (tf_identity x)).

(** The 4-tuple the vocabulary reduction returns: unique values, summed
    weights, summed positive weights and counts, the last three possibly
    [None]. *)
Definition VocabOutput (t : DType) : Type :=
  (Tensor t * option NumTensor * option (Tensor tf_float32) * option (Tensor tf_int64))%type.

(** [_reduce_vocabulary_inputs(x, weights, labels=None)] *)
Definition _reduce_vocabulary_inputs {t} {dw : NumType}
    (x : Tensor t) (weights : Tensor dw) (labels : option AnyTensor)
  : construct (VocabOutput t) :=
  let unique := tf_unique_with_counts x in
  let summed_weights :=
    tf_unsorted_segment_sum weights (idx unique) (tf_size (y unique)) in
  match labels with
  | None =>
      let summed_positive_weights := None in
      let counts := None in
      Ok (y unique, Some (existT _ dw summed_weights), summed_positive_weights, counts)
  | Some (existT _ tl labels) =>
      match tl return Tensor tl -> construct (VocabOutput t) with
      | DT dl => fun labels =>
          let less_assert :=
            tf_Assert (tf_less_equal (tf_reduce_max labels None) (tf_constant 1 dl))
                      [existT _ (DT dl) labels] in
          let greater_assert :=
            tf_Assert (tf_greater_equal (tf_reduce_min labels None) (tf_constant 0 dl))
                      [existT _ (DT dl) labels] in
          let labels :=
            tf_control_dependencies [less_assert; greater_assert] (tf_identity labels) in
          let positive_weights :=
            tf_multiply (tf_cast labels tf_float32) (tf_cast weights tf_float32) in
          let summed_positive_weights :=
            tf_unsorted_segment_sum positive_weights (idx unique) (tf_size (y unique)) in
          let counts := count unique in
          Ok (y unique, Some (existT _ dw summed_weights),
              Some summed_positive_weights, Some counts)
      | _ => fun _ => Raise TypeError
      end labels
  end.

(** [reduce_batch_vocabulary(x, vocab_ordering_type, weights=None,
    labels=None)] *)
Definition reduce_batch_vocabulary {t} (x : Tensor t)
    (vocab_ordering_type : VocabOrderingType)
    (weights : option NumTensor) (labels : option AnyTensor)
  : construct (VocabOutput t) :=
  if VocabOrderingType_eqb vocab_ordering_type FREQUENCY then
    let x := tf_reshape x [-1] in
    Ok (x, None, None, None)
  else
    '(x, weights, labels) <-
      (if VocabOrderingType_eqb vocab_ordering_type WEIGHTED_MUTUAL_INFORMATION then
         labels <- tf_assert_type labels tf_int64 ;;
         x <- assert_same_shape x labels ;;
         let weights :=
           match weights with
           | None => Some (existT _ (IntT tf_int64) (tf_ones_like labels tf_int64))
           | Some w => Some w
           end in
         let labels := tf_reshape labels [-1] in
         Ok (x, weights, Some (existT _ (DT tf_int64) labels))
       else Ok (x, weights, labels)) ;;
    w <- getattr_of weights ;;
    let '(existT _ dw weights) := w in
    x <- assert_same_shape x weights ;;
    let weights := tf_reshape weights [-1] in
    let x := tf_reshape x [-1] in
    _reduce_vocabulary_inputs x weights labels.

(** [reduce_batch_sum(x, reduce_instance_dims)] *)
Definition reduce_batch_sum {d : NumType} (x : TensorLike d)
    (reduce_instance_dims : bool) : Tensor d :=
  let axis := if reduce_instance_dims then None else Some O in
  match x with
  | Sparse x => tf_sparse_reduce_sum x axis
  | Dense x =>
      let x := tf_where (tf_is_nan (tf_cast x tf_float32)) (tf_zeros_like x d) x in
      tf_reduce_sum x axis
  end.

(** The element type of a count: [tf.int64] for a sparse batch, the
    type of the batch for a dense one. *)
Definition count_dtype {d : NumType} (x : TensorLike d) : NumType :=
  match x with
  | Sparse _ => tf_int64
  | Dense _ => d
  end.

(** [reduce_batch_count(x, reduce_instance_dims)] *)
Definition reduce_batch_count {d : NumType} (x : TensorLike d)
    (reduce_instance_dims : bool) : Tensor (count_dtype x) :=
  match x as x0 return Tensor (count_dtype x0) with
  | Sparse x =>
      let ones_like :=
        tf_SparseTensor (indices x) (tf_ones_like (values x) tf_int64) (dense_shape x) in
      reduce_batch_sum (Sparse ones_like) reduce_instance_dims
  | Dense x =>
      let ones_like :=
        tf_where (tf_is_nan (tf_cast x tf_float32)) (tf_zeros_like x d) (tf_ones_like x d) in
      reduce_batch_sum (Dense ones_like) reduce_instance_dims
  end.

(** [reduce_batch_count_mean_and_var(x, reduce_instance_dims)], on the
    floating element types, where Python's [/] is real division. *)
Definition reduce_batch_count_mean_and_var {f : FloatType} (x : TensorLike f)
    (reduce_instance_dims : bool) : construct (Tensor f * Tensor f * Tensor f) :=
  let x :=
    match x with
    | Sparse sp => if reduce_instance_dims then Dense (values sp) else x
    | Dense _ => x
    end in
  let x_count := tf_cast (reduce_batch_count x reduce_instance_dims) f in
  let x_mean := tf_realdiv (reduce_batch_sum x reduce_instance_dims) x_count in
  x_minus_mean <-
    match x with
    | Sparse x =>
        match sparse_ndims x with
        | Some 2%nat =>
            let mean_values := tf_gather x_mean (tf_column (indices x) 1) in
            Ok (tf_subtract (values x) mean_values)
        | _ => Raise NotImplementedError
        end
    | Dense x => Ok (tf_subtract x x_mean)
    end ;;
  let x_variance :=
    tf_realdiv (reduce_batch_sum (Dense (tf_square x_minus_mean)) reduce_instance_dims)
               x_count in
  Ok (x_count, x_mean, x_variance).

(** [_sparse_minus_reduce_min_and_reduce_max(x)] *)
Definition _sparse_minus_reduce_min_and_reduce_max {d : NumType} (x : TensorLike d)
  : construct (Tensor d * Tensor d) :=
  match x with
  | Dense _ => Raise TypeError
  | Sparse x =>
      let minus_x :=
        tf_SparseTensor (indices x) (tf_subtract (tf_constant 0 d) (values x))
                        (dense_shape x) in
      let x_count := reduce_batch_count (Sparse x) false in
      let batch_has_no_values := tf_equal x_count (tf_constant 0 tf_int64) in
      let x_batch_max := tf_sparse_reduce_max x (Some O) in
      let x_batch_minus_min := tf_sparse_reduce_max minus_x (Some O) in
      missing_value <-
        match d with
        | FloatT _ => tf_constant_nan d
        | IntT i => Ok (tf_constant (int_min i + 1) d)
        end ;;
      let x_batch_max :=
        tf_where batch_has_no_values
                 (tf_fill (tf_shape x_batch_max) missing_value) x_batch_max in
      let x_batch_minus_min :=
        tf_where batch_has_no_values
                 (tf_fill (tf_shape x_batch_minus_min) missing_value) x_batch_minus_min in
      Ok (x_batch_minus_min, x_batch_max)
  end.

(** [_inf_to_nan(tensor, output_dtype)] *)
Definition _inf_to_nan {d : NumType} (tensor : Tensor d) (output_dtype : NumType)
  : construct (Tensor d) :=
  if is_floating d then
    nan <- tf_constant_nan output_dtype ;;
    tensor_plus_nan <- tensor_add tensor nan ;;
    Ok (tf_where (tf_is_inf tensor) tensor_plus_nan tensor)
  else Ok tensor.

(** The pair [(batch -min, batch max)] together with its element type. *)
Definition MinMax : Type := { d : NumType & (Tensor d * Tensor d)%type }.

(** [reduce_batch_minus_min_and_max(x, reduce_instance_dims)] *)
Definition reduce_batch_minus_min_and_max {d : NumType} (x : TensorLike d)
    (reduce_instance_dims : bool) : construct MinMax :=
  let output_dtype := d in
  x <-
    (if dtype_eqb d tf_uint8 || dtype_eqb d tf_uint16 then
       Ok (existT TensorLike (IntT tf_int32) (tf_cast_like x tf_int32))
     else if dtype_eqb d tf_uint32 || dtype_eqb d tf_uint64 then
       Raise TypeError
     else Ok (existT TensorLike d x)) ;;
  let '(existT _ d' x) := x in
  '(x_batch_minus_min, x_batch_max) <-
    (if reduce_instance_dims then
       let x := match x with
                | Sparse x => values x
                | Dense x => x
                end in
       let x_batch_max := tf_reduce_max x None in
       let x_batch_minus_min := tf_reduce_max (tf_subtract (tf_zeros_like x d') x) None in
       x_batch_minus_min <- assert_same_shape x_batch_minus_min x_batch_max ;;
       Ok (x_batch_minus_min, x_batch_max)
     else
       match x with
       | Sparse _ => _sparse_minus_reduce_min_and_reduce_max x
       | Dense x =>
           let x_batch_max := tf_reduce_max x (Some O) in
           let x_batch_minus_min :=
             tf_reduce_max (tf_subtract (tf_constant 0 d') x) (Some O) in
           Ok (x_batch_minus_min, x_batch_max)
       end) ;;
  minus_min <- _inf_to_nan x_batch_minus_min output_dtype ;;
  max_ <- _inf_to_nan x_batch_max output_dtype ;;
  Ok (existT _ d' (minus_min, max_)).

(* ================================================================= *)
(** ** Vocabulary of the statements *)

(** [tf.is_nan(tf.cast(v, tf.float32))] on one element. *)
Definition elem_is_nan (d : NumType) (v : num d) : bool :=
  SFis_nan (cast d tf_float32 v).

(** What the Sum Reducer adds up for one dense element. *)
Definition nan_to_zero (d : NumType) (v : num d) : num d :=
  if elem_is_nan d v then zero d else v.

(** What the Count Reducer adds up for one dense element. *)
Definition valid_indicator (d : NumType) (v : num d) : num d :=
  if elem_is_nan d v then zero d else one d.

(** The axis the reducers select. *)
Definition axis_of (reduce_instance_dims : bool) : option nat :=
  if reduce_instance_dims then None else Some O.

(** Two batches of instances of one shape, one after the other. *)
Definition nd_concat {A} (a b : ndarray A) : ndarray A :=
  mk_nd ((hd O (shape a) + hd O (shape b))%nat :: tl (shape a)) (data a ++ data b).

(** A dense batch: [n] instances of shape [inst], stored row-major. *)
Definition is_batch {A} (a : ndarray A) (n : nat) (inst : list nat) : Prop :=
  shape a = n :: inst /\ List.length (data a) = (n * prod_dims inst)%nat.

(** A floating value that is neither NaN nor negative (nor minus zero). *)
Definition SFnonneg (x : spec_float) : bool :=
  match x with
  | S754_zero s | S754_infinity s | S754_finite s _ _ => negb s
  | S754_nan => false
  end.

(** A rank-1 tensor with fully known static shape. *)
Definition vector {t} (l : list (carrier t)) : Tensor t :=
  constant_array (mk_nd [List.length l] l).

(** The batch [[1, NaN, 3]] of type [tf.float32]. *)
Definition batch_1_nan_3 : Tensor tf_float32 :=
  vector (t := tf_float32) [of_Z tf_float32 1; S754_nan; of_Z tf_float32 3].

(** The scalar NaN constant of a floating type. *)
Definition nan_constant (f : FloatType) : Tensor f :=
  constant_array (nd_scalar S754_nan : ndarray (carrier f)).

(** [_inf_to_nan] on a floating tensor, once the constant is built and
    the element types are found equal. *)
Definition inf_remapped {f : FloatType} (t : Tensor f) : Tensor f :=
  tf_where (tf_is_inf t) (tf_add t (nan_constant f)) t.

(** The tensor holding the elements of a batch: the batch itself when
    dense, its [values] when sparse. *)
Definition batch_values {d : NumType} (x : TensorLike d) : Tensor d :=
  match x with
  | Dense x => x
  | Sparse sp => values sp
  end.

(** The batch [[+inf, 1]] of type [tf.float32]. *)
Definition batch_inf_1 : Tensor tf_float32 :=
  vector (t := tf_float32) [S754_infinity false; of_Z tf_float32 1].

(** An equality test that decides Leibniz equality. *)
Definition lawful {A} (eqb : A -> A -> bool) : Prop :=
  forall a b, eqb a b = true <-> a = b.

(** The element types on which [tf.unique]'s comparison is Leibniz
    equality: every type but the floating ones (NaN differs from itself,
    the two zeros are equal). *)
Definition exact_key (t : DType) : bool :=
  match t with
  | DT (FloatT _) => false
  | _ => true
  end.

(** The weights of the occurrences of [v] in [xs], in order. *)
Definition weights_of {A W} (eqb : A -> A -> bool) (v : A)
    (xs : list A) (ws : list W) : list W :=
  map snd (filter (fun p => eqb (fst p) v) (combine xs ws)).

(** The values whose segment id is [j], in order. *)
Definition segment {W} (j : nat) (ix : list nat) (ws : list W) : list W :=
  map snd (filter (fun p => Nat.eqb (fst p) j) (combine ix ws)).

(** The sums of the segments [0 .. n-1], each from [zero], in the order
    of the data. *)
Definition segment_sums {W} (add : W -> W -> W) (zero : W)
    (ix : list nat) (ws : list W) (n : nat) : list W :=
  map (fun j => fold_left add (segment j ix ws) zero) (seq 0 n).

(** The weights the vocabulary reduction works with: the supplied ones,
    or [tf.ones_like(labels)]. *)
Definition default_weights (labels : Tensor tf_int64) (weights : option NumTensor)
  : NumTensor :=
  match weights with
  | None => existT _ (IntT tf_int64) (tf_ones_like labels tf_int64)
  | Some w => w
  end.

(** What a failed label assertion reports: the flattened labels. *)
Definition label_failure (ls : list Z) : OpError :=
  InvalidArgument [existT _ (DT tf_int64) (mk_nd [List.length ls] ls)].

(** The batch [["a", "b", "a"]] with weights [[1, 2, 3]]. *)
Definition vocab_aba : Tensor tf_string :=
  vector (t := tf_string) ["a"%string; "b"%string; "a"%string].

Definition weights_123 : Tensor tf_float32 :=
  vector (t := tf_float32) [of_Z tf_float32 1; of_Z tf_float32 2; of_Z tf_float32 3].

(** Running the graph for the whole 4-tuple ([session.run] on the
    reduction's result): every tensor of the tuple is evaluated, and the
    first error met is the outcome. *)
Definition eval_optional {A} (o : option A) (run : A -> eval unit) : eval unit :=
  match o with
  | Some a => run a
  | None => Ok tt
  end.

Definition fetch_all {t} (out : VocabOutput t) : eval unit :=
  let '(unique_values, summed_weights, summed_positive_weights, counts) := out in
  _ <- value unique_values ;;
  _ <- eval_optional summed_weights (fun w => _ <- value (projT2 w) ;; Ok tt) ;;
  _ <- eval_optional summed_positive_weights (fun w => _ <- value w ;; Ok tt) ;;
  eval_optional counts (fun c => _ <- value c ;; Ok tt).

(** A rank-2 sparse batch given by its coordinate list: entry [k] sits
    at row [fst (nth k coords)], column [snd (nth k coords)] and holds
    [nth k vs]; the dense shape is [[nrows, ncols]]. *)
Definition coord_row (rc : Z * Z) : list Z := [fst rc; snd rc].

Definition sparse_repr {d : NumType} (sp : SparseTensor d)
    (coords : list (Z * Z)) (vs : list (num d)) (nrows ncols : Z) : Prop :=
  value (indices sp)
  = Ok (mk_nd [List.length coords; 2%nat] (flat_map coord_row coords))
  /\ value (values sp) = Ok (mk_nd [List.length vs] vs)
  /\ value (dense_shape sp) = Ok (mk_nd [2%nat] [nrows; ncols])
  /\ List.length vs = List.length coords
  /\ Forall (fun rc => 0 <= fst rc < nrows /\ 0 <= snd rc < ncols) coords.

(** The values stored in column [c], in the order of the entries. *)
Definition column_values {V} (c : nat) (coords : list (Z * Z)) (vs : list V) : list V :=
  map snd (filter (fun p => Nat.eqb c (Z.to_nat (snd (fst p)))) (combine coords vs)).

(** The sentinel written for a column without entries. *)
Definition missing (d : NumType) : num d :=
  match d with
  | FloatT _ => S754_nan
  | IntT i => int_min i + 1
  end.

(** The element type the Min/Max Reducer computes in. *)
Definition working_type (d : NumType) : NumType :=
  if dtype_eqb d tf_uint8 || dtype_eqb d tf_uint16 then IntT tf_int32 else d.

(** The per-column count of a sparse batch: one per entry of the
    column, added up in [tf.int64]. *)
Definition column_count {V} (c : nat) (coords : list (Z * Z)) (vs : list V) : Z :=
  reduce_group (add tf_int64) (zero tf_int64) (zero tf_int64)
    (column_values c coords (map (fun _ => one tf_int64) vs)).

(** One cell of the per-column maximum of a sparse batch: the sentinel
    when the count is zero, the maximum of the column otherwise. *)
Definition column_cell (d : NumType) (count : Z) (g : list (num d)) : num d :=
  if eqb tf_int64 count (of_Z tf_int64 0) then missing d
  else reduce_group (max_acc d) (lowest d) (zero d) g.

Definition column_cells {d : NumType} (coords : list (Z * Z)) (vs : list (num d))
    (ncols : Z) : list (num d) :=
  map (fun c => column_cell d (column_count c coords vs) (column_values c coords vs))
      (seq 0 (Z.to_nat ncols)).

(** The sparse [tf.float32] batch of shape [[2, 3]] holding 5 at (0, 0)
    and -3 at (1, 2): its column 1 is empty. *)
Definition sparse_2x3 : SparseTensor tf_float32 :=
  tf_SparseTensor
    (constant_array (t := tf_int64) (mk_nd [2%nat; 2%nat] [0; 0; 1; 2]))
    (vector (t := tf_float32) [of_Z tf_float32 5; of_Z tf_float32 (-3)])
    (vector (t := tf_int64) [2; 3]).

(** What [tf.unique] has established after reading the elements [seen]:
    the unique values are distinct, they are the elements seen, and every
    segment id points at its element's value. *)
Definition unique_inv {A} (st : list A * list nat) (seen : list A) : Prop :=
  NoDup (fst st)
  /\ (forall v, In v (fst st) <-> In v seen)
  /\ Forall2 (fun j x => nth_error (fst st) j = Some x) (snd st) seen.

(** The external combiner's merge of two maxima: the larger of the two,
    element by element. *)
Definition pairwise_maximum {d : NumType} (x y : Tensor d) : Tensor d :=
  lift2 (r := d) (s := d) (t := d) (max_acc d) x y.

(** What makes partial results of a left-to-right reduction mergeable:
    on the accumulators [P] reaches, folding in an element and then merging
    is merging with the element folded into the unit. *)
Record merge_laws {V} (op : V -> V -> V) (e : V) (P Q : V -> Prop) : Prop := {
  ml_unit_ok : P e;
  ml_closed : forall a x, P a -> Q x -> P (op a x);
  ml_assoc : forall a x s, P a -> Q x -> P s -> op (op a x) s = op a (op (op e x) s);
  ml_unit : forall a, P a -> op a e = a
}.

(** A sparse batch [B] placed below a sparse batch [A] of [nrows] rows. *)
Definition shift_rows (nrows : Z) (coords : list (Z * Z)) : list (Z * Z) :=
  map (fun rc => (fst rc + nrows, snd rc)) coords.

(** Dense [tf.float32] batches used to refute unrestricted merging. *)
Definition batch_inf : Tensor tf_float32 :=
  vector (t := tf_float32) [S754_infinity false].
Definition batch_0 : Tensor tf_float32 :=
  vector (t := tf_float32) [of_Z tf_float32 0].
Definition batch_inf_0 : Tensor tf_float32 :=
  vector (t := tf_float32) [S754_infinity false; of_Z tf_float32 0].

Definition batch_2p24 : Tensor tf_float32 :=
  vector (t := tf_float32) [of_Z tf_float32 16777216].
Definition batch_1_1 : Tensor tf_float32 :=
  vector (t := tf_float32) [of_Z tf_float32 1; of_Z tf_float32 1].
Definition batch_2p24_1_1 : Tensor tf_float32 :=
  vector (t := tf_float32)
    [of_Z tf_float32 16777216; of_Z tf_float32 1; of_Z tf_float32 1].

(** Sparse [tf.int64] batches of one column: no entry; the type's
    minimum at (0, 0); and the second below the first. *)
Definition sparse_none : SparseTensor tf_int64 :=
  tf_SparseTensor (constant_array (t := tf_int64) (mk_nd [0%nat; 2%nat] []))
                  (vector (t := tf_int64) [])
                  (vector (t := tf_int64) [1; 1]).
Definition sparse_min : SparseTensor tf_int64 :=
  tf_SparseTensor (constant_array (t := tf_int64) (mk_nd [1%nat; 2%nat] [0; 0]))
                  (vector (t := tf_int64) [int_min tf_int64])
                  (vector (t := tf_int64) [1; 1]).
Definition sparse_none_min : SparseTensor tf_int64 :=
  tf_SparseTensor (constant_array (t := tf_int64) (mk_nd [1%nat; 2%nat] [1; 0]))
                  (vector (t := tf_int64) [int_min tf_int64])
                  (vector (t := tf_int64) [2; 1]).

(** *** Vocabulary of the further properties *)

(** What a failed shape assertion reports for one operand: its runtime
    shape, as the [tf.int32] vector [tf.shape] produces. *)
Definition shape_report {A} (a : ndarray A) : any_array :=
  existT _ (DT tf_int32) (mk_nd [List.length (shape a)] (map Z.of_nat (shape a))).
(** The exact (unbounded) sum of a list of integers. *)
Definition zsum (l : list Z) : Z := fold_right Z.add 0 l.

(** How often [v] occurs in [l], as [tf.unique] compares elements. *)
Definition occurrences (t : DType) (v : carrier t) (l : list (carrier t)) : nat :=
  List.length (filter (fun a => el_eqb t a v) l).
(** The elements at position [j] of each row: one instance cell across
    the batch. *)
Definition cell_values {A} (j : nat) (rs : list (list A)) : list A :=
  flat_map (fun r => match nth_error r j with Some v => [v] | None => [] end) rs.

(** The per-column mean of a rank-2 sparse batch: the sum of the values
    stored in the column divided by their count (NaN, as 0/0, for a column
    without entries). *)
Definition column_mean (f : FloatType) (coords : list (Z * Z)) (vs : list spec_float)
    (c : nat) : spec_float :=
  fdiv f (reduce_group (add f) (zero f) (zero f) (column_values c coords vs))
         (cast tf_int64 f (column_count c coords vs)).

(** The squared deviation of every stored entry from the mean of its own
    column, in the order of the entries. *)
Definition squared_deviations (f : FloatType) (coords : list (Z * Z))
    (vs : list spec_float) : list spec_float :=
  map (fun d : spec_float => mul f d d)
      (map2 (sub f) vs
            (map (fun rc => column_mean f coords vs (Z.to_nat (snd rc))) coords)).

From Stdlib Require Import Permutation Sorted.

(* ================================================================= *)
(** ** Serialization to example protos *)

(** Python exceptions of the serialization functions: those above, the
    [KeyError] of a failed dictionary lookup, and any other exception an op
    may raise, by the name of its class. *)
Inductive PyError : Set :=
| Builtin (e : PyExn)
| KeyError
| OtherError (class_name : string).

Definition python (A : Type) : Type := result PyError A.

(** A value of a features dictionary: a [Tensor] or a [SparseTensor], of
    any element type. *)
Inductive FeatureValue : Type :=
| DenseValue (t : DType) (x : Tensor t)
| SparseValue (t : DType) (sp_indices : Tensor tf_int64) (sp_values : Tensor t)
              (sp_dense_shape : Tensor tf_int64).

(** [value.dtype] *)
Definition dtype_of (v : FeatureValue) : DType :=
  match v with
  | DenseValue t _ => t
  | SparseValue t _ _ _ => t
  end.

(** A Python dictionary with string keys, as the list of its items in
    insertion order; its keys are distinct. *)
Definition PyDict (V : Type) : Type := list (string * V).

(** [sorted(d.items(), key=lambda x: x[0])]: the items in ascending order
    of their keys; Python's sort is stable. *)
Fixpoint insert_item {V} (kv : string * V) (l : list (string * V)) : list (string * V) :=
  match l with
  | [] => [kv]
  | h :: l' =>
      if String.leb (fst kv) (fst h) then kv :: h :: l'
      else h :: insert_item kv l'
  end.

Definition sorted_items {V} (d : PyDict V) : list (string * V) :=
  fold_right insert_item [] d.

(** The TensorFlow ops which only the serialization functions call.
    Their meaning is left open: each is given the arguments the module
    passes and may raise while the graph is built. *)
Class GraphOps : Type := {
  (** [tf.sparse.to_dense(sp, default_value)] *)
  tf_sparse_to_dense :
    forall t : DType,
      Tensor tf_int64 -> Tensor t -> Tensor tf_int64 -> carrier t -> python (Tensor t);
  (** [shape[k]] on the result of [tf.shape] *)
  tf_getitem : Tensor tf_int32 -> nat -> python (Tensor tf_int32);
  (** [tf.reshape(x, dims)] where a dimension is a tensor or an integer *)
  tf_reshape_dynamic :
    forall t : DType, Tensor t -> list (Tensor tf_int32 + Z) -> python (Tensor t);
  (** [tf.fill(dims, value)] where [dims] is a tuple of scalar tensors *)
  tf_fill_dynamic :
    forall t : DType, list (Tensor tf_int32) -> Tensor t -> python (Tensor t);
  (** [tf.stack(values, axis)] *)
  tf_stack : forall t : DType, list (Tensor t) -> nat -> python (Tensor t);
  (** [encode_proto_op.encode_proto(sizes, values, field_names,
      message_type)] *)
  encode_proto :
    Tensor tf_int32 -> list AnyTensor -> list string -> string -> python (Tensor tf_string)
}.

(** [_DEFAULT_VALUE_BY_DTYPE[dtype]] *)
Definition _DEFAULT_VALUE_BY_DTYPE (t : DType) : python (carrier t) :=
  match t return python (carrier t) with
  | tf_string => Ok EmptyString
  | DT (FloatT tf_float32) => Ok (of_Z tf_float32 0)
  | DT (IntT tf_int64) => Ok (of_Z tf_int64 0)
  | _ => Raise KeyError
  end.

(** The body of the loop of [_encode_proto]: the value and the size
    vector of one field. *)
Definition encode_field {ops : GraphOps} (value : FeatureValue)
  : python (AnyTensor * Tensor tf_int32) :=
  match value with
  | SparseValue t ix vals dsh =>
      let size :=
        tf_sparse_reduce_sum
          (tf_SparseTensor ix (tf_ones_like vals tf_int32) dsh) (Some 1%nat) in
      default <- _DEFAULT_VALUE_BY_DTYPE t ;;
      value <- tf_sparse_to_dense t ix vals dsh default ;;
      Ok (existT _ t value, size)
  | DenseValue t value =>
      n <- tf_getitem (tf_shape value) 0 ;;
      value <- tf_reshape_dynamic t value [inl n; inr (-1)] ;;
      n <- tf_getitem (tf_shape value) 0 ;;
      m <- tf_getitem (tf_shape value) 1 ;;
      size <- tf_fill_dynamic (DT tf_int32) [n] m ;;
      Ok (existT _ t value, size)
  end.

Fixpoint encode_fields {ops : GraphOps} (items : list (string * FeatureValue))
  : python (list string * list (Tensor tf_int32) * list AnyTensor) :=
  match items with
  | [] => Ok ([], [], [])
  | (field_name, value) :: items' =>
      '(value, size) <- encode_field value ;;
      '(field_names, sizes, values) <- encode_fields items' ;;
      Ok (field_name :: field_names, size :: sizes, value :: values)
  end.

(** [_encode_proto(values_dict, message_type)] *)
Definition _encode_proto {ops : GraphOps} (values_dict : PyDict FeatureValue)
    (message_type : string) : python (Tensor tf_string) :=
  '(field_names, sizes, values) <- encode_fields (sorted_items values_dict) ;;
  sizes <- tf_stack (DT tf_int32) sizes 1 ;;
  encode_proto sizes values field_names message_type.

(** [_serialize_feature(values)]; its argument is a [Tensor] or a
    [SparseTensor], which [convert_to_tensor_or_sparse_tensor] returns
    unchanged. *)
Definition _serialize_feature {ops : GraphOps} (values : FeatureValue)
  : python (Tensor tf_string) :=
  values_dict <-
    (if DType_eq_dec (dtype_of values) tf_string then
       bytes_list <- _encode_proto [("value"%string, values)] "tensorflow.BytesList" ;;
       Ok [("bytes_list"%string, DenseValue tf_string bytes_list)]
     else if DType_eq_dec (dtype_of values) tf_float32 then
       float_list <- _encode_proto [("value"%string, values)] "tensorflow.FloatList" ;;
       Ok [("float_list"%string, DenseValue tf_string float_list)]
     else if DType_eq_dec (dtype_of values) tf_int64 then
       int64_list <- _encode_proto [("value"%string, values)] "tensorflow.Int64List" ;;
       Ok [("int64_list"%string, DenseValue tf_string int64_list)]
     else Raise (Builtin ValueError)) ;;
  _encode_proto values_dict "tensorflow.Feature".

(** The loop of [serialize_example]: one [FeatureEntry] per feature. *)
Fixpoint feature_entries {ops : GraphOps} (items : list (string * FeatureValue))
  : python (list (Tensor tf_string)) :=
  match items with
  | [] => Ok []
  | (key, value) :: items' =>
      serialized_value <- _serialize_feature value ;;
      n <- tf_getitem (tf_shape serialized_value) 0 ;;
      keys <- tf_fill_dynamic tf_string [n]
                (constant_array (nd_scalar key : ndarray (carrier tf_string))) ;;
      entry <- _encode_proto
                 [("key"%string, DenseValue tf_string keys);
                  ("value"%string, DenseValue tf_string serialized_value)]
                 "tensorflow.Features.FeatureEntry" ;;
      entries <- feature_entries items' ;;
      Ok (entry :: entries)
  end.

(** [serialize_example(features)] *)
Definition serialize_example {ops : GraphOps} (features : PyDict FeatureValue)
  : python (Tensor tf_string) :=
  features_dict <- feature_entries (sorted_items features) ;;
  features_dict <- tf_stack tf_string features_dict 1 ;;
  features <- _encode_proto [("feature"%string, DenseValue tf_string features_dict)]
                "tensorflow.Features" ;;
  _encode_proto [("features"%string, DenseValue tf_string features)] "tensorflow.Example".

(** The element types [_serialize_feature] can encode. *)
Definition encodable (t : DType) : bool :=
  match t with
  | tf_string | DT (FloatT tf_float32) | DT (IntT tf_int64) => true
  | _ => false
  end.

(** An interpretation of the open ops that records, in the tensor it
    returns for a message, the message type followed by the field names; it
    serves to run the serialization functions on examples. *)
Definition recording_ops : GraphOps := {|
  tf_sparse_to_dense := fun t _ vals _ _ => Ok vals;
  tf_getitem := fun s _ => Ok s;
  tf_reshape_dynamic := fun t x _ => Ok x;
  tf_fill_dynamic := fun t _ v => Ok v;
  tf_stack := fun t l _ =>
    match l with
    | x :: _ => Ok x
    | [] => Raise (Builtin ValueError)
    end;
  encode_proto := fun _ _ field_names message_type =>
    Ok (vector (t := tf_string) (message_type :: field_names))
|}.

(** The values stored in row [r] of a rank-2 sparse tensor, in the order
    of the entries. *)
Definition row_values {V} (r : nat) (coords : list (Z * Z)) (vs : list V) : list V :=
  map snd (filter (fun p => Nat.eqb r (Z.to_nat (fst (fst p)))) (combine coords vs)).

(** A floating value that is neither NaN nor infinite. *)
Definition SFfinite (x : spec_float) : bool :=
  match x with
  | S754_zero _ | S754_finite _ _ _ => true
  | _ => false
  end.

(** The position of a floating value in the order [SFcompare] decides:
    minus infinity, the negative numbers, the zeros, the positive numbers,
    plus infinity; numbers of one sign by exponent, then by mantissa. *)
Definition SFrank (x : spec_float) : Z * Z * Z :=
  match x with
  | S754_infinity true => (-2, 0, 0)
  | S754_finite true m e => (-1, - e, - Zpos m)
  | S754_zero _ | S754_nan => (0, 0, 0)
  | S754_finite false m e => (1, e, Zpos m)
  | S754_infinity false => (2, 0, 0)
  end.

Definition rank_le (a b : Z * Z * Z) : Prop :=
  fst (fst a) < fst (fst b)
  \/ (fst (fst a) = fst (fst b)
      /\ (snd (fst a) < snd (fst b)
          \/ (snd (fst a) = snd (fst b) /\ snd a <= snd b))).

(* ================================================================= *)
(** * Properties *)

(** ** Wrap-around arithmetic *)

Lemma pow_bits_pos (i : IntType) : 0 < 2 ^ bits i.
Proof. destruct i; reflexivity. Qed.

Lemma pow_bits_half (i : IntType) : 2 ^ bits i = 2 * 2 ^ (bits i - 1).
Proof. destruct i; reflexivity. Qed.

Lemma wrap_range (i : IntType) (z : Z) : int_min i <= wrap i z <= int_max i.
Proof.
  unfold wrap, int_min, int_max.
  pose proof (pow_bits_pos i) as Hp. pose proof (pow_bits_half i) as Hh.
  destruct (is_unsigned i).
  - pose proof (Z.mod_pos_bound z _ Hp). lia.
  - pose proof (Z.mod_pos_bound (z + 2 ^ (bits i - 1)) _ Hp). lia.
Qed.

Lemma wrap_small (i : IntType) (z : Z) :
  int_min i <= z <= int_max i -> wrap i z = z.
Proof.
  unfold wrap, int_min, int_max.
  pose proof (pow_bits_pos i) as Hp. pose proof (pow_bits_half i) as Hh.
  destruct (is_unsigned i); intros H.
  - apply Z.mod_small. lia.
  - rewrite Z.mod_small by lia. lia.
Qed.

Lemma wrap_idem (i : IntType) (z : Z) : wrap i (wrap i z) = wrap i z.
Proof. apply wrap_small, wrap_range. Qed.

Lemma wrap_add_l (i : IntType) (a b : Z) : wrap i (wrap i a + b) = wrap i (a + b).
Proof.
  unfold wrap. destruct (is_unsigned i).
  - apply Z.add_mod_idemp_l. pose proof (pow_bits_pos i). lia.
  - f_equal.
    replace ((a + 2 ^ (bits i - 1)) mod 2 ^ bits i - 2 ^ (bits i - 1) + b + 2 ^ (bits i - 1))
      with ((a + 2 ^ (bits i - 1)) mod 2 ^ bits i + b) by ring.
    rewrite Z.add_mod_idemp_l by (pose proof (pow_bits_pos i); lia).
    f_equal. ring.
Qed.

Lemma wrap_add_r (i : IntType) (a b : Z) : wrap i (a + wrap i b) = wrap i (a + b).
Proof. rewrite (Z.add_comm a), wrap_add_l. f_equal. ring. Qed.

Lemma wrap_zero (i : IntType) : wrap i 0 = 0.
Proof. destruct i; reflexivity. Qed.

Lemma wrap_one (i : IntType) : wrap i 1 = 1.
Proof. destruct i; reflexivity. Qed.

(** ** Conversions to floating point never produce NaN *)

Section RoundingSign.
Variables p e : Z.

Lemma shr_1_nonneg (mrs : shr_record) : 0 <= shr_m mrs -> 0 <= shr_m (shr_1 mrs).
Proof.
  destruct mrs as [m r s]. simpl.
  destruct m as [|q|q]; simpl; try lia; destruct q; simpl; lia.
Qed.

Lemma iter_shr_1_nonneg (n : positive) (mrs : shr_record) :
  0 <= shr_m mrs -> 0 <= shr_m (iter_pos shr_1 n mrs).
Proof.
  revert mrs. induction n as [n IH|n IH|]; intros mrs H; simpl.
  - apply IH, IH, shr_1_nonneg, H.
  - apply IH, IH, H.
  - apply shr_1_nonneg, H.
Qed.

Lemma shr_fexp_nonneg (m ex : Z) (l : location) :
  0 <= m -> 0 <= shr_m (fst (shr_fexp p e m ex l)).
Proof.
  intros H. unfold shr_fexp, shr.
  assert (H0 : 0 <= shr_m (shr_record_of_loc m l)).
  { destruct l as [|[]]; simpl; exact H. }
  destruct (fexp p e (Zdigits2 m + ex) - ex); simpl; auto using iter_shr_1_nonneg.
Qed.

Lemma round_nearest_even_nonneg (m : Z) (l : location) :
  0 <= m -> 0 <= round_nearest_even m l.
Proof.
  intros H. destruct l as [|[]]; simpl; try lia.
  destruct (Z.even m); lia.
Qed.

Lemma binary_round_aux_not_nan (sx : bool) (mx ex : Z) (lx : location) :
  0 <= mx -> SFis_nan (binary_round_aux p e sx mx ex lx) = false.
Proof.
  intros H. unfold binary_round_aux.
  pose proof (shr_fexp_nonneg mx ex lx H) as H1.
  destruct (shr_fexp p e mx ex lx) as [mrs' e']. simpl in H1.
  pose proof (shr_fexp_nonneg _ e' loc_Exact
                (round_nearest_even_nonneg _ (loc_of_shr_record mrs') H1)) as H2.
  destruct (shr_fexp p e (round_nearest_even (shr_m mrs') (loc_of_shr_record mrs')) e' loc_Exact)
    as [mrs'' e''].
  simpl in H2. destruct (shr_m mrs''); try lia; try reflexivity.
  destruct (e'' <=? e - p); reflexivity.
Qed.

Lemma binary_round_not_nan (sx : bool) (mx : positive) (ex : Z) :
  SFis_nan (binary_round p e sx mx ex) = false.
Proof.
  unfold binary_round.
  destruct (shl_align mx ex (fexp p e (Z.pos (digits2_pos mx) + ex))) as [mz ez].
  apply binary_round_aux_not_nan. lia.
Qed.

Lemma binary_normalize_not_nan (m ex : Z) (sz : bool) :
  SFis_nan (binary_normalize p e m ex sz) = false.
Proof.
  destruct m; simpl; auto using binary_round_not_nan.
Qed.
End RoundingSign.


Lemma elem_is_nan_int (i : IntType) (v : num i) : elem_is_nan i v = false.
Proof. apply binary_normalize_not_nan. Qed.

Lemma elem_is_nan_float (f : FloatType) (v : num f) : elem_is_nan f v = SFis_nan v.
Proof.
  unfold elem_is_nan. simpl. destruct (FloatType_eq_dec f tf_float32); [reflexivity|].
  destruct v; try reflexivity. apply binary_normalize_not_nan.
Qed.

Lemma elem_is_nan_of_Z (d : NumType) (z : Z) : elem_is_nan d (of_Z d z) = false.
Proof.
  destruct d as [i|f].
  - apply elem_is_nan_int.
  - rewrite elem_is_nan_float. apply binary_normalize_not_nan.
Qed.

Lemma nan_to_zero_int (i : IntType) (v : num i) : nan_to_zero i v = v.
Proof. unfold nan_to_zero. now rewrite elem_is_nan_int. Qed.

Lemma nan_to_zero_indicator (d : NumType) (v : num d) :
  nan_to_zero d (valid_indicator d v) = valid_indicator d v.
Proof.
  unfold nan_to_zero, valid_indicator, zero, one.
  destruct (elem_is_nan d v); now rewrite elem_is_nan_of_Z.
Qed.

(** ** Lists *)

Lemma shape_eqb_refl (s : list nat) : shape_eqb s s = true.
Proof. unfold shape_eqb. destruct (list_eq_dec Nat.eq_dec s s); congruence. Qed.

Lemma shape_eqb_eq (a b : list nat) : shape_eqb a b = true -> a = b.
Proof. unfold shape_eqb. destruct (list_eq_dec Nat.eq_dec a b); congruence. Qed.

Lemma map2_map_l {A A' B C} (f : A' -> B -> C) (g : A -> A') l m :
  map2 f (map g l) m = map2 (fun a b => f (g a) b) l m.
Proof.
  revert m. induction l as [|a l IH]; intros [|b m]; simpl; try reflexivity.
  now rewrite IH.
Qed.

Lemma map2_map_r {A B B' C} (f : A -> B' -> C) (g : B -> B') l m :
  map2 f l (map g m) = map2 (fun a b => f a (g b)) l m.
Proof.
  revert m. induction l as [|a l IH]; intros [|b m]; simpl; try reflexivity.
  now rewrite IH.
Qed.

Lemma map2_diag {A C} (f : A -> A -> C) l :
  map2 f l l = map (fun a => f a a) l.
Proof. induction l as [|a l IH]; simpl; [reflexivity | now rewrite IH]. Qed.

Lemma map2_length {A B C} (f : A -> B -> C) l m :
  List.length (map2 f l m) = Nat.min (List.length l) (List.length m).
Proof.
  revert m. induction l as [|a l IH]; intros [|b m]; simpl; try reflexivity.
  now rewrite IH.
Qed.

Lemma where_select {A} (c : A -> bool) (g : A -> A) (l : list A) :
  map2 (fun (ci : bool) ab => if ci then fst ab else snd ab)
       (map c l) (combine (map g l) l)
  = map (fun v => if c v then g v else v) l.
Proof. induction l as [|a l IH]; simpl; [reflexivity | now rewrite IH]. Qed.

Lemma where_select2 {A} (c : A -> bool) (g h : A -> A) (l : list A) :
  map2 (fun (ci : bool) ab => if ci then fst ab else snd ab)
       (map c l) (combine (map g l) (map h l))
  = map (fun v => if c v then g v else h v) l.
Proof. induction l as [|a l IH]; simpl; [reflexivity | now rewrite IH]. Qed.

(** ** Outcomes *)

Lemma bind_ok {E A B} (m : result E A) (k : A -> result E B) (b : B) :
  bind m k = Ok b -> exists a, m = Ok a /\ k a = Ok b.
Proof. destruct m as [a|e]; simpl; [eauto | discriminate]. Qed.

Lemma nd_where_ok {A} (c : ndarray bool) (a b r : ndarray A) :
  nd_where c a b = Ok r ->
  r = mk_nd (shape a)
        (map2 (fun (ci : bool) ab => if ci then fst ab else snd ab)
              (data c) (combine (data a) (data b))).
Proof.
  unfold nd_where. destruct (_ && _); [|discriminate].
  intros H. now injection H as <-.
Qed.

Lemma nd_broadcast2_ok {A B C} (f : A -> B -> C) (a : ndarray A) (b : ndarray B)
    (r : ndarray C) :
  nd_broadcast2 f a b = Ok r ->
  r = mk_nd (shape a) (map2 f (data a) (data b))
  \/ r = mk_nd (shape a) (map2 f (data a) (cycle (data b) (List.length (data a))))
  \/ r = mk_nd (shape b) (map2 f (cycle (data a) (List.length (data b))) (data b)).
Proof.
  unfold nd_broadcast2.
  destruct (shape_eqb _ _); [intros H; injection H as <-; auto|].
  destruct (is_suffix (shape b) _); [intros H; injection H as <-; auto|].
  destruct (is_suffix _ _); [intros H; injection H as <-; auto | discriminate].
Qed.

(** ** The dense Sum and Count Reducers, on arrays *)

Lemma reduce_batch_sum_dense {d : NumType} (x : Tensor d) (a : ndarray (num d)) rid :
  value x = Ok a ->
  value (reduce_batch_sum (Dense x) rid)
  = nd_reduce (add d) (zero d) (nd_map (nan_to_zero d) a) (axis_of rid).
Proof.
  intros Hx. unfold reduce_batch_sum, tf_reduce_sum, tf_where, tf_is_nan, tf_cast,
    tf_zeros_like, lift1. simpl. rewrite Hx. simpl.
  unfold nd_where. simpl. rewrite shape_eqb_refl. simpl.
  rewrite map_map, where_select.
  destruct rid; reflexivity.
Qed.

Lemma reduce_batch_count_dense {d : NumType} (x : Tensor d) (a : ndarray (num d)) rid :
  value x = Ok a ->
  value (reduce_batch_count (Dense x) rid)
  = nd_reduce (add d) (zero d) (nd_map (valid_indicator d) a) (axis_of rid).
Proof.
  intros Hx. unfold reduce_batch_count.
  erewrite reduce_batch_sum_dense.
  2:{ unfold tf_where, tf_is_nan, tf_cast, tf_zeros_like, tf_ones_like, lift1. simpl.
      rewrite Hx. simpl. unfold nd_where. simpl. rewrite shape_eqb_refl. simpl.
      rewrite map_map, where_select2. reflexivity. }
  unfold nd_map. simpl. rewrite map_map.
  f_equal. f_equal. apply map_ext. intros v.
  apply (nan_to_zero_indicator d v).
Qed.

(** ** Counting in floating point *)

Section RoundingNonneg.
Variables p e : Z.

Lemma binary_round_aux_nonneg (mx ex : Z) (lx : location) :
  0 <= mx -> SFnonneg (binary_round_aux p e false mx ex lx) = true.
Proof.
  intros H. unfold binary_round_aux.
  pose proof (shr_fexp_nonneg p e mx ex lx H) as H1.
  destruct (shr_fexp p e mx ex lx) as [mrs' e']. simpl in H1.
  pose proof (shr_fexp_nonneg p e _ e' loc_Exact
                (round_nearest_even_nonneg _ (loc_of_shr_record mrs') H1)) as H2.
  destruct (shr_fexp p e (round_nearest_even (shr_m mrs') (loc_of_shr_record mrs')) e' loc_Exact)
    as [mrs'' e''].
  simpl in H2. destruct (shr_m mrs''); try lia; try reflexivity.
  destruct (e'' <=? e - p); reflexivity.
Qed.

Lemma SFadd_nonneg (a b : spec_float) :
  SFnonneg a = true -> SFnonneg b = true -> SFnonneg (SFadd p e a b) = true.
Proof.
  destruct a as [[]|[]| |[] ma ea]; try discriminate;
    destruct b as [[]|[]| |[] mb eb]; try discriminate; intros _ _; try reflexivity.
  unfold SFadd, binary_normalize. simpl cond_Zopp.
  destruct (shl_align ma ea (Z.min ea eb)) as [m1 e1].
  destruct (shl_align mb eb (Z.min ea eb)) as [m2 e2]. simpl fst.
  change (Z.pos m1 + Z.pos m2) with (Z.pos (m1 + m2)).
  unfold binary_round.
  destruct (shl_align (m1 + m2) (Z.min ea eb)
              (fexp p e (Z.pos (digits2_pos (m1 + m2)) + Z.min ea eb))) as [mz ez].
  apply binary_round_aux_nonneg. lia.
Qed.

Lemma SFadd_zero_r (a : spec_float) :
  SFnonneg a = true -> SFadd p e a (S754_zero false) = a.
Proof. destruct a as [[]|[]| |[] ma ea]; try discriminate; reflexivity. Qed.
End RoundingNonneg.

Lemma zero_float (f : FloatType) : zero f = S754_zero false.
Proof. reflexivity. Qed.

Lemma one_float_nonneg (f : FloatType) : SFnonneg (one f) = true.
Proof. destruct f; reflexivity. Qed.

Lemma count_skips_nan (f : FloatType) (l : list spec_float) (acc : spec_float) :
  SFnonneg acc = true ->
  fold_left (add f) (map (valid_indicator f) l) acc
  = fold_left (add f)
      (repeat (one f) (List.length (filter (fun v => negb (SFis_nan v)) l))) acc.
Proof.
  revert acc. induction l as [|v l IH]; intros acc Hacc; [reflexivity|].
  cbn [map fold_left filter].
  replace (valid_indicator f v) with (if SFis_nan v then zero f else one f)
    by (unfold valid_indicator; now rewrite elem_is_nan_float).
  destruct (SFis_nan v); cbn [negb List.length repeat fold_left].
  - rewrite zero_float. unfold add at 2. rewrite SFadd_zero_r by exact Hacc. now apply IH.
  - apply IH. apply SFadd_nonneg; [exact Hacc | apply one_float_nonneg].
Qed.



(** ** Mean and variance of a sparse batch *)

(** C8: for every sparse batch whose rank (the length of its dense
    shape) is not 2, the Mean/Variance Reducer in per-column mode raises
    [NotImplementedError] while the graph is built; no triple is returned. *)
Theorem mean_var_sparse_rank_not_2_unsupported
    (f : FloatType) (sp : SparseTensor f) (dsh : ndarray Z) (rank : nat) :
  feed_ok (dense_shape sp) dsh ->
  shape dsh = [rank] ->
  rank <> 2%nat ->
  reduce_batch_count_mean_and_var (Sparse sp) false = Raise NotImplementedError.
Proof.
  intros [_ Hc] Hs Hr. unfold reduce_batch_count_mean_and_var, sparse_ndims.
  assert (Hc' : is_compatible_with (static_shape (dense_shape sp)) (known_shape [rank])
                = true) by (rewrite <- Hs; exact Hc).
  clear Hc; rename Hc' into Hc. unfold known_shape in Hc. simpl in Hc.
  destruct (static_shape (dense_shape sp)) as [[|[n|] [|? ?]]|]; try reflexivity.
  simpl in Hc. rewrite ?andb_true_r in Hc. apply Nat.eqb_eq in Hc. subst n.
  destruct rank as [|[|[|?]]]; try reflexivity. congruence.
Qed.

Lemma mean_var_sparse_rank_not_2_unsupported_witness :
  let sp := tf_SparseTensor (d := tf_float32)
              (constant_array (t := tf_int64) (mk_nd [1%nat; 3%nat] [0; 1; 2]))
              (vector (t := tf_float32) [of_Z tf_float32 7])
              (vector (t := tf_int64) [2; 3; 4]) in
  feed_ok (dense_shape sp) (mk_nd [3%nat] [2; 3; 4])
  /\ reduce_batch_count_mean_and_var (Sparse sp) false = Raise NotImplementedError.
Proof.
  intros sp. split.
  - split; reflexivity.
  - apply (mean_var_sparse_rank_not_2_unsupported tf_float32 sp
             (mk_nd [3%nat] [2; 3; 4]) 3%nat).
    + split; reflexivity.
    + reflexivity.
    + discriminate.
Defined.

(** ** Element type of the Min/Max Reducer's result *)

(** C10: for every batch of type [tf.uint8] or [tf.uint16], dense or
    sparse, in either mode, the Min/Max Reducer returns a pair whose element
    type is [tf.int32]: the batch is cast before the reduction and the
    results are not cast back (for the [tf.uint8] batch [5] the first field
    is [-5], which only the wider type holds). *)
Theorem minmax_of_small_unsigned_is_int32
    (d : NumType) (x : TensorLike d) (rid : bool) :
  d = tf_uint8 \/ d = tf_uint16 ->
  (exists minus_min max_ : Tensor tf_int32,
      reduce_batch_minus_min_and_max x rid
      = Ok (existT _ (IntT tf_int32) (minus_min, max_)))
  /\ (exists minus_min max_ : Tensor tf_int32,
        reduce_batch_minus_min_and_max (Dense (vector (t := tf_uint8) [5])) true
        = Ok (existT _ (IntT tf_int32) (minus_min, max_))
        /\ value minus_min = Ok (nd_scalar (-5))
        /\ value max_ = Ok (nd_scalar 5)).
Proof.
  intros Hd. split.
  - destruct Hd; subst d; destruct rid; destruct x as [x|x];
      eexists _, _; reflexivity.
  - eexists _, _. split; [reflexivity|]. split; reflexivity.
Qed.

Lemma minmax_of_small_unsigned_is_int32_witness :
  exists minus_min max_ : Tensor tf_int32,
    reduce_batch_minus_min_and_max (Dense (vector (t := tf_uint16) [3; 65535])) false
    = Ok (existT _ (IntT tf_int32) (minus_min, max_)).
Proof.
  exact (proj1 (minmax_of_small_unsigned_is_int32 tf_uint16
                  (Dense (vector (t := tf_uint16) [3; 65535])) false
                  (or_intror eq_refl))).
Defined.

(** ** Infinities are remapped to NaN *)

Lemma inf_to_nan_float (f : FloatType) (t : Tensor f) :
  _inf_to_nan t f = Ok (inf_remapped t).
Proof. destruct f; reflexivity. Qed.

Lemma SFadd_nan_r (p e : Z) (v : spec_float) : SFadd p e v S754_nan = S754_nan.
Proof. destruct v as [[]|[]| |[] m ex]; reflexivity. Qed.

Lemma SFadd_nan_l (p e : Z) (v : spec_float) : SFadd p e S754_nan v = S754_nan.
Proof. reflexivity. Qed.

Lemma map2_add_nan_r (f : FloatType) (l m : list spec_float) :
  Forall (fun v => v = S754_nan) m ->
  Forall (fun v => v = S754_nan) (map2 (add f) l m).
Proof.
  intros Hm. revert l. induction Hm as [|b m Hb Hm IH]; intros [|a l]; simpl;
    constructor; auto.
  subst b. apply SFadd_nan_r.
Qed.

Lemma map2_add_nan_l (f : FloatType) (l m : list spec_float) :
  Forall (fun v => v = S754_nan) l ->
  Forall (fun v => v = S754_nan) (map2 (add f) l m).
Proof.
  intros Hl. revert m. induction Hl as [|a l Ha Hl IH]; intros [|b m]; simpl;
    constructor; auto.
  subst a. reflexivity.
Qed.

Lemma cycle_aux_Forall {A} (P : A -> Prop) (l cur : list A) (n : nat) :
  Forall P l -> Forall P cur -> Forall P (cycle_aux l cur n).
Proof.
  intros Hl. revert cur. induction n as [|n IH]; intros cur Hc; simpl; [constructor|].
  destruct cur as [|a cur'].
  - destruct l as [|a l']; [constructor|].
    inversion Hl; subst. constructor; auto.
  - inversion Hc; subst. constructor; auto.
Qed.

Lemma cycle_Forall {A} (P : A -> Prop) (l : list A) (n : nat) :
  Forall P l -> Forall P (cycle l n).
Proof. intros H. now apply cycle_aux_Forall. Qed.

Lemma select_inf_or_nan (l s : list spec_float) :
  Forall (fun v => v = S754_nan) s ->
  Forall (fun v => SFis_inf v = false)
    (map2 (fun (ci : bool) ab => if ci then fst ab else snd ab)
          (map SFis_inf l) (combine s l)).
Proof.
  intros Hs. revert l. induction Hs as [|b s Hb Hs IH]; intros [|a l]; simpl;
    try constructor; auto.
  subst b. destruct (SFis_inf a) eqn:E; simpl; [reflexivity | exact E].
Qed.

Lemma inf_remapped_no_inf (f : FloatType) (t : Tensor f) (r : ndarray spec_float) :
  value (inf_remapped t) = Ok r ->
  Forall (fun v => SFis_inf v = false) (data r).
Proof.
  unfold inf_remapped, tf_where. cbn [value]. intros H.
  apply bind_ok in H as (cv & Hcv & H). apply bind_ok in H as (s & Hs & H).
  apply bind_ok in H as (b & Hb & H). apply nd_where_ok in H. subst r.
  unfold tf_is_inf, lift1 in Hcv. cbn [value] in Hcv. rewrite Hb in Hcv.
  injection Hcv as <-.
  unfold tf_add, lift2 in Hs. cbn [value] in Hs. rewrite Hb in Hs.
  cbn [bind nan_constant constant_array placeholder value] in Hs.
  apply nd_broadcast2_ok in Hs.
  assert (Hnan : Forall (fun v => v = S754_nan) [S754_nan]) by (repeat constructor).
  cbn [data nd_map].
  destruct Hs as [-> | [-> | ->]]; cbn [data]; apply select_inf_or_nan.
  - now apply map2_add_nan_r.
  - apply map2_add_nan_r. now apply cycle_Forall.
  - now apply map2_add_nan_r.
Qed.

Lemma minmax_float_shape (f : FloatType) (x : TensorLike f) (rid : bool) (r : MinMax) :
  reduce_batch_minus_min_and_max x rid = Ok r ->
  exists t1 t2 : Tensor f,
    r = existT _ (FloatT f) (inf_remapped t1, inf_remapped t2).
Proof.
  unfold reduce_batch_minus_min_and_max. simpl.
  match goal with
  | |- bind ?m _ = _ -> _ => destruct m as [[t1 t2]|err]; simpl; [|discriminate]
  end.
  rewrite !inf_to_nan_float. simpl. intros H. injection H as <-.
  now exists t1, t2.
Qed.



(** ** Maximum reductions over integers *)

Lemma max_acc_int (i : IntType) (a b : Z) : max_acc i a b = Z.max a b.
Proof. unfold max_acc, ltb. destruct (Z.ltb_spec a b); lia. Qed.

Lemma fold_max_spec (i : IntType) (l : list Z) (acc : Z) :
  let r := fold_left (max_acc i) l acc in
  acc <= r /\ Forall (fun v => v <= r) l /\ (r = acc \/ In r l).
Proof.
  revert acc. induction l as [|v l IH]; intros acc; cbn [fold_left In].
  - split; [lia|]. split; [constructor | now left].
  - destruct (IH (max_acc i acc v)) as (H1 & H2 & H3).
    rewrite max_acc_int in *. split; [lia|]. split.
    + constructor; [lia | exact H2].
    + destruct H3 as [H3|H3]; [|right; right; exact H3].
      destruct (Z.max_spec acc v) as [[_ E]|[_ E]].
      * right; left. rewrite H3. now symmetry.
      * left. now rewrite H3.
Qed.

Lemma int32_bounds : int_min tf_int32 = - 2147483648 /\ int_max tf_int32 = 2147483647.
Proof. split; reflexivity. Qed.

Lemma small_unsigned_max (i : IntType) :
  i = tf_uint8 \/ i = tf_uint16 -> int_max i <= 65535.
Proof. intros [->| ->]; vm_compute; discriminate. Qed.

Lemma cast_small_unsigned (i : IntType) (v : Z) :
  i = tf_uint8 \/ i = tf_uint16 ->
  0 <= v <= int_max i ->
  cast i tf_int32 v = v /\ sub tf_int32 (zero tf_int32) (cast i tf_int32 v) = - v.
Proof.
  intros Hi Hv. unfold cast, sub, zero, of_Z.
  pose proof (small_unsigned_max i Hi) as Hm. pose proof int32_bounds as [Hlo Hhi].
  rewrite (wrap_small tf_int32 v) by lia.
  split; [reflexivity|].
  rewrite wrap_zero. apply wrap_small. lia.
Qed.

(** C6: for every non-empty batch of type [tf.uint8] or [tf.uint16]
    whose elements are in the range of the type, the collapsed Min/Max
    Reducer returns, as [tf.int32] scalars, the exact negation of the
    smallest element and the largest element: the negation is taken after
    the cast and does not wrap.  A [tf.uint8] batch containing 0 and 255
    therefore yields negated-min 0 and max 255. *)
Theorem minmax_small_unsigned_no_overflow
    (i : IntType) (x : TensorLike i) (a : ndarray Z) :
  i = tf_uint8 \/ i = tf_uint16 ->
  value (batch_values x) = Ok a ->
  data a <> [] ->
  Forall (fun v => 0 <= v <= int_max i) (data a) ->
  exists (minus_min max_ : Tensor tf_int32) (lo hi : Z),
    reduce_batch_minus_min_and_max x true
    = Ok (existT _ (IntT tf_int32) (minus_min, max_))
    /\ value minus_min = Ok (nd_scalar (- lo))
    /\ value max_ = Ok (nd_scalar hi)
    /\ In lo (data a) /\ In hi (data a)
    /\ Forall (fun v => lo <= v <= hi) (data a)
    /\ (i = tf_uint8 -> In 0 (data a) -> In 255 (data a) -> - lo = 0 /\ hi = 255).
Proof.
  intros Hi Hx Hne Hrange.
  set (l := data a) in *.
  assert (Hcast : map (cast i tf_int32) l = l).
  { rewrite <- (map_id l) at 2. apply map_ext_in. intros v Hv.
    rewrite Forall_forall in Hrange.
    apply (cast_small_unsigned i v Hi (Hrange v Hv)). }
  assert (Hneg : map (fun v => sub tf_int32 (zero tf_int32) (cast i tf_int32 v)) l
                 = map Z.opp l).
  { apply map_ext_in. intros v Hv. rewrite Forall_forall in Hrange.
    apply (cast_small_unsigned i v Hi (Hrange v Hv)). }
  pose proof (fold_max_spec tf_int32 l (lowest tf_int32)) as (_ & Hhi & Hhi_in).
  pose proof (fold_max_spec tf_int32 (map Z.opp l) (lowest tf_int32)) as (_ & Hlo & Hlo_in).
  set (hi := fold_left (max_acc tf_int32) l (lowest tf_int32)) in *.
  set (nlo := fold_left (max_acc tf_int32) (map Z.opp l) (lowest tf_int32)) in *.
  assert (Hbound : Forall (fun v => 0 <= v <= 65535) l).
  { eapply Forall_impl; [|exact Hrange]. intros v Hv.
    pose proof (small_unsigned_max i Hi). simpl in Hv. lia. }
  assert (Hbot : lowest tf_int32 = - 2147483648) by reflexivity.
  assert (Hhi_in' : In hi l).
  { destruct Hhi_in as [E|H]; [|exact H]. exfalso.
    destruct l as [|v l']; [now apply Hne|].
    apply Forall_inv in Hhi. apply Forall_inv in Hbound. lia. }
  assert (Hlo_in' : In nlo (map Z.opp l)).
  { destruct Hlo_in as [E|H]; [|exact H]. exfalso.
    destruct l as [|v l']; [now apply Hne|].
    apply Forall_inv in Hlo. apply Forall_inv in Hbound. lia. }
  apply in_map_iff in Hlo_in' as (lo & Hlo_eq & Hlo_in').
  assert (Hcomp : exists minus_min max_ : Tensor tf_int32,
             reduce_batch_minus_min_and_max x true
             = Ok (existT _ (IntT tf_int32) (minus_min, max_))
             /\ value minus_min = Ok (nd_scalar nlo)
             /\ value max_ = Ok (nd_scalar hi)).
  { destruct Hi; subst i; destruct x as [x|x]; simpl in Hx;
      (eexists _, _; split; [reflexivity|]);
      unfold tf_control_dependencies, tf_identity, tf_assert_equal, tf_shape, tf_reduce_max,
        tf_subtract, tf_zeros_like, tf_cast, lift1, lift2; simpl; rewrite Hx; simpl;
      unfold nd_broadcast2; simpl; rewrite shape_eqb_refl; simpl;
      rewrite ?map_map, ?map2_map_l, ?map2_map_r, ?map2_diag;
      fold l; (split; [unfold nlo; rewrite <- Hneg | unfold hi; rewrite <- Hcast at 2]);
      reflexivity. }
  destruct Hcomp as (minus_min & max_ & Hc & Hm & HM).
  clearbody nlo hi. change (num tf_int32) with Z in *.
  exists minus_min, max_, lo, hi. rewrite Hlo_eq.
  split; [exact Hc|]. split; [exact Hm|]. split; [exact HM|].
  split; [exact Hlo_in'|]. split; [exact Hhi_in'|]. split.
  - rewrite Forall_forall in *. intros v Hv. split; [|now apply Hhi].
    specialize (Hlo (- v) (in_map Z.opp l v Hv)). lia.
  - intros Hi8 H0 H255. rewrite Forall_forall in *.
    pose proof (Hhi 255 H255). pose proof (Hlo (- 0) (in_map Z.opp l 0 H0)).
    pose proof (Hrange hi Hhi_in') as Hh. pose proof (Hrange lo Hlo_in') as Hl.
    rewrite Hi8 in Hh, Hl. change (int_max tf_uint8) with 255 in Hh, Hl. lia.
Qed.

Lemma minmax_small_unsigned_no_overflow_witness :
  exists minus_min max_ : Tensor tf_int32,
    reduce_batch_minus_min_and_max (Dense (vector (t := tf_uint8) [0; 255; 7])) true
    = Ok (existT _ (IntT tf_int32) (minus_min, max_))
    /\ value minus_min = Ok (nd_scalar 0)
    /\ value max_ = Ok (nd_scalar 255).
Proof.
  destruct (minmax_small_unsigned_no_overflow tf_uint8
              (Dense (vector (t := tf_uint8) [0; 255; 7])) (mk_nd [3%nat] [0; 255; 7]))
    as (m & M & lo & hi & Hc & Hm & HM & _ & _ & _ & H).
  - now left.
  - reflexivity.
  - discriminate.
  - change (int_max tf_uint8) with 255. repeat constructor; lia.
  - destruct (H eq_refl) as [E1 E2]; [simpl; auto | simpl; auto |].
    exists m, M. rewrite E1 in Hm. rewrite E2 in HM. auto.
Defined.

(** ** Unique values and segment sums *)

Section Unique.
Context {A : Type} (eqb : A -> A -> bool).

Lemma index_of_lt (v : A) (l : list A) (j : nat) :
  index_of eqb v l = Some j -> (j < List.length l)%nat.
Proof.
  revert j. induction l as [|a l IH]; intros j; simpl; [discriminate|].
  destruct (eqb a v).
  - intros H; injection H as <-. lia.
  - destruct (index_of eqb v l) as [k|]; [|discriminate].
    intros H; injection H as <-. specialize (IH k eq_refl). lia.
Qed.

Lemma index_of_nth (v : A) (l : list A) (j : nat) :
  index_of eqb v l = Some j ->
  exists a, nth_error l j = Some a /\ eqb a v = true.
Proof.
  revert j. induction l as [|a l IH]; intros j; simpl; [discriminate|].
  destruct (eqb a v) eqn:E.
  - intros H; injection H as <-. now exists a.
  - destruct (index_of eqb v l) as [k|]; [|discriminate].
    intros H; injection H as <-. exact (IH k eq_refl).
Qed.

Lemma index_of_none (v : A) (l : list A) :
  index_of eqb v l = None -> forall a, In a l -> eqb a v = false.
Proof.
  induction l as [|a l IH]; simpl; [contradiction|].
  destruct (eqb a v) eqn:E; [discriminate|].
  destruct (index_of eqb v l); [discriminate|].
  intros _ b [<-|Hb]; auto.
Qed.

(** Segment ids are positions in the list of unique values. *)
Lemma unique_fold_bounds (l : list A) (y0 : list A) (i0 : list nat) :
  Forall (fun j => (j < List.length y0)%nat) i0 ->
  Forall (fun j => (j < List.length (fst (fold_left (unique_step eqb) l (y0, i0))))%nat)
         (snd (fold_left (unique_step eqb) l (y0, i0)))
  /\ List.length (snd (fold_left (unique_step eqb) l (y0, i0)))
     = (List.length i0 + List.length l)%nat.
Proof.
  revert y0 i0. induction l as [|v l IH]; intros y0 i0 H0; simpl.
  - split; [exact H0 | lia].
  - destruct (index_of eqb v y0) as [j|] eqn:E.
    + destruct (IH y0 (i0 ++ [j])) as [H1 H2].
      * apply Forall_app. split; [exact H0|].
        constructor; [|constructor]. exact (index_of_lt _ _ _ E).
      * split; [exact H1|]. rewrite H2, length_app. simpl. lia.
    + destruct (IH (y0 ++ [v]) (i0 ++ [List.length y0])) as [H1 H2].
      * apply Forall_app. split.
        -- eapply Forall_impl; [|exact H0]. intros j Hj. cbv beta in Hj.
           rewrite length_app. simpl. lia.
        -- constructor; [|constructor]. rewrite length_app. simpl. lia.
      * split; [exact H1|]. rewrite H2, length_app. simpl. lia.
Qed.

Lemma unique_idx_bounds (l : list A) :
  Forall (fun j => (j < List.length (fst (unique_idx eqb l)))%nat) (snd (unique_idx eqb l))
  /\ List.length (snd (unique_idx eqb l)) = List.length l.
Proof. apply (unique_fold_bounds l [] []). constructor. Qed.

(** With a lawful comparison the unique values are exactly the distinct
    elements, and each segment id points at the element's own value. *)
Hypothesis eqb_lawful : lawful eqb.

Lemma unique_fold_inv (l seen : list A) (st : list A * list nat) :
  unique_inv st seen ->
  unique_inv (fold_left (unique_step eqb) l st) (seen ++ l).
Proof.
  revert seen st. induction l as [|v l IH]; intros seen [y0 i0] Hinv.
  - now rewrite app_nil_r.
  - replace (seen ++ v :: l) with ((seen ++ [v]) ++ l)
      by (now rewrite <- app_assoc).
    apply IH. destruct Hinv as (Hnd & Hin & Hix). simpl in *.
    destruct (index_of eqb v y0) as [j|] eqn:E; simpl.
    + destruct (index_of_nth _ _ _ E) as (a & Ha & Hav).
      apply eqb_lawful in Hav. subst a.
      split; [exact Hnd|]. split.
      * intros u. rewrite in_app_iff, <- Hin. simpl. split; [now left|].
        intros [H|[<-|[]]]; [exact H|]. eapply nth_error_In; eauto.
      * apply Forall2_app; [exact Hix|]. now repeat constructor.
    + assert (Hnot : ~ In v y0).
      { intros Hv. pose proof (index_of_none _ _ E v Hv) as Hf.
        assert (eqb v v = true) by (now apply eqb_lawful). congruence. }
      split; [|split]; cbn [fst snd].
      * rewrite <- (rev_involutive (y0 ++ [v])). apply NoDup_rev.
        rewrite rev_app_distr. simpl. constructor.
        -- now rewrite <- in_rev.
        -- now apply NoDup_rev.
      * intros u. rewrite !in_app_iff, <- Hin. tauto.
      * apply Forall2_app.
        -- eapply Forall2_impl; [|exact Hix]. intros j x Hj.
           rewrite nth_error_app1; [exact Hj|].
           apply nth_error_Some. congruence.
        -- repeat constructor.
           rewrite nth_error_app2 by lia. now rewrite Nat.sub_diag.
Qed.

Lemma unique_idx_spec (l : list A) :
  unique_inv (unique_idx eqb l) l.
Proof.
  apply (unique_fold_inv l [] ([], [])).
  split; [constructor|]. split; [tauto | constructor].
Qed.

(** The elements sent to segment [j] are the occurrences of the [j]-th
    unique value. *)
Lemma segment_weights_of {W} (l : list A) (ws : list W) (j : nat) (v : A) :
  nth_error (fst (unique_idx eqb l)) j = Some v ->
  segment j (snd (unique_idx eqb l)) ws = weights_of eqb v l ws.
Proof.
  destruct (unique_idx_spec l) as (Hnd & _ & Hix).
  intros Hj. unfold segment, weights_of.
  revert ws. induction Hix as [|i x ix xs Hi Hix IH]; intros ws; [reflexivity|].
  destruct ws as [|w ws]; [reflexivity|]. simpl.
  assert (E : Nat.eqb i j = eqb x v).
  { destruct (eqb x v) eqn:Ex.
    - apply eqb_lawful in Ex. subst x. apply Nat.eqb_eq.
      apply (proj1 (NoDup_nth_error _) Hnd); [|congruence].
      apply nth_error_Some. congruence.
    - apply Nat.eqb_neq. intros ->.
      assert (x = v) by congruence. subst x.
      assert (eqb v v = true) by (now apply eqb_lawful). congruence. }
  rewrite E. destruct (eqb x v); simpl; now rewrite IH.
Qed.
End Unique.

Section SegmentSum.
Context {W : Type} (add : W -> W -> W).

Lemma update_at_length (f : W -> W) (j : nat) (out : list W) :
  List.length (update_at f j out) = List.length out.
Proof.
  revert j. induction out as [|a out IH]; intros [|j]; simpl; auto.
Qed.

Lemma nth_error_update_at (f : W -> W) (j k : nat) (out : list W) :
  nth_error (update_at f j out) k
  = if Nat.eqb j k then option_map f (nth_error out k) else nth_error out k.
Proof.
  revert j k. induction out as [|a out IH]; intros [|j] [|k]; simpl; auto;
    now destruct (Nat.eqb _ _).
Qed.

Lemma segment_accumulate_spec (ix : list nat) (vals out : list W) :
  Forall (fun j => (j < List.length out)%nat) ix ->
  exists out',
    segment_accumulate add vals (map Z.of_nat ix) out = Some out'
    /\ List.length out' = List.length out
    /\ forall j, nth_error out' j
                 = option_map (fun o => fold_left add (segment j ix vals) o)
                              (nth_error out j).
Proof.
  revert vals out. induction ix as [|j0 ix IH]; intros vals out Hix.
  - exists out. destruct vals; simpl; repeat split; intros j;
      now destruct (nth_error out j).
  - destruct vals as [|v vals].
    + exists out. simpl. repeat split. intros j. now destruct (nth_error out j).
    + inversion Hix as [|? ? Hj0 Hix']; subst. cbn [map segment_accumulate].
      destruct (Z.ltb_spec (Z.of_nat j0) 0) as [Hneg|_]; [lia|].
      rewrite Nat2Z.id.
      destruct (Nat.ltb_spec j0 (List.length out)) as [_|Hge]; [|lia].
      destruct (IH vals (update_at (fun a => add a v) j0 out)) as (out' & E & Hl & Hn).
      { now rewrite update_at_length. }
      exists out'. split; [exact E|]. split; [now rewrite Hl, update_at_length|].
      intros j. rewrite Hn, nth_error_update_at. unfold segment. simpl.
      destruct (Nat.eqb j0 j); simpl; now destruct (nth_error out j).
Qed.

Lemma segment_accumulate_repeat (zero : W) (ix : list nat) (vals : list W) (n : nat) :
  Forall (fun j => (j < n)%nat) ix ->
  segment_accumulate add vals (map Z.of_nat ix) (repeat zero n)
  = Some (segment_sums add zero ix vals n).
Proof.
  intros Hix.
  destruct (segment_accumulate_spec ix vals (repeat zero n)) as (out' & E & Hl & Hn).
  { now rewrite repeat_length. }
  rewrite E. f_equal. apply nth_error_ext. intros j. rewrite Hn.
  unfold segment_sums. rewrite nth_error_map, nth_error_seq.
  destruct (Nat.ltb_spec j n) as [Hlt|Hge].
  - now rewrite nth_error_repeat.
  - replace (nth_error (repeat zero n) j) with (@None W); [reflexivity|].
    symmetry. apply nth_error_None. now rewrite repeat_length.
Qed.
End SegmentSum.

(** ** The vocabulary pipeline, on arrays *)

Lemma nd_reshape_flat {A} (a : ndarray A) :
  nd_reshape a [-1] = Ok (mk_nd [List.length (data a)] (data a)).
Proof.
  unfold nd_reshape. cbn -[Nat.div Nat.mul Nat.eqb].
  rewrite Nat.div_1_r, Nat.mul_1_r, Nat.eqb_refl. reflexivity.
Qed.

Lemma dims_equal (s : list nat) :
  forallb (fun b : bool => b) (map2 Z.eqb (map Z.of_nat s) (map Z.of_nat s)) = true.
Proof.
  induction s as [|n s IH]; simpl; [reflexivity|].
  now rewrite Z.eqb_refl.
Qed.

Lemma assert_same_shape_ok {s t} (x : Tensor s) (y : Tensor t) :
  is_compatible_with (static_shape x) (static_shape y) = true ->
  exists x' : Tensor s,
    assert_same_shape x y = Ok x'
    /\ static_shape x' = static_shape x
    /\ forall (a : ndarray (carrier s)) (b : ndarray (carrier t)),
         value x = Ok a -> value y = Ok b -> shape a = shape b ->
         value x' = Ok a.
Proof.
  intros Hc. unfold assert_same_shape, assert_is_compatible_with.
  rewrite Hc. simpl. eexists. split; [reflexivity|]. split; [reflexivity|].
  intros a b Hx Hy Hs.
  unfold tf_assert_equal, tf_shape, lift1. simpl. rewrite Hx, Hy. simpl.
  rewrite Hs, shape_eqb_refl, dims_equal. simpl. exact Hx.
Qed.

Lemma unique_with_counts_values {t} {dw : NumType} (x : Tensor t) (w : Tensor dw)
    (xs : list (carrier t)) (ws : list (num dw)) :
  value x = Ok (mk_nd [List.length xs] xs) ->
  value w = Ok (mk_nd [List.length ws] ws) ->
  List.length xs = List.length ws ->
  let u := tf_unique_with_counts x in
  let ys := fst (unique_idx (el_eqb t) xs) in
  let ix := snd (unique_idx (el_eqb t) xs) in
  value (y u) = Ok (mk_nd [List.length ys] ys)
  /\ value (count u)
     = Ok (mk_nd [List.length ys]
             (map (fun j => wrap tf_int64 (Z.of_nat (count_occ_nat j ix)))
                  (seq 0 (List.length ys))))
  /\ value (tf_unsorted_segment_sum w (idx u) (tf_size (y u)))
     = Ok (mk_nd [List.length ys]
             (segment_sums (add dw) (zero dw) ix ws (List.length ys))).
Proof.
  intros Hx Hw Hlen u ys ix.
  destruct (unique_idx_bounds (el_eqb t) xs) as [Hb Hl]. fold ys ix in Hb, Hl.
  unfold u, tf_unique_with_counts, tf_unsorted_segment_sum, tf_size, lift1.
  cbn [y idx count value]. rewrite Hx, Hw. cbn [bind unique_arrays shape data].
  unfold ys, ix in *. destruct (unique_idx (el_eqb t) xs) as [ys0 ix0].
  cbn [fst snd bind] in *.
  split; [reflexivity|]. split; [reflexivity|].
  unfold nd_unsorted_segment_sum. cbn [data shape nd_scalar].
  rewrite Hl, Hlen, shape_eqb_refl, Nat2Z.id.
  now rewrite (segment_accumulate_repeat (add dw) (zero dw) ix0 ws _ Hb).
Qed.

Lemma flat_value {t} (x : Tensor t) (a : ndarray (carrier t)) :
  value x = Ok a ->
  value (tf_reshape x [-1]) = Ok (mk_nd [List.length (data a)] (data a)).
Proof.
  intros Hx. unfold tf_reshape, lift1. cbn [value]. rewrite Hx.
  cbn [bind]. apply nd_reshape_flat.
Qed.

Lemma exact_key_lawful (t : DType) : exact_key t = true -> lawful (el_eqb t).
Proof.
  destruct t as [[i|f]| |]; try discriminate; intros _ a b; simpl.
  - apply Z.eqb_eq.
  - apply Bool.eqb_true_iff.
  - apply String.eqb_eq.
Qed.

(** ** Label assertions *)

Lemma min_acc_int (i : IntType) (a b : Z) : min_acc i a b = Z.min a b.
Proof. unfold min_acc, ltb. destruct (Z.ltb_spec b a); lia. Qed.

Lemma fold_min_spec (i : IntType) (l : list Z) (acc : Z) :
  let r := fold_left (min_acc i) l acc in
  r <= acc /\ Forall (fun v => r <= v) l /\ (r = acc \/ In r l).
Proof.
  revert acc. induction l as [|v l IH]; intros acc; cbn [fold_left In].
  - split; [lia|]. split; [constructor | now left].
  - destruct (IH (min_acc i acc v)) as (H1 & H2 & H3).
    rewrite min_acc_int in *. split; [lia|]. split.
    + constructor; [lia | exact H2].
    + destruct H3 as [H3|H3]; [|right; right; exact H3].
      destruct (Z.min_spec acc v) as [[_ E]|[_ E]].
      * left. now rewrite H3.
      * right; left. rewrite H3. now symmetry.
Qed.

Lemma label_asserts (labels : Tensor tf_int64) (ls : list Z) :
  value labels = Ok (mk_nd [List.length ls] ls) ->
  let less_assert :=
    tf_Assert (tf_less_equal (tf_reduce_max labels None) (tf_constant 1 tf_int64))
              [existT _ (DT tf_int64) labels] in
  let greater_assert :=
    tf_Assert (tf_greater_equal (tf_reduce_min labels None) (tf_constant 0 tf_int64))
              [existT _ (DT tf_int64) labels] in
  (Forall (fun v => v = 0 \/ v = 1) ls ->
   run_ops [less_assert; greater_assert] = Ok tt)
  /\ (Exists (fun v => v <> 0 /\ v <> 1) ls ->
      run_ops [less_assert; greater_assert] = Raise (label_failure ls)).
Proof.
  intros Hl less_assert greater_assert.
  pose proof (fold_max_spec tf_int64 ls (lowest tf_int64)) as (_ & Hmax & Hmax_in).
  pose proof (fold_min_spec tf_int64 ls (highest tf_int64)) as (_ & Hmin & Hmin_in).
  set (mx := fold_left (max_acc tf_int64) ls (lowest tf_int64)) in *.
  set (mn := fold_left (min_acc tf_int64) ls (highest tf_int64)) in *.
  assert (Hless : less_assert
                  = if mx <=? 1 then Ok tt else Raise (label_failure ls)).
  { unfold less_assert, tf_Assert, tf_less_equal, tf_reduce_max, lift1, lift2.
    cbn [value]. rewrite Hl. cbn -[lowest]. rewrite Hl, andb_true_r.
    unfold mx. now destruct (_ <=? 1). }
  assert (Hgreater : greater_assert
                     = if 0 <=? mn then Ok tt else Raise (label_failure ls)).
  { unfold greater_assert, tf_Assert, tf_greater_equal, tf_reduce_min, lift1, lift2.
    cbn [value]. rewrite Hl. cbn -[highest]. rewrite Hl, andb_true_r.
    unfold mn. now destruct (0 <=? _). }
  cbn [run_ops]. rewrite Hless, Hgreater.
  assert (Hlo : lowest tf_int64 <= 0) by (vm_compute; discriminate).
  assert (Hhi : 1 <= highest tf_int64) by (vm_compute; discriminate).
  clearbody mx mn less_assert greater_assert. change (num tf_int64) with Z in *.
  rewrite Forall_forall in Hmax, Hmin.
  split.
  - intros Hok. rewrite Forall_forall in Hok.
    assert (Hmx : mx <= 1).
    { destruct Hmax_in as [->|Hin]; [lia|]. specialize (Hok mx Hin). lia. }
    assert (Hmn : 0 <= mn).
    { destruct Hmin_in as [->|Hin]; [lia|]. specialize (Hok mn Hin). lia. }
    destruct (Z.leb_spec mx 1); [|lia]. cbn.
    destruct (Z.leb_spec 0 mn); [reflexivity | lia].
  - intros Hbad. apply Exists_exists in Hbad as (v & Hv & Hbad).
    specialize (Hmax v Hv). specialize (Hmin v Hv). cbv beta in Hmax, Hmin.
    destruct (Z.leb_spec mx 1); [|reflexivity]. cbn.
    destruct (Z.leb_spec 0 mn); [lia | reflexivity].
Qed.

(** ** The two weighted orderings reduce to [_reduce_vocabulary_inputs] *)

Lemma weighted_frequency_pipeline {t} {dw : NumType} (x : Tensor t) (w : Tensor dw)
    (labels : option AnyTensor) :
  is_compatible_with (static_shape x) (static_shape w) = true ->
  exists x2 : Tensor t,
    reduce_batch_vocabulary x WEIGHTED_FREQUENCY (Some (existT _ dw w)) labels
    = _reduce_vocabulary_inputs x2 (tf_reshape w [-1]) labels
    /\ forall (ax : ndarray (carrier t)) (aw : ndarray (num dw)),
         value x = Ok ax -> value w = Ok aw -> shape ax = shape aw ->
         value x2 = Ok (mk_nd [List.length (data ax)] (data ax)).
Proof.
  intros Hc.
  destruct (assert_same_shape_ok x w Hc) as (x1 & E1 & _ & Hx1).
  exists (tf_reshape x1 [-1]). split.
  - unfold reduce_batch_vocabulary. cbn [VocabOrderingType_eqb bind getattr_of].
    now rewrite E1.
  - intros ax aw Hx Hw Hs. apply flat_value. now apply (Hx1 ax aw).
Qed.

Lemma mutual_information_pipeline {t} (x : Tensor t) (weights : option NumTensor)
    (labels : Tensor tf_int64) :
  is_compatible_with (static_shape x) (static_shape labels) = true ->
  is_compatible_with (static_shape x)
    (static_shape (projT2 (default_weights labels weights))) = true ->
  exists x2 : Tensor t,
    reduce_batch_vocabulary x WEIGHTED_MUTUAL_INFORMATION weights
      (Some (existT _ (DT tf_int64) labels))
    = _reduce_vocabulary_inputs x2
        (tf_reshape (projT2 (default_weights labels weights)) [-1])
        (Some (existT _ (DT tf_int64) (tf_reshape labels [-1])))
    /\ forall (ax : ndarray (carrier t)) (al : ndarray Z)
              (aw : ndarray (num (projT1 (default_weights labels weights)))),
         value x = Ok ax -> value labels = Ok al -> shape ax = shape al ->
         value (projT2 (default_weights labels weights)) = Ok aw ->
         shape ax = shape aw ->
         value x2 = Ok (mk_nd [List.length (data ax)] (data ax)).
Proof.
  intros Hc Hcw.
  destruct (assert_same_shape_ok x labels Hc) as (x1 & E1 & Hss & Hx1).
  rewrite <- Hss in Hcw.
  destruct (assert_same_shape_ok (t := DT (projT1 (default_weights labels weights)))
              x1 (projT2 (default_weights labels weights)) Hcw)
    as (x2 & E2 & _ & Hx2).
  exists (tf_reshape x2 [-1]). split.
  - unfold reduce_batch_vocabulary. cbn [VocabOrderingType_eqb].
    change (tf_assert_type (Some (existT _ (DT tf_int64) labels)) tf_int64)
      with (Ok (E := PyExn) labels).
    cbn [bind]. rewrite E1. cbn [bind].
    destruct weights as [[dw w]|]; cbn [default_weights projT1 projT2 getattr_of bind] in *;
      now rewrite E2.
  - intros ax al aw Hx Hl Hs Hw Hsw. apply flat_value.
    apply (Hx2 ax aw); auto. now apply (Hx1 ax al).
Qed.

Lemma data_length_of_shape {A B} (a : ndarray A) (b : ndarray B) :
  wf_nd a -> wf_nd b -> shape a = shape b ->
  List.length (data a) = List.length (data b).
Proof. unfold wf_nd. intros Ha Hb Hs. now rewrite Ha, Hb, Hs. Qed.

(** ** Weighted-frequency vocabulary *)

(** C2, as stated, fails: with weights and no labels the reduction of
    [x = [a, b, a]], [weights = [1, 2, 3]] returns [None] in its count
    field (and in its positive-weight field), not the counts 2 and 1. *)
Lemma weighted_frequency_returns_no_counts :
  (exists u sw,
      reduce_batch_vocabulary vocab_aba WEIGHTED_FREQUENCY
        (Some (existT _ (FloatT tf_float32) weights_123)) None
      = Ok (u, sw, None, None))
  /\ ~ (exists u sw spw counts,
          reduce_batch_vocabulary vocab_aba WEIGHTED_FREQUENCY
            (Some (existT _ (FloatT tf_float32) weights_123)) None
          = Ok (u, sw, spw, Some counts)).
Proof.
  split.
  - eexists _, _. reflexivity.
  - intros (u & sw & spw & counts & H). discriminate H.
Qed.

(** C2, amended: for every batch of a type with exact equality, reduced
    with ordering [WEIGHTED_FREQUENCY] with weights of the same shape and
    no labels, the reduction returns the distinct values of the batch (each
    once) and, at the position of each value, the sum of the weights of its
    occurrences taken in batch order; the positive-weight and count fields
    are [None].  For [x = [a, b, a]] with weights [[1, 2, 3]] the values
    are [[a, b]] and the weight sums [[4, 2]]. *)
Theorem weighted_frequency_sums_weights_per_value
    (t : DType) (dw : NumType) (x : Tensor t) (w : Tensor dw)
    (ax : ndarray (carrier t)) (aw : ndarray (num dw)) :
  exact_key t = true ->
  is_compatible_with (static_shape x) (static_shape w) = true ->
  value x = Ok ax -> value w = Ok aw ->
  shape ax = shape aw -> wf_nd ax -> wf_nd aw ->
  (exists (u : Tensor t) (sw : Tensor dw) (ys : list (carrier t)) (sums : list (num dw)),
      reduce_batch_vocabulary x WEIGHTED_FREQUENCY (Some (existT _ dw w)) None
      = Ok (u, Some (existT _ dw sw), None, None)
      /\ value u = Ok (mk_nd [List.length ys] ys)
      /\ value sw = Ok (mk_nd [List.length ys] sums)
      /\ NoDup ys
      /\ (forall v, In v ys <-> In v (data ax))
      /\ List.length sums = List.length ys
      /\ forall j v,
           nth_error ys j = Some v ->
           nth_error sums j
           = Some (fold_left (add dw)
                     (weights_of (el_eqb t) v (data ax) (data aw)) (zero dw)))
  /\ (exists (u : Tensor tf_string) (sw : Tensor tf_float32),
        reduce_batch_vocabulary vocab_aba WEIGHTED_FREQUENCY
          (Some (existT _ (FloatT tf_float32) weights_123)) None
        = Ok (u, Some (existT _ (FloatT tf_float32) sw), None, None)
        /\ value u = Ok (mk_nd [2%nat] ["a"%string; "b"%string])
        /\ value sw = Ok (mk_nd [2%nat] [of_Z tf_float32 4; of_Z tf_float32 2])).
Proof.
  intros Hkey Hc Hx Hw Hs Hwx Hww. split.
  - destruct (weighted_frequency_pipeline x w None Hc) as (x2 & E & Hx2).
    specialize (Hx2 ax aw Hx Hw Hs).
    pose proof (flat_value w aw Hw) as Hw2.
    pose proof (data_length_of_shape ax aw Hwx Hww Hs) as Hlen.
    destruct (unique_with_counts_values x2 (tf_reshape w [-1]) (data ax) (data aw)
                Hx2 Hw2 Hlen) as (Hy & _ & Hsum).
    destruct (unique_idx_spec (el_eqb t) (exact_key_lawful t Hkey) (data ax))
      as (Hnd & Hin & _).
    eexists _, _, _, _. split; [rewrite E; reflexivity|].
    split; [exact Hy|]. split; [exact Hsum|].
    split; [exact Hnd|]. split; [exact Hin|]. split.
    + unfold segment_sums. now rewrite length_map, length_seq.
    + intros j v Hj. unfold segment_sums.
      rewrite nth_error_map, nth_error_seq.
      assert (Hlt : (j < List.length (fst (unique_idx (el_eqb t) (data ax))))%nat).
      { apply nth_error_Some. congruence. }
      destruct (Nat.ltb_spec j (List.length (fst (unique_idx (el_eqb t) (data ax)))));
        [|lia].
      cbn [option_map Nat.add]. do 2 f_equal.
      now apply segment_weights_of; [apply exact_key_lawful|].
  - eexists _, _. split; [reflexivity|]. split; vm_compute; reflexivity.
Qed.

Lemma weighted_frequency_sums_weights_per_value_witness :
  exists (u : Tensor tf_string) (sw : Tensor tf_float32),
    reduce_batch_vocabulary vocab_aba WEIGHTED_FREQUENCY
      (Some (existT _ (FloatT tf_float32) weights_123)) None
    = Ok (u, Some (existT _ (FloatT tf_float32) sw), None, None)
    /\ value u = Ok (mk_nd [2%nat] ["a"%string; "b"%string])
    /\ value sw = Ok (mk_nd [2%nat] [of_Z tf_float32 4; of_Z tf_float32 2]).
Proof.
  refine (proj2 (weighted_frequency_sums_weights_per_value
                   tf_string tf_float32 vocab_aba weights_123
                   (mk_nd [3%nat] ["a"%string; "b"%string; "a"%string])
                   (mk_nd [3%nat] [of_Z tf_float32 1; of_Z tf_float32 2; of_Z tf_float32 3])
                   eq_refl eq_refl eq_refl eq_refl eq_refl eq_refl eq_refl)).
Defined.

(** ** Default weights *)

Lemma segment_const {W} (c : W) (j : nat) (ix : list nat) :
  forall ls : list Z,
    List.length ls = List.length ix ->
    segment j ix (map (fun _ => c) ls) = repeat c (count_occ_nat j ix).
Proof.
  unfold segment, count_occ_nat.
  induction ix as [|i ix IH]; intros [|l ls] Hlen; try discriminate; [reflexivity|].
  simpl. rewrite (Nat.eqb_sym j i).
  destruct (Nat.eqb i j); simpl; rewrite IH by (simpl in Hlen; lia); reflexivity.
Qed.

Lemma fold_add_ones (i : IntType) (k : nat) (acc : Z) :
  fold_left (add i) (repeat 1 k) (wrap i acc) = wrap i (acc + Z.of_nat k).
Proof.
  revert acc. induction k as [|k IH]; intros acc.
  - simpl. f_equal. lia.
  - cbn [repeat fold_left]. unfold add at 2. rewrite wrap_add_l, IH. f_equal. lia.
Qed.

(** C3, as stated, fails: with ordering [WEIGHTED_FREQUENCY] and no
    weights the reduction does not succeed; it raises while the graph is
    built (the shape of [None] is requested). *)
Lemma weighted_frequency_without_weights_fails :
  reduce_batch_vocabulary vocab_aba WEIGHTED_FREQUENCY None None = Raise AttributeError
  /\ ~ (exists out,
          reduce_batch_vocabulary vocab_aba WEIGHTED_FREQUENCY None None = Ok out).
Proof.
  split; [reflexivity|]. intros (out & H). discriminate H.
Qed.

(** C3, amended: the default applies under ordering
    [WEIGHTED_MUTUAL_INFORMATION]: for every batch with [tf.int64] labels of
    the same shape and weights absent, the reduction is the one obtained
    with the weights [tf.ones_like(labels)] supplied, it succeeds, and its
    summed weights evaluate to the same array as its counts: each unique
    value's weight sum equals its occurrence count. *)
Theorem mutual_information_defaults_to_unit_weights
    (t : DType) (x : Tensor t) (labels : Tensor tf_int64)
    (ax : ndarray (carrier t)) (al : ndarray Z) :
  is_compatible_with (static_shape x) (static_shape labels) = true ->
  value x = Ok ax -> value labels = Ok al ->
  shape ax = shape al -> wf_nd ax -> wf_nd al ->
  reduce_batch_vocabulary x WEIGHTED_MUTUAL_INFORMATION None
    (Some (existT _ (DT tf_int64) labels))
  = reduce_batch_vocabulary x WEIGHTED_MUTUAL_INFORMATION
      (Some (existT _ (IntT tf_int64) (tf_ones_like labels tf_int64)))
      (Some (existT _ (DT tf_int64) labels))
  /\ exists (u : Tensor t) (sw : Tensor tf_int64) (spw : Tensor tf_float32)
            (counts : Tensor tf_int64) (per_value : ndarray Z),
       reduce_batch_vocabulary x WEIGHTED_MUTUAL_INFORMATION None
         (Some (existT _ (DT tf_int64) labels))
       = Ok (u, Some (existT _ (IntT tf_int64) sw), Some spw, Some counts)
       /\ value sw = Ok per_value
       /\ value counts = Ok per_value.
Proof.
  intros Hc Hx Hl Hs Hwx Hwl. split; [reflexivity|].
  destruct (mutual_information_pipeline x None labels Hc Hc) as (x2 & E & Hx2).
  assert (Hones : value (tf_ones_like labels tf_int64)
                  = Ok (nd_map (fun _ => one tf_int64) al)).
  { unfold tf_ones_like, lift1. cbn [value]. now rewrite Hl. }
  specialize (Hx2 ax al _ Hx Hl Hs Hones Hs).
  pose proof (flat_value _ _ Hones) as Hw2. cbn [nd_map data] in Hw2.
  assert (Hlen : List.length (data ax)
                 = List.length (map (fun _ : Z => one tf_int64) (data al))).
  { rewrite length_map. now apply data_length_of_shape. }
  rewrite length_map in Hw2.
  rewrite <- (length_map (fun _ : Z => one tf_int64) (data al)) in Hw2.
  destruct (unique_with_counts_values x2 (tf_reshape (tf_ones_like labels tf_int64) [-1])
              (data ax) (map (fun _ : Z => one tf_int64) (data al)) Hx2 Hw2 Hlen)
    as (_ & Hcount & Hsum).
  eexists _, _, _, _, _. split; [rewrite E; reflexivity|].
  split; [exact Hsum | rewrite Hcount].
  apply (f_equal Ok), (f_equal (mk_nd _)). symmetry.
  unfold segment_sums. apply map_ext. intros j.
  destruct (unique_idx_bounds (el_eqb t) (data ax)) as [_ Hix].
  rewrite segment_const by (rewrite Hix; symmetry; now apply data_length_of_shape).
  change (one tf_int64) with 1. change (zero tf_int64) with (wrap tf_int64 0).
  now rewrite fold_add_ones.
Qed.

Lemma mutual_information_defaults_to_unit_weights_witness :
  exists (u : Tensor tf_string) (sw : Tensor tf_int64) (spw : Tensor tf_float32)
         (counts : Tensor tf_int64) (per_value : ndarray Z),
    reduce_batch_vocabulary vocab_aba WEIGHTED_MUTUAL_INFORMATION None
      (Some (existT _ (DT tf_int64) (vector (t := tf_int64) [1; 0; 1])))
    = Ok (u, Some (existT _ (IntT tf_int64) sw), Some spw, Some counts)
    /\ value sw = Ok per_value
    /\ value counts = Ok per_value.
Proof.
  refine (proj2 (mutual_information_defaults_to_unit_weights
                   tf_string vocab_aba (vector (t := tf_int64) [1; 0; 1])
                   (mk_nd [3%nat] ["a"%string; "b"%string; "a"%string])
                   (mk_nd [3%nat] [1; 0; 1])
                   eq_refl eq_refl eq_refl eq_refl eq_refl eq_refl)).
Defined.

(** ** Label validation *)

Lemma nd_broadcast2_vectors {A B C} (f : A -> B -> C) (l : list A) (m : list B)
    (n n' : nat) :
  List.length l = List.length m ->
  n = List.length l -> n' = List.length m ->
  nd_broadcast2 f (mk_nd [n] l) (mk_nd [n'] m)
  = Ok (mk_nd [List.length (map2 f l m)] (map2 f l m)).
Proof.
  intros H -> ->. unfold nd_broadcast2. cbn [shape data].
  rewrite H, shape_eqb_refl, map2_length, H, Nat.min_id. reflexivity.
Qed.

(** C7: under ordering [WEIGHTED_MUTUAL_INFORMATION] with [tf.int64]
    labels, building the graph succeeds whatever the label values are, and
    the summed positive weights depend on two assertions over the labels
    (maximum at most 1, minimum at least 0): when some label is outside
    {0, 1}, evaluating that tensor, and so evaluating the returned tuple,
    raises the assertion failure that reports the labels; when every label
    is 0 or 1 the tuple evaluates without error. *)
Theorem mutual_information_labels_checked_at_evaluation
    (t : DType) (x : Tensor t) (weights : option NumTensor)
    (labels : Tensor tf_int64) (al : ndarray Z) :
  is_compatible_with (static_shape x) (static_shape labels) = true ->
  is_compatible_with (static_shape x)
    (static_shape (projT2 (default_weights labels weights))) = true ->
  value labels = Ok al ->
  exists (u : Tensor t) (sw : NumTensor) (spw : Tensor tf_float32)
         (counts : Tensor tf_int64),
    reduce_batch_vocabulary x WEIGHTED_MUTUAL_INFORMATION weights
      (Some (existT _ (DT tf_int64) labels))
    = Ok (u, Some sw, Some spw, Some counts)
    /\ (Exists (fun v => v <> 0 /\ v <> 1) (data al) ->
        value spw = Raise (label_failure (data al)))
    /\ forall (ax : ndarray (carrier t))
              (aw : ndarray (num (projT1 (default_weights labels weights)))),
         value x = Ok ax ->
         value (projT2 (default_weights labels weights)) = Ok aw ->
         shape ax = shape al -> shape ax = shape aw ->
         wf_nd ax -> wf_nd al -> wf_nd aw ->
         (Exists (fun v => v <> 0 /\ v <> 1) (data al) ->
          fetch_all (u, Some sw, Some spw, Some counts)
          = Raise (label_failure (data al)))
         /\ (Forall (fun v => v = 0 \/ v = 1) (data al) ->
             fetch_all (u, Some sw, Some spw, Some counts) = Ok tt).
Proof.
  intros Hc Hcw Hl.
  destruct (mutual_information_pipeline x weights labels Hc Hcw) as (x2 & E & Hx2).
  pose proof (flat_value labels al Hl) as Hl1.
  destruct (label_asserts (tf_reshape labels [-1]) (data al) Hl1) as [Hgood Hbad].
  cbv zeta in Hgood, Hbad.
  eexists _, _, _, _. split; [rewrite E; reflexivity|].
  assert (Hspw_bad :
            Exists (fun v => v <> 0 /\ v <> 1) (data al) ->
            value (tf_unsorted_segment_sum
                     (tf_multiply
                        (tf_cast
                           (tf_control_dependencies
                              [tf_Assert
                                 (tf_less_equal (tf_reduce_max (tf_reshape labels [-1]) None)
                                    (tf_constant 1 tf_int64))
                                 [existT _ (DT tf_int64) (tf_reshape labels [-1])];
                               tf_Assert
                                 (tf_greater_equal (tf_reduce_min (tf_reshape labels [-1]) None)
                                    (tf_constant 0 tf_int64))
                                 [existT _ (DT tf_int64) (tf_reshape labels [-1])]]
                              (tf_identity (tf_reshape labels [-1]))) tf_float32)
                        (tf_cast (tf_reshape (projT2 (default_weights labels weights)) [-1]) tf_float32))
                     (idx (tf_unique_with_counts x2))
                     (tf_size (y (tf_unique_with_counts x2))))
            = Raise (label_failure (data al))).
  { intros Hex. unfold tf_unsorted_segment_sum, tf_multiply, lift2, tf_cast, lift1,
      tf_control_dependencies. cbn [value]. now rewrite (Hbad Hex). }
  split; [exact Hspw_bad|].
  intros ax aw Hx Hw Hs Hsw Hwx Hwl Hww.
  specialize (Hx2 ax al aw Hx Hl Hs Hw Hsw).
  pose proof (flat_value (projT2 (default_weights labels weights)) aw Hw) as Hw2.
  pose proof (data_length_of_shape ax aw Hwx Hww Hsw) as Hlen.
  destruct (unique_with_counts_values x2 (tf_reshape (projT2 (default_weights labels weights)) [-1]) (data ax) (data aw)
              Hx2 Hw2 Hlen) as (Hy & Hcount & Hsum).
  unfold fetch_all, eval_optional. cbn [projT1 projT2]. rewrite Hy, Hsum. cbn [bind].
  split.
  - intros Hex. now rewrite (Hspw_bad Hex).
  - intros Hall. rewrite Hcount.
    set (pw := map2 (mul tf_float32)
                 (map (cast tf_int64 tf_float32) (data al))
                 (map (cast (projT1 (default_weights labels weights)) tf_float32) (data aw))).
    pose proof (data_length_of_shape ax al Hwx Hwl Hs) as Hlen_l.
    assert (Hpw_len : List.length (data ax) = List.length pw).
    { unfold pw. rewrite map2_length, !length_map. cbn [num carrier] in *. lia. }
    assert (Hpw : value (tf_multiply
                           (tf_cast
                              (tf_control_dependencies
                                 [tf_Assert
                                    (tf_less_equal (tf_reduce_max (tf_reshape labels [-1]) None)
                                       (tf_constant 1 tf_int64))
                                    [existT _ (DT tf_int64) (tf_reshape labels [-1])];
                                  tf_Assert
                                    (tf_greater_equal
                                       (tf_reduce_min (tf_reshape labels [-1]) None)
                                       (tf_constant 0 tf_int64))
                                    [existT _ (DT tf_int64) (tf_reshape labels [-1])]]
                                 (tf_identity (tf_reshape labels [-1]))) tf_float32)
                           (tf_cast (tf_reshape (projT2 (default_weights labels weights)) [-1]) tf_float32))
                  = Ok (mk_nd [List.length pw] pw)).
    { unfold tf_multiply, lift2, tf_cast, lift1, tf_control_dependencies, tf_identity.
      cbn [value]. rewrite (Hgood Hall), Hl1, Hw2. cbn [bind nd_map shape data].
      apply nd_broadcast2_vectors; rewrite ?length_map; try reflexivity.
      cbn [num carrier] in *. lia. }
    destruct (unique_with_counts_values (dw := tf_float32) x2 _ (data ax) pw Hx2 Hpw Hpw_len)
      as (_ & _ & Hspw).
    rewrite Hspw. reflexivity.
Qed.

Lemma mutual_information_labels_checked_at_evaluation_witness :
  exists (u : Tensor tf_string) (sw : NumTensor) (spw : Tensor tf_float32)
         (counts : Tensor tf_int64),
    reduce_batch_vocabulary vocab_aba WEIGHTED_MUTUAL_INFORMATION None
      (Some (existT _ (DT tf_int64) (vector (t := tf_int64) [1; 2; 1])))
    = Ok (u, Some sw, Some spw, Some counts)
    /\ value spw = Raise (label_failure [1; 2; 1]).
Proof.
  destruct (mutual_information_labels_checked_at_evaluation
              tf_string vocab_aba None (vector (t := tf_int64) [1; 2; 1])
              (mk_nd [3%nat] [1; 2; 1]) eq_refl eq_refl eq_refl)
    as (u & sw & spw & counts & E & Hbad & _).
  exists u, sw, spw, counts. split; [exact E|].
  apply Hbad. apply Exists_cons_tl, Exists_cons_hd. split; discriminate.
Defined.

(** ** Sparse reductions along the batch axis *)

Lemma rows_coords (coords : list (Z * Z)) :
  rows (List.length coords) 2 (flat_map coord_row coords) = map coord_row coords.
Proof.
  induction coords as [|[r c] coords IH]; [reflexivity|].
  simpl. f_equal. exact IH.
Qed.

Lemma cycle_aux_singleton {A} (c : A) (cur : list A) (n : nat) :
  (cur = [] \/ cur = [c]) -> cycle_aux [c] cur n = repeat c n.
Proof.
  revert cur. induction n as [|n IH]; intros cur H; [reflexivity|].
  destruct H as [->| ->]; simpl; f_equal; apply IH; auto.
Qed.

Lemma cycle_singleton {A} (c : A) (n : nat) : cycle [c] n = repeat c n.
Proof. apply cycle_aux_singleton. now right. Qed.

Lemma map2_repeat_l {A B C} (f : A -> B -> C) (c : A) (l : list B) :
  map2 f (repeat c (List.length l)) l = map (f c) l.
Proof. induction l as [|b l IH]; simpl; [reflexivity | now rewrite IH]. Qed.

Lemma map2_repeat_r {A B C} (f : A -> B -> C) (c : B) (l : list A) :
  map2 f l (repeat c (List.length l)) = map (fun a => f a c) l.
Proof. induction l as [|b l IH]; simpl; [reflexivity | now rewrite IH]. Qed.

Lemma nth_error_map2 {A B C} (f : A -> B -> C) (l : list A) (m : list B) (k : nat) :
  nth_error (map2 f l m) k
  = match nth_error l k, nth_error m k with
    | Some a, Some b => Some (f a b)
    | _, _ => None
    end.
Proof.
  revert l m. induction k as [|k IH]; intros [|a l] [|b m]; simpl; auto.
  now destruct (nth_error l k).
Qed.

Lemma nth_error_map_seq {B} (g : nat -> B) (n c : nat) :
  (c < n)%nat -> nth_error (map g (seq 0 n)) c = Some (g c).
Proof.
  intros H. rewrite nth_error_map, nth_error_seq.
  destruct (Nat.ltb_spec c n); [reflexivity | lia].
Qed.

Section SparseColumns.
Context {V : Type} (op : V -> V -> V) (init zero : V).

Lemma group_of_columns (c : nat) (ncols : nat) (coords : list (Z * Z)) (vs : list V) :
  Forall (fun rc => 0 <= snd rc /\ (Z.to_nat (snd rc) < ncols)%nat) coords ->
  group_of c (map (fun e => ravel (remove_nth 0 e) [ncols]) (map coord_row coords)) vs
  = column_values c coords vs.
Proof.
  unfold column_values. intros H. revert vs.
  induction H as [|rc coords [H0 H1] H IH]; intros vs; [reflexivity|].
  destruct vs as [|v vs]; [reflexivity|].
  cbn [map coord_row remove_nth ravel group_of combine filter fst snd].
  destruct (Z.leb_spec 0 (snd rc)); [|lia].
  destruct (Nat.ltb_spec (Z.to_nat (snd rc)) ncols); [|lia].
  cbn [andb option_map prod_dims fold_right].
  rewrite Nat.mul_1_r, Nat.add_0_r.
  destruct (Nat.eqb c (Z.to_nat (snd rc))); cbn [map snd]; now rewrite IH.
Qed.

Lemma offsets_valid (ncols : nat) (coords : list (Z * Z)) :
  Forall (fun rc => 0 <= snd rc /\ (Z.to_nat (snd rc) < ncols)%nat) coords ->
  forallb (fun o : option nat => match o with Some _ => true | None => false end)
          (map (fun e => ravel (remove_nth 0 e) [ncols]) (map coord_row coords)) = true.
Proof.
  induction 1 as [|rc coords [H0 H1] H IH]; [reflexivity|].
  cbn [map coord_row remove_nth ravel forallb].
  destruct (Z.leb_spec 0 (snd rc)); [|lia].
  destruct (Nat.ltb_spec (Z.to_nat (snd rc)) ncols); [|lia].
  exact IH.
Qed.

Lemma nd_sparse_reduce_columns (coords : list (Z * Z)) (vs : list V) (nrows ncols : Z) :
  List.length vs = List.length coords ->
  Forall (fun rc => 0 <= fst rc < nrows /\ 0 <= snd rc < ncols) coords ->
  nd_sparse_reduce op init zero
    (mk_nd [List.length coords; 2%nat] (flat_map coord_row coords))
    (mk_nd [List.length vs] vs) (mk_nd [2%nat] [nrows; ncols]) (Some O)
  = Ok (mk_nd [Z.to_nat ncols]
          (map (fun c => reduce_group op init zero (column_values c coords vs))
               (seq 0 (Z.to_nat ncols)))).
Proof.
  intros Hlen Hb. unfold nd_sparse_reduce.
  cbn [data shape List.length Nat.ltb Nat.leb andb].
  change (remove_nth 0 (map Z.to_nat [nrows; ncols])) with [Z.to_nat ncols].
  rewrite Hlen, rows_coords.
  assert (Hb' : Forall (fun rc => 0 <= snd rc /\ (Z.to_nat (snd rc) < Z.to_nat ncols)%nat)
                  coords).
  { eapply Forall_impl; [|exact Hb]. cbv beta. intros rc [_ H]. lia. }
  rewrite (offsets_valid _ _ Hb').
  cbn [prod_dims fold_right]. rewrite Nat.mul_1_r.
  do 2 f_equal. apply map_ext. intros c. now rewrite (group_of_columns c _ _ vs Hb').
Qed.
End SparseColumns.

Lemma column_values_empty {V} (c : Z) (coords : list (Z * Z)) (vs : list V) :
  0 <= c ->
  Forall (fun rc => 0 <= snd rc /\ snd rc <> c) coords ->
  column_values (Z.to_nat c) coords vs = [].
Proof.
  intros Hc H. unfold column_values. revert vs.
  induction H as [|rc coords [H0 H1] H IH]; intros [|v vs]; try reflexivity.
  cbn [combine filter fst snd].
  destruct (Nat.eqb_spec (Z.to_nat c) (Z.to_nat (snd rc))) as [E|_]; [lia|].
  apply IH.
Qed.

Lemma where_fill {A B} (p : B -> bool) (m : A) (g : B -> A) (l : list B) :
  map2 (fun (ci : bool) ab => if ci then fst ab else snd ab)
       (map p l) (combine (repeat m (List.length l)) (map g l))
  = map (fun c => if p c then m else g c) l.
Proof. induction l as [|b l IH]; simpl; [reflexivity | now rewrite IH]. Qed.

Lemma missing_constant (d : NumType) :
  exists mv : Tensor d,
    match d with
    | FloatT _ => tf_constant_nan d
    | IntT i => Ok (tf_constant (int_min i + 1) d)
    end = Ok mv
    /\ value mv = Ok (nd_scalar (missing d)).
Proof.
  destruct d as [i|f].
  - eexists. split; [reflexivity|]. unfold tf_constant, constant_array, placeholder.
    cbn [value]. do 2 f_equal. unfold nd_scalar. f_equal. f_equal.
    destruct i; reflexivity.
  - eexists. split; reflexivity.
Qed.

Lemma sparse_repr_minus {d : NumType} (sp : SparseTensor d) coords vs nrows ncols :
  sparse_repr sp coords vs nrows ncols ->
  sparse_repr
    (tf_SparseTensor (indices sp) (tf_subtract (tf_constant 0 d) (values sp)) (dense_shape sp))
    coords (map (sub d (zero d)) vs) nrows ncols.
Proof.
  intros (Hi & Hv & Hd & Hl & Hb). unfold sparse_repr. cbn [indices values dense_shape].
  split; [exact Hi|]. split; [|split; [exact Hd|split; [now rewrite length_map | exact Hb]]].
  unfold tf_subtract, lift2, tf_constant, constant_array, placeholder. cbn [value]. rewrite Hv.
  cbn [bind]. unfold nd_broadcast2, shape_eqb. cbn [shape data nd_scalar].
  destruct (list_eq_dec Nat.eq_dec [] [List.length vs]) as [E|_]; [discriminate E|].
  cbn [is_suffix].
  destruct (list_eq_dec Nat.eq_dec [List.length vs] []) as [E|_]; [discriminate E|].
  destruct (list_eq_dec Nat.eq_dec [] [List.length vs]) as [E|_]; [discriminate E|].
  destruct (list_eq_dec Nat.eq_dec [] []) as [_|E]; [|congruence].
  rewrite cycle_singleton, map2_repeat_l, length_map. reflexivity.
Qed.

Lemma sparse_repr_ones {d : NumType} (sp : SparseTensor d) coords vs nrows ncols :
  sparse_repr sp coords vs nrows ncols ->
  sparse_repr
    (tf_SparseTensor (indices sp) (tf_ones_like (values sp) tf_int64) (dense_shape sp))
    coords (map (fun _ => one tf_int64) vs) nrows ncols.
Proof.
  intros (Hi & Hv & Hd & Hl & Hb). unfold sparse_repr. cbn [indices values dense_shape].
  split; [exact Hi|]. split; [|split; [exact Hd|split; [now rewrite length_map | exact Hb]]].
  unfold tf_ones_like, lift1. cbn [value]. rewrite Hv. cbn [bind nd_map shape data].
  now rewrite length_map.
Qed.

Lemma sparse_reduce_columns_value {d : NumType} (op : num d -> num d -> num d)
    (init : num d) (sp : SparseTensor d) coords vs nrows ncols :
  sparse_repr sp coords vs nrows ncols ->
  value (tf_sparse_reduce op init sp (Some O))
  = Ok (mk_nd [Z.to_nat ncols]
          (map (fun c => reduce_group op init (zero d) (column_values c coords vs))
               (seq 0 (Z.to_nat ncols)))).
Proof.
  intros (Hi & Hv & Hd & Hl & Hb). unfold tf_sparse_reduce. cbn [value].
  rewrite Hi, Hv, Hd. cbn [bind].
  exact (nd_sparse_reduce_columns op init (zero d) coords vs nrows ncols Hl Hb).
Qed.

Lemma sparse_count_columns_value {d : NumType} (sp : SparseTensor d)
    coords vs nrows ncols :
  sparse_repr sp coords vs nrows ncols ->
  value (reduce_batch_count (Sparse sp) false)
  = Ok (mk_nd [Z.to_nat ncols]
          (map (fun c => column_count c coords vs) (seq 0 (Z.to_nat ncols)))).
Proof.
  intros H. unfold reduce_batch_count, reduce_batch_sum, tf_sparse_reduce_sum.
  exact (sparse_reduce_columns_value (d := tf_int64) _ _ _ coords _ nrows ncols
           (sparse_repr_ones sp coords vs nrows ncols H)).
Qed.

Lemma nd_broadcast2_scalar_r {A B C} (f : A -> B -> C) (n : nat) (l : list A) (c : B) :
  nd_broadcast2 f (mk_nd [n] l) (nd_scalar c) = Ok (mk_nd [n] (map (fun a => f a c) l)).
Proof.
  unfold nd_broadcast2, shape_eqb. cbn [shape data nd_scalar is_suffix].
  destruct (list_eq_dec Nat.eq_dec [n] []) as [E|_]; [discriminate E|].
  destruct (list_eq_dec Nat.eq_dec [] [n]) as [E|_]; [discriminate E|].
  destruct (list_eq_dec Nat.eq_dec [] []) as [_|E]; [|congruence].
  now rewrite cycle_singleton, map2_repeat_r.
Qed.

Lemma column_count_map {V V'} (g : V -> V') (c : nat) coords (vs : list V) :
  column_count c coords (map g vs) = column_count c coords vs.
Proof. unfold column_count. now rewrite map_map. Qed.

Lemma sparse_minmax_columns {d : NumType} (sp : SparseTensor d) coords vs nrows ncols :
  sparse_repr sp coords vs nrows ncols ->
  exists minus_min max_ : Tensor d,
    _sparse_minus_reduce_min_and_reduce_max (Sparse sp) = Ok (minus_min, max_)
    /\ value minus_min
       = Ok (mk_nd [Z.to_nat ncols] (column_cells coords (map (sub d (zero d)) vs) ncols))
    /\ value max_ = Ok (mk_nd [Z.to_nat ncols] (column_cells coords vs ncols)).
Proof.
  intros H. unfold _sparse_minus_reduce_min_and_reduce_max.
  destruct (missing_constant d) as (mv & Emv & Hmv). rewrite Emv. cbn [bind].
  eexists _, _. split; [reflexivity|].
  pose proof (sparse_count_columns_value sp coords vs nrows ncols H) as Hcount.
  pose proof (sparse_reduce_columns_value (max_acc d) (lowest d) sp coords vs nrows ncols H)
    as Hmax.
  pose proof (sparse_reduce_columns_value (max_acc d) (lowest d) _ coords _ nrows ncols
                (sparse_repr_minus sp coords vs nrows ncols H)) as Hmin.
  assert (Hwhere : forall (t : Tensor d) (g : nat -> num d),
             value t = Ok (mk_nd [Z.to_nat ncols] (map g (seq 0 (Z.to_nat ncols)))) ->
             value (tf_where
                      (tf_equal (reduce_batch_count (Sparse sp) false)
                                (tf_constant 0 tf_int64))
                      (tf_fill (tf_shape t) mv) t)
             = Ok (mk_nd [Z.to_nat ncols]
                     (map (fun c => if eqb tf_int64 (column_count c coords vs)
                                          (of_Z tf_int64 0)
                                    then missing d else g c)
                          (seq 0 (Z.to_nat ncols))))).
  { intros t g Ht. unfold tf_where, tf_equal, lift2, tf_fill, tf_shape, lift1, tf_constant,
      constant_array, placeholder. cbn [value]. rewrite Hcount, Ht, Hmv. cbn [bind].
    rewrite nd_broadcast2_scalar_r. cbn [bind data shape nd_scalar map].
    rewrite Nat2Z.id. unfold nd_where. cbn [shape data prod_dims fold_right].
    rewrite shape_eqb_refl, Nat.mul_1_r. cbn [andb].
    rewrite map_map.
    match goal with
    | |- context [map2 _ (map ?p ?l) (combine (repeat ?m _) (map ?g0 ?l))] =>
        pose proof (where_fill p m g0 l) as Hwf
    end.
    rewrite length_seq in Hwf.
    exact (f_equal (fun l => Ok (mk_nd [Z.to_nat ncols] l)) Hwf). }
  split.
  - etransitivity; [exact (Hwhere _ _ Hmin)|]. unfold column_cells, column_cell.
    apply (f_equal Ok), (f_equal (mk_nd _)). apply map_ext. intros c.
    now rewrite column_count_map.
  - exact (Hwhere _ _ Hmax).
Qed.

Lemma inf_remapped_vector (f : FloatType) (t : Tensor f) (n : nat) (l : list spec_float) :
  value t = Ok (mk_nd [n] l) ->
  value (inf_remapped t)
  = Ok (mk_nd [n] (map (fun v => if SFis_inf v then S754_nan else v) l)).
Proof.
  intros Ht. unfold inf_remapped, tf_where, tf_is_inf, tf_add, lift1, lift2, nan_constant,
    constant_array, placeholder. cbn [value]. rewrite Ht. cbn [bind].
  rewrite nd_broadcast2_scalar_r. cbn [bind]. unfold nd_where, nd_map.
  cbn [shape data]. rewrite shape_eqb_refl. cbn [andb].
  pose proof (where_select (is_inf f) (fun a => add f a S754_nan) l) as Hsel.
  etransitivity; [exact (f_equal (fun r => Ok (mk_nd [n] r)) Hsel)|].
  apply (f_equal Ok), (f_equal (mk_nd _)). apply map_ext. intros v.
  cbn [is_inf add]. now rewrite SFadd_nan_r.
Qed.

Lemma column_cells_empty {d : NumType} coords (vs : list (num d)) (ncols c : Z) :
  0 <= c < ncols ->
  Forall (fun rc => 0 <= snd rc /\ snd rc <> c) coords ->
  nth_error (column_cells coords vs ncols) (Z.to_nat c) = Some (missing d).
Proof.
  intros Hc He. unfold column_cells. rewrite nth_error_map_seq by lia.
  unfold column_cell, column_count.
  now rewrite (column_values_empty c coords _ (proj1 Hc) He).
Qed.

Lemma sparse_repr_cast {a : NumType} (b : NumType) (sp : SparseTensor a)
    coords vs nrows ncols :
  sparse_repr sp coords vs nrows ncols ->
  sparse_repr
    (tf_SparseTensor (indices sp) (tf_cast (values sp) b) (dense_shape sp))
    coords (map (cast a b) vs) nrows ncols.
Proof.
  intros (Hi & Hv & Hd & Hl & Hb). unfold sparse_repr. cbn [indices values dense_shape].
  split; [exact Hi|]. split; [|split; [exact Hd|split; [now rewrite length_map | exact Hb]]].
  unfold tf_cast, lift1. cbn [value]. rewrite Hv. cbn [bind nd_map shape data].
  now rewrite length_map.
Qed.

Lemma sparse_minmax_sentinel_int (i : IntType) (out : NumType) (sp : SparseTensor i)
    coords vs nrows ncols (c : Z) :
  sparse_repr sp coords vs nrows ncols ->
  0 <= c < ncols ->
  Forall (fun rc => snd rc <> c) coords ->
  exists (minus_min max_ : Tensor i) (am aM : ndarray Z),
    ('(a, b) <- _sparse_minus_reduce_min_and_reduce_max (Sparse sp) ;;
     m <- _inf_to_nan a out ;; M <- _inf_to_nan b out ;;
     Ok (existT (fun d : NumType => (Tensor d * Tensor d)%type) (IntT i) (m, M)))
    = Ok (existT _ (IntT i) (minus_min, max_))
    /\ value minus_min = Ok am /\ value max_ = Ok aM
    /\ nth_error (data am) (Z.to_nat c) = Some (missing i)
    /\ nth_error (data aM) (Z.to_nat c) = Some (missing i).
Proof.
  intros H Hc He.
  destruct (sparse_minmax_columns sp coords vs nrows ncols H) as (m & M & E & Hm & HM).
  assert (He' : Forall (fun rc : Z * Z => 0 <= snd rc /\ snd rc <> c) coords).
  { destruct H as (_ & _ & _ & _ & Hb). rewrite Forall_forall in *.
    intros rc Hrc. split; [apply (Hb rc Hrc) | apply (He rc Hrc)]. }
  exists m, M. eexists _, _. rewrite E. cbn [bind _inf_to_nan is_floating].
  split; [reflexivity|]. split; [exact Hm|]. split; [exact HM|].
  cbn [data].
  split; exact (column_cells_empty (d := IntT i) coords _ ncols c Hc He').
Qed.

Lemma sparse_minmax_sentinel_float (f : FloatType) (sp : SparseTensor f)
    coords vs nrows ncols (c : Z) :
  sparse_repr sp coords vs nrows ncols ->
  0 <= c < ncols ->
  Forall (fun rc => snd rc <> c) coords ->
  exists (minus_min max_ : Tensor f) (am aM : ndarray spec_float),
    ('(a, b) <- _sparse_minus_reduce_min_and_reduce_max (Sparse sp) ;;
     m <- _inf_to_nan a f ;; M <- _inf_to_nan b f ;;
     Ok (existT (fun d : NumType => (Tensor d * Tensor d)%type) (FloatT f) (m, M)))
    = Ok (existT _ (FloatT f) (minus_min, max_))
    /\ value minus_min = Ok am /\ value max_ = Ok aM
    /\ nth_error (data am) (Z.to_nat c) = Some (missing f)
    /\ nth_error (data aM) (Z.to_nat c) = Some (missing f).
Proof.
  intros H Hc He.
  destruct (sparse_minmax_columns sp coords vs nrows ncols H) as (m & M & E & Hm & HM).
  assert (He' : Forall (fun rc : Z * Z => 0 <= snd rc /\ snd rc <> c) coords).
  { destruct H as (_ & _ & _ & _ & Hb). rewrite Forall_forall in *.
    intros rc Hrc. split; [apply (Hb rc Hrc) | apply (He rc Hrc)]. }
  exists (inf_remapped m), (inf_remapped M). eexists _, _.
  rewrite E. cbn [bind]. rewrite !inf_to_nan_float. cbn [bind].
  split; [reflexivity|].
  split; [exact (inf_remapped_vector f m _ _ Hm)|].
  split; [exact (inf_remapped_vector f M _ _ HM)|].
  cbn [data].
  split;
    exact (map_nth_error (fun v => if SFis_inf v then S754_nan else v) _ _
             (column_cells_empty (d := FloatT f) coords _ ncols c Hc He')).
Qed.

(** ** Empty columns of a sparse batch *)

(** C5: for every rank-2 sparse batch of an element type the reducer
    accepts, with in-range coordinates, and every column [c] that holds no
    coordinate, the per-column Min/Max Reducer evaluates to the sentinel in
    both fields at [c]: NaN when the element type it computes in is
    floating, that type's minimum plus one when it is integer; and the
    Count Reducer, which the override consults, is 0 at [c]. *)
Theorem sparse_empty_column_gets_sentinel
    (d : NumType) (sp : SparseTensor d)
    (coords : list (Z * Z)) (vs : list (num d)) (nrows ncols c : Z) :
  d <> tf_uint32 -> d <> tf_uint64 ->
  sparse_repr sp coords vs nrows ncols ->
  0 <= c < ncols ->
  Forall (fun rc => snd rc <> c) coords ->
  exists (minus_min max_ : Tensor (working_type d))
         (am aM : ndarray (num (working_type d))) (ac : ndarray Z),
    reduce_batch_minus_min_and_max (Sparse sp) false
    = Ok (existT _ (working_type d) (minus_min, max_))
    /\ value minus_min = Ok am /\ value max_ = Ok aM
    /\ nth_error (data am) (Z.to_nat c) = Some (missing (working_type d))
    /\ nth_error (data aM) (Z.to_nat c) = Some (missing (working_type d))
    /\ value (reduce_batch_count (Sparse sp) false) = Ok ac
    /\ nth_error (data ac) (Z.to_nat c) = Some 0.
Proof.
  intros H32 H64 H Hc He.
  assert (Hcount : exists ac : ndarray Z,
             value (reduce_batch_count (Sparse sp) false) = Ok ac
             /\ nth_error (data ac) (Z.to_nat c) = Some 0).
  { eexists. split; [exact (sparse_count_columns_value sp coords vs nrows ncols H)|].
    cbn [data]. rewrite nth_error_map_seq by lia. unfold column_count.
    rewrite column_values_empty; [reflexivity | lia |].
    destruct H as (_ & _ & _ & _ & Hb). rewrite Forall_forall in *.
    intros rc Hrc. split; [apply (Hb rc Hrc) | apply (He rc Hrc)]. }
  destruct Hcount as (ac & Hac & Hac0).
  destruct d as [i|f].
  - destruct i; try (exfalso; now (apply H32 || apply H64)).
    1-2: match goal with
         | sp : SparseTensor (IntT ?i) |- _ =>
             destruct (sparse_minmax_sentinel_int tf_int32 (IntT i) _ coords _ nrows ncols c
                         (sparse_repr_cast tf_int32 sp coords vs nrows ncols H) Hc He)
               as (m & M & am & aM & E & Hm & HM & Hcm & HcM)
         end;
         exists m, M, am, aM, ac; repeat split; try assumption; exact E.
    all: match goal with
         | sp : SparseTensor (IntT ?i) |- _ =>
             destruct (sparse_minmax_sentinel_int i i sp coords vs nrows ncols c H Hc He)
               as (m & M & am & aM & E & Hm & HM & Hcm & HcM)
         end;
         exists m, M, am, aM, ac; repeat split; try assumption; exact E.
  - destruct (sparse_minmax_sentinel_float f sp coords vs nrows ncols c H Hc He)
      as (m & M & am & aM & E & Hm & HM & Hcm & HcM).
    exists m, M, am, aM, ac. repeat split; assumption.
Qed.

Lemma sparse_empty_column_gets_sentinel_witness :
  exists (minus_min max_ : Tensor tf_float32) (am aM : ndarray spec_float),
    reduce_batch_minus_min_and_max (Sparse sparse_2x3) false
    = Ok (existT _ (FloatT tf_float32) (minus_min, max_))
    /\ value minus_min = Ok am /\ value max_ = Ok aM
    /\ nth_error (data am) 1 = Some S754_nan
    /\ nth_error (data aM) 1 = Some S754_nan.
Proof.
  destruct (sparse_empty_column_gets_sentinel tf_float32 sparse_2x3
              [(0, 0); (1, 2)] [of_Z tf_float32 5; of_Z tf_float32 (-3)] 2 3 1)
    as (m & M & am & aM & ac & E & Hm & HM & Hcm & HcM & _).
  - discriminate.
  - discriminate.
  - unfold sparse_repr. repeat split; try reflexivity.
    repeat constructor; simpl; lia.
  - lia.
  - repeat constructor; simpl; lia.
  - exists m, M, am, aM. repeat split; assumption.
Defined.

(** ** Merging the partial results of two sub-batches *)

Section Merge.
Context {V : Type} (op : V -> V -> V) (e : V) (P Q : V -> Prop).
Hypothesis laws : merge_laws op e P Q.

Lemma fold_merge (l : list V) (a : V) :
  P a -> Forall Q l ->
  fold_left op l a = op a (fold_left op l e) /\ P (fold_left op l a).
Proof.
  intros Ha Hl. revert a Ha. induction Hl as [|x l Hx Hl IH]; intros a Ha.
  - cbn [fold_left]. split; [symmetry; now apply (ml_unit _ _ _ _ laws) | exact Ha].
  - cbn [fold_left].
    destruct (IH (op a x) (ml_closed _ _ _ _ laws a x Ha Hx)) as [E1 P1].
    destruct (IH (op e x) (ml_closed _ _ _ _ laws e x (ml_unit_ok _ _ _ _ laws) Hx))
      as [E2 _].
    destruct (IH e (ml_unit_ok _ _ _ _ laws)) as [_ P3].
    split; [|exact P1]. rewrite E1, E2.
    now apply (ml_assoc _ _ _ _ laws).
Qed.

Lemma fold_merge_app (l1 l2 : list V) :
  Forall Q l1 -> Forall Q l2 ->
  fold_left op (l1 ++ l2) e = op (fold_left op l1 e) (fold_left op l2 e).
Proof.
  intros H1 H2. rewrite fold_left_app.
  apply fold_merge; [|exact H2].
  apply fold_merge; [apply (ml_unit_ok _ _ _ _ laws) | exact H1].
Qed.

(** The same laws hold column by column on rows of one length. *)
Lemma rows_merge_laws (k : nat) :
  (forall x, Q x) ->
  merge_laws (map2 op) (repeat e k)
    (fun v => List.length v = k /\ Forall P v)
    (fun r => List.length r = k).
Proof.
  intros HQ. split.
  - split; [apply repeat_length|]. apply Forall_forall. intros x Hx.
    apply repeat_spec in Hx. subst x. apply (ml_unit_ok _ _ _ _ laws).
  - intros a x [La Pa] Lx. split; [rewrite map2_length; lia|].
    clear La Lx. revert x. induction Pa as [|a0 a H0 Pa IH]; intros [|x0 x]; simpl;
      constructor; auto. apply (ml_closed _ _ _ _ laws); auto.
  - intros a x s [La Pa] Lx [Ls Ps]. subst k.
    revert x s Lx Ls Ps. induction Pa as [|a0 a H0 Pa IH]; intros [|x0 x] [|s0 s] Lx Ls Ps;
      try discriminate; [reflexivity|].
    cbn [List.length repeat map2]. inversion Ps; subst. f_equal.
    + apply (ml_assoc _ _ _ _ laws); auto.
    + apply IH; auto.
  - intros a [La Pa]. subst k. induction Pa as [|a0 a H0 Pa IH]; [reflexivity|].
    cbn [List.length repeat map2]. f_equal; [|exact IH].
    now apply (ml_unit _ _ _ _ laws).
Qed.
End Merge.

Lemma add_merge_laws (i : IntType) :
  merge_laws (add i) (zero i) (fun a => wrap i a = a) (fun _ => True).
Proof.
  split.
  - apply wrap_idem.
  - intros a x _ _. apply wrap_idem.
  - intros a x s Ha _ Hs. unfold add, zero, of_Z.
    rewrite wrap_zero, !wrap_add_l, wrap_add_r. f_equal. ring.
  - intros a Ha. unfold add, zero, of_Z. rewrite wrap_zero, Z.add_0_r. exact Ha.
Qed.

Lemma max_merge_laws (i : IntType) :
  merge_laws (max_acc i) (lowest i) (fun a => lowest i <= a) (fun _ => True).
Proof.
  split.
  - apply Z.le_refl.
  - intros a x Ha _. rewrite max_acc_int. lia.
  - intros a x s Ha _ Hs. rewrite !max_acc_int. lia.
  - intros a Ha. rewrite max_acc_int. lia.
Qed.

Lemma rows_app {A} (n m k : nat) (l1 l2 : list A) :
  List.length l1 = (n * k)%nat ->
  rows (n + m) k (l1 ++ l2) = rows n k l1 ++ rows m k l2.
Proof.
  revert l1. induction n as [|n IH]; intros l1 Hl.
  - destruct l1; [reflexivity | discriminate].
  - cbn [Nat.add rows app]. simpl in Hl.
    rewrite firstn_app, skipn_app.
    replace (k - List.length l1)%nat with O by lia.
    cbn [firstn skipn]. rewrite app_nil_r. f_equal.
    apply IH. rewrite length_skipn. lia.
Qed.

Lemma rows_lengths {A} (n k : nat) (l : list A) :
  List.length l = (n * k)%nat ->
  Forall (fun r => List.length r = k) (rows n k l).
Proof.
  revert l. induction n as [|n IH]; intros l Hl; [constructor|].
  cbn [rows]. simpl in Hl. constructor.
  - rewrite length_firstn. lia.
  - apply IH. rewrite length_skipn. lia.
Qed.

Lemma is_batch_map {A B} (g : A -> B) (a : ndarray A) (n : nat) (inst : list nat) :
  is_batch a n inst -> is_batch (nd_map g a) n inst.
Proof. intros [Hs Hl]. split; [exact Hs|]. cbn [nd_map data]. now rewrite length_map. Qed.

Lemma nd_concat_map {A B} (g : A -> B) (a b : ndarray A) :
  nd_map g (nd_concat a b) = nd_concat (nd_map g a) (nd_map g b).
Proof. unfold nd_map, nd_concat. cbn [shape data]. now rewrite map_app. Qed.

Section ReduceConcat.
Context {V : Type} (op : V -> V -> V) (e : V) (P : V -> Prop).
Hypothesis laws : merge_laws op e P (fun _ => True).

Lemma all_true (l : list V) : Forall (fun _ : V => True) l.
Proof. induction l; constructor; auto. Qed.

(** Reducing the concatenation of two batches gives the merge of the two
    reductions, over all elements and along the batch axis alike. *)
Lemma nd_reduce_concat (a b : ndarray V) (n m : nat) (inst : list nat) (rid : bool) :
  is_batch a n inst -> is_batch b m inst ->
  exists r,
    nd_reduce op e (nd_concat a b) (axis_of rid) = Ok r
    /\ (ra <- nd_reduce op e a (axis_of rid) ;;
        rb <- nd_reduce op e b (axis_of rid) ;;
        nd_broadcast2 op ra rb) = Ok r.
Proof.
  intros [Hsa Hla] [Hsb Hlb]. destruct rid; cbn [axis_of nd_reduce].
  - eexists. split; [reflexivity|]. cbn [bind nd_concat data].
    unfold nd_broadcast2, nd_scalar. cbn [shape data]. rewrite shape_eqb_refl.
    cbn [map2]. now rewrite (fold_merge_app op e P _ laws) by apply all_true.
  - unfold nd_concat. rewrite Hsa, Hsb. cbn [shape data hd tl reduce_axis remove_nth].
    eexists. split; [reflexivity|]. cbn [bind].
    unfold nd_broadcast2. cbn [shape data]. rewrite shape_eqb_refl.
    unfold reduce_rows. rewrite (rows_app n m _ _ _ Hla).
    rewrite (fold_merge_app (map2 op) (repeat e (prod_dims inst)) _ _
               (rows_merge_laws op e P _ laws (prod_dims inst) (fun _ => I)))
      by (now apply rows_lengths).
    reflexivity.
Qed.
End ReduceConcat.

(** *** Dense Sum and Count *)

Lemma tf_add_value {d : NumType} (x y : Tensor d) :
  value (tf_add x y) = (a <- value x ;; b <- value y ;; nd_broadcast2 (add d) a b).
Proof. reflexivity. Qed.

Lemma tf_add_values {d : NumType} (x y : Tensor d) vx vy :
  value x = vx -> value y = vy ->
  value (tf_add x y) = (a <- vx ;; b <- vy ;; nd_broadcast2 (add d) a b).
Proof. intros <- <-. reflexivity. Qed.

Lemma pairwise_maximum_values {d : NumType} (x y : Tensor d) vx vy :
  value x = vx -> value y = vy ->
  value (pairwise_maximum x y) = (a <- vx ;; b <- vy ;; nd_broadcast2 (max_acc d) a b).
Proof. intros <- <-. reflexivity. Qed.

Lemma pairwise_maximum_value {d : NumType} (x y : Tensor d) :
  value (pairwise_maximum x y)
  = (a <- value x ;; b <- value y ;; nd_broadcast2 (max_acc d) a b).
Proof. reflexivity. Qed.

Lemma dense_sum_merges (i : IntType) (xa xb xab : Tensor i) (a b : ndarray Z)
    (n m : nat) (inst : list nat) (rid : bool) :
  value xa = Ok a -> value xb = Ok b -> value xab = Ok (nd_concat a b) ->
  is_batch a n inst -> is_batch b m inst ->
  exists r,
    value (reduce_batch_sum (Dense xab) rid) = Ok r
    /\ value (tf_add (reduce_batch_sum (Dense xa) rid) (reduce_batch_sum (Dense xb) rid))
       = Ok r.
Proof.
  intros Ha Hb Hab Ba Bb.
  rewrite tf_add_value.
  rewrite (reduce_batch_sum_dense xa a rid Ha), (reduce_batch_sum_dense xb b rid Hb),
    (reduce_batch_sum_dense xab _ rid Hab), nd_concat_map.
  apply (nd_reduce_concat (add i) (zero i) _ (add_merge_laws i) _ _ n m inst rid);
    now apply is_batch_map.
Qed.

Lemma dense_count_merges (i : IntType) (xa xb xab : Tensor i) (a b : ndarray Z)
    (n m : nat) (inst : list nat) (rid : bool) :
  value xa = Ok a -> value xb = Ok b -> value xab = Ok (nd_concat a b) ->
  is_batch a n inst -> is_batch b m inst ->
  exists r,
    value (reduce_batch_count (Dense xab) rid) = Ok r
    /\ value (tf_add (reduce_batch_count (Dense xa) rid) (reduce_batch_count (Dense xb) rid))
       = Ok r.
Proof.
  intros Ha Hb Hab Ba Bb.
  destruct (nd_reduce_concat (add i) (zero i) _ (add_merge_laws i)
              (nd_map (valid_indicator i) a) (nd_map (valid_indicator i) b) n m inst rid
              (is_batch_map _ _ _ _ Ba) (is_batch_map _ _ _ _ Bb)) as (r & E1 & E2).
  rewrite <- nd_concat_map in E1. exists r. split.
  - etransitivity; [exact (reduce_batch_count_dense xab _ rid Hab) | exact E1].
  - etransitivity; [|exact E2].
    exact (tf_add_values _ _ _ _ (reduce_batch_count_dense xa a rid Ha)
             (reduce_batch_count_dense xb b rid Hb)).
Qed.

(** *** Sparse Sum and Count *)

Lemma column_values_shift {W} (c : nat) (k : Z) (coords : list (Z * Z)) (vs : list W) :
  column_values c (shift_rows k coords) vs = column_values c coords vs.
Proof.
  unfold column_values, shift_rows. revert vs.
  induction coords as [|rc coords IH]; intros [|v vs]; try reflexivity.
  cbn [map combine filter fst snd].
  destruct (Nat.eqb c (Z.to_nat (snd rc))); cbn [map snd]; now rewrite IH.
Qed.

Lemma column_values_app {W} (c : nat) (c1 c2 : list (Z * Z)) (v1 v2 : list W) :
  List.length v1 = List.length c1 ->
  column_values c (c1 ++ c2) (v1 ++ v2)
  = column_values c c1 v1 ++ column_values c c2 v2.
Proof.
  unfold column_values. revert v1.
  induction c1 as [|rc c1 IH]; intros [|v v1] Hl; try discriminate; [reflexivity|].
  cbn [app combine filter fst snd].
  destruct (Nat.eqb c (Z.to_nat (snd rc))); cbn [map snd app];
    rewrite IH by (simpl in Hl; lia); reflexivity.
Qed.

Lemma reduce_group_sum (i : IntType) (g : list Z) :
  reduce_group (add i) (zero i) (zero i) g = fold_left (add i) g (zero i).
Proof. now destruct g. Qed.

Lemma map2_map_same {A B C D} (f : B -> C -> D) (g : A -> B) (h : A -> C) (l : list A) :
  map2 f (map g l) (map h l) = map (fun x => f (g x) (h x)) l.
Proof. induction l as [|a l IH]; simpl; [reflexivity | now rewrite IH]. Qed.

Lemma sparse_reduce_all_value {d : NumType} (op : num d -> num d -> num d)
    (init : num d) (sp : SparseTensor d) coords vs nrows ncols :
  sparse_repr sp coords vs nrows ncols ->
  value (tf_sparse_reduce op init sp None)
  = Ok (nd_scalar (reduce_group op init (zero d) vs)).
Proof.
  intros (Hi & Hv & Hd & _). unfold tf_sparse_reduce. cbn [value].
  rewrite Hi, Hv, Hd. reflexivity.
Qed.

Lemma sparse_sum_merges (i : IntType) (spa spb spab : SparseTensor i)
    ca cb (va vb : list Z) (ra rb nc : Z) (rid : bool) :
  sparse_repr spa ca va ra nc -> sparse_repr spb cb vb rb nc ->
  sparse_repr spab (ca ++ shift_rows ra cb) (va ++ vb) (ra + rb) nc ->
  exists r,
    value (reduce_batch_sum (Sparse spab) rid) = Ok r
    /\ value (tf_add (reduce_batch_sum (Sparse spa) rid) (reduce_batch_sum (Sparse spb) rid))
       = Ok r.
Proof.
  intros Ha Hb Hab. rewrite tf_add_value.
  unfold reduce_batch_sum, tf_sparse_reduce_sum. destruct rid.
  - rewrite (sparse_reduce_all_value _ _ spa _ _ _ _ Ha),
      (sparse_reduce_all_value _ _ spb _ _ _ _ Hb),
      (sparse_reduce_all_value _ _ spab _ _ _ _ Hab).
    eexists. split; [reflexivity|]. cbn [bind].
    unfold nd_broadcast2, nd_scalar. cbn [shape data]. rewrite shape_eqb_refl.
    cbn [map2]. rewrite !reduce_group_sum.
    now rewrite (fold_merge_app (add i) (zero i) _ _ (add_merge_laws i))
      by apply all_true.
  - rewrite (sparse_reduce_columns_value _ _ spa _ _ _ _ Ha),
      (sparse_reduce_columns_value _ _ spb _ _ _ _ Hb),
      (sparse_reduce_columns_value _ _ spab _ _ _ _ Hab).
    eexists. split; [reflexivity|]. cbn [bind].
    unfold nd_broadcast2. cbn [shape data]. rewrite shape_eqb_refl, map2_map_same.
    apply (f_equal Ok), (f_equal (mk_nd _)). apply map_ext. intros c.
    destruct Ha as (_ & _ & _ & Hla & _).
    rewrite (column_values_app c ca _ va vb Hla), column_values_shift, !reduce_group_sum.
    symmetry. apply (fold_merge_app (add i) (zero i) _ _ (add_merge_laws i));
      apply all_true.
Qed.

Lemma sparse_count_merges {d : NumType} (spa spb spab : SparseTensor d)
    ca cb (va vb : list (num d)) (ra rb nc : Z) (rid : bool) :
  sparse_repr spa ca va ra nc -> sparse_repr spb cb vb rb nc ->
  sparse_repr spab (ca ++ shift_rows ra cb) (va ++ vb) (ra + rb) nc ->
  exists r,
    value (reduce_batch_count (Sparse spab) rid) = Ok r
    /\ value (tf_add (reduce_batch_count (Sparse spa) rid)
                     (reduce_batch_count (Sparse spb) rid))
       = Ok r.
Proof.
  intros Ha Hb Hab.
  apply (sparse_sum_merges tf_int64
           (tf_SparseTensor (indices spa) (tf_ones_like (values spa) tf_int64) (dense_shape spa))
           (tf_SparseTensor (indices spb) (tf_ones_like (values spb) tf_int64) (dense_shape spb))
           (tf_SparseTensor (indices spab) (tf_ones_like (values spab) tf_int64)
              (dense_shape spab))
           ca cb
           (map (fun _ => one tf_int64) va) (map (fun _ => one tf_int64) vb) ra rb nc rid).
  - now apply sparse_repr_ones.
  - now apply sparse_repr_ones.
  - rewrite <- map_app. now apply sparse_repr_ones.
Qed.

(** *** Min/Max over integers *)

Lemma is_suffix_nil (l : list nat) : is_suffix [] l = true.
Proof.
  induction l as [|n l IH]; [reflexivity|].
  cbn [is_suffix]. destruct (list_eq_dec Nat.eq_dec [] (n :: l)); [reflexivity | exact IH].
Qed.

Lemma nd_broadcast2_scalar_l {A B C} (f : A -> B -> C) (c : A) (b : ndarray B)
    (n : nat) (inst : list nat) :
  shape b = n :: inst ->
  nd_broadcast2 f (nd_scalar c) b = Ok (mk_nd (shape b) (map (f c) (data b))).
Proof.
  intros Hs. unfold nd_broadcast2, shape_eqb. cbn [shape data nd_scalar].
  rewrite Hs. cbn [is_suffix].
  destruct (list_eq_dec Nat.eq_dec [] (n :: inst)) as [E|_]; [discriminate E|].
  destruct (list_eq_dec Nat.eq_dec (n :: inst) []) as [E|_]; [discriminate E|].
  rewrite is_suffix_nil, cycle_singleton, map2_repeat_l. reflexivity.
Qed.

Lemma nd_map_id {A} (a : ndarray A) : nd_map (fun v => v) a = a.
Proof. destruct a as [s l]. unfold nd_map. cbn [shape data]. now rewrite map_id. Qed.

Lemma nd_map_map {A B C} (g : A -> B) (h : B -> C) (a : ndarray A) :
  nd_map h (nd_map g a) = nd_map (fun v => h (g v)) a.
Proof. unfold nd_map. cbn [shape data]. now rewrite map_map. Qed.

(** The two fields of the reducer on an integer tensor [x'] (the batch,
    or the batch cast to [tf.int32]). *)
Lemma minmax_fields_collapsed (w : IntType) (x' : Tensor w) (a : ndarray Z) :
  value x' = Ok a ->
  exists minus_min : Tensor w,
    assert_same_shape (tf_reduce_max (tf_subtract (tf_zeros_like x' w) x') None)
                      (tf_reduce_max x' None) = Ok minus_min
    /\ value minus_min
       = nd_reduce (max_acc w) (lowest w) (nd_map (sub w (zero w)) a) None
    /\ value (tf_reduce_max x' None) = nd_reduce (max_acc w) (lowest w) a None.
Proof.
  intros Hx. eexists. split; [reflexivity|].
  unfold tf_control_dependencies, tf_identity, tf_assert_equal, tf_shape, tf_reduce_max,
    tf_subtract, tf_zeros_like, lift1, lift2. cbn [value]. rewrite Hx.
  cbn [bind nd_map shape data]. unfold nd_broadcast2. cbn [shape data].
  rewrite shape_eqb_refl. cbn [bind nd_reduce nd_scalar shape data run_ops].
  rewrite shape_eqb_refl. cbn [map map2 forallb andb bind]. unfold nd_map. cbn [data].
  rewrite map2_map_l, map2_diag. split; reflexivity.
Qed.

Lemma minmax_fields_per_column (w : IntType) (x' : Tensor w) (a : ndarray Z)
    (n : nat) (inst : list nat) :
  value x' = Ok a -> shape a = n :: inst ->
  value (tf_reduce_max (tf_subtract (tf_constant 0 w) x') (Some O))
  = nd_reduce (max_acc w) (lowest w) (nd_map (sub w (zero w)) a) (Some O)
  /\ value (tf_reduce_max x' (Some O)) = nd_reduce (max_acc w) (lowest w) a (Some O).
Proof.
  intros Hx Hs.
  unfold tf_reduce_max, tf_subtract, tf_constant, constant_array, placeholder, lift1, lift2.
  cbn [value]. rewrite Hx. cbn [bind].
  rewrite (nd_broadcast2_scalar_l _ _ _ n inst Hs). split; reflexivity.
Qed.

Lemma cast_value (j : IntType) (y : Tensor j) (a : ndarray Z) :
  value y = Ok a ->
  value (tf_cast y tf_int32) = Ok (nd_map (cast j tf_int32) a).
Proof. intros Hy. unfold tf_cast, lift1. cbn [value]. now rewrite Hy. Qed.

Lemma minmax_int_values_widened (j : IntType) (x : TensorLike j) (a : ndarray Z)
    (rid : bool) :
  j = tf_uint8 \/ j = tf_uint16 ->
  value (batch_values x) = Ok a ->
  (rid = false -> (exists x0, x = Dense x0) /\ exists n inst, shape a = n :: inst) ->
  exists m M : Tensor tf_int32,
    reduce_batch_minus_min_and_max x rid = Ok (existT _ (IntT tf_int32) (m, M))
    /\ value m
       = nd_reduce (max_acc tf_int32) (lowest tf_int32)
           (nd_map (fun v => sub tf_int32 (zero tf_int32) (cast j tf_int32 v)) a)
           (axis_of rid)
    /\ value M
       = nd_reduce (max_acc tf_int32) (lowest tf_int32)
           (nd_map (cast j tf_int32) a) (axis_of rid).
Proof.
  intros Hj Hx Hrid. destruct rid.
  - assert (Hx' : exists x0 : Tensor j, batch_values x = x0 /\ value x0 = Ok a)
      by (eexists; split; [reflexivity | exact Hx]).
    destruct Hx' as (x0 & Ex & Hx0).
    destruct (minmax_fields_collapsed tf_int32 (tf_cast x0 tf_int32) _
                (cast_value j x0 a Hx0)) as (mm & E & Hm & HM).
    rewrite nd_map_map in Hm. subst x0.
    destruct Hj; subst j; destruct x as [x|x]; cbn [batch_values] in *;
      (eexists _, _; split;
       [unfold reduce_batch_minus_min_and_max; cbn -[assert_same_shape];
        rewrite E; reflexivity | split; [exact Hm | exact HM]]).
  - destruct (Hrid eq_refl) as [[x0 ->] (n & inst & Hs)]. cbn [batch_values] in Hx.
    destruct (minmax_fields_per_column tf_int32 (tf_cast x0 tf_int32) _ n inst
                (cast_value j x0 a Hx) Hs) as [Hm HM].
    rewrite nd_map_map in Hm.
    destruct Hj; subst j;
      (eexists _, _; split; [reflexivity | split; [exact Hm | exact HM]]).
Qed.

Lemma minmax_int_values_signed (j : IntType) (x : TensorLike j) (a : ndarray Z)
    (rid : bool) :
  is_unsigned j = false ->
  value (batch_values x) = Ok a ->
  (rid = false -> (exists x0, x = Dense x0) /\ exists n inst, shape a = n :: inst) ->
  exists m M : Tensor j,
    reduce_batch_minus_min_and_max x rid = Ok (existT _ (IntT j) (m, M))
    /\ value m
       = nd_reduce (max_acc j) (lowest j) (nd_map (sub j (zero j)) a) (axis_of rid)
    /\ value M = nd_reduce (max_acc j) (lowest j) a (axis_of rid).
Proof.
  intros Hj Hx Hrid. destruct rid.
  - assert (Hx' : exists x0 : Tensor j, batch_values x = x0 /\ value x0 = Ok a)
      by (eexists; split; [reflexivity | exact Hx]).
    destruct Hx' as (x0 & Ex & Hx0).
    destruct (minmax_fields_collapsed j x0 _ Hx0) as (mm & E & Hm & HM).
    subst x0.
    destruct j; try discriminate Hj; destruct x as [x|x]; cbn [batch_values] in *;
      (eexists _, _; split;
       [unfold reduce_batch_minus_min_and_max; cbn -[assert_same_shape];
        rewrite E; reflexivity | split; [exact Hm | exact HM]]).
  - destruct (Hrid eq_refl) as [[x0 ->] (n & inst & Hs)]. cbn [batch_values] in Hx.
    destruct (minmax_fields_per_column j x0 _ n inst Hx Hs) as [Hm HM].
    destruct j; try discriminate Hj;
      (eexists _, _; split; [reflexivity | split; [exact Hm | exact HM]]).
Qed.

Lemma max_reduce_merges (w : IntType) (g : Z -> Z) (a b : ndarray Z)
    (n m : nat) (inst : list nat) (rid : bool) (ta tb tab : Tensor w) :
  value ta = nd_reduce (max_acc w) (lowest w) (nd_map g a) (axis_of rid) ->
  value tb = nd_reduce (max_acc w) (lowest w) (nd_map g b) (axis_of rid) ->
  value tab = nd_reduce (max_acc w) (lowest w) (nd_map g (nd_concat a b)) (axis_of rid) ->
  is_batch a n inst -> is_batch b m inst ->
  exists r, value tab = Ok r /\ value (pairwise_maximum ta tb) = Ok r.
Proof.
  intros Ha Hb Hab Ba Bb.
  destruct (nd_reduce_concat (max_acc w) (lowest w) _ (max_merge_laws w)
              (nd_map g a) (nd_map g b) n m inst rid
              (is_batch_map _ _ _ _ Ba) (is_batch_map _ _ _ _ Bb)) as (r & E1 & E2).
  rewrite <- nd_concat_map in E1. exists r. split.
  - now rewrite Hab.
  - etransitivity; [exact (pairwise_maximum_values _ _ _ _ Ha Hb) | exact E2].
Qed.

Lemma minmax_merges (i : IntType) (xa xb xab : TensorLike i) (a b : ndarray Z)
    (n m : nat) (inst : list nat) (rid : bool) :
  IntT i <> tf_uint32 -> IntT i <> tf_uint64 ->
  value (batch_values xa) = Ok a -> value (batch_values xb) = Ok b ->
  value (batch_values xab) = Ok (nd_concat a b) ->
  is_batch a n inst -> is_batch b m inst ->
  (rid = false ->
   (exists x0, xa = Dense x0) /\ (exists x0, xb = Dense x0) /\ (exists x0, xab = Dense x0)) ->
  exists (w : IntType) (nA MA nB MB nAB MAB : Tensor w) (r1 r2 : ndarray Z),
    reduce_batch_minus_min_and_max xa rid = Ok (existT _ (IntT w) (nA, MA))
    /\ reduce_batch_minus_min_and_max xb rid = Ok (existT _ (IntT w) (nB, MB))
    /\ reduce_batch_minus_min_and_max xab rid = Ok (existT _ (IntT w) (nAB, MAB))
    /\ value nAB = Ok r1 /\ value (pairwise_maximum nA nB) = Ok r1
    /\ value MAB = Ok r2 /\ value (pairwise_maximum MA MB) = Ok r2.
Proof.
  intros H32 H64 Ha Hb Hab Ba Bb Hd.
  assert (Hda : rid = false ->
                (exists x0, xa = Dense x0) /\ exists n inst, shape a = n :: inst).
  { intros E. split; [apply (Hd E)|]. exists n, inst. apply Ba. }
  assert (Hdb : rid = false ->
                (exists x0, xb = Dense x0) /\ exists n inst, shape b = n :: inst).
  { intros E. split; [apply (Hd E)|]. exists m, inst. apply Bb. }
  assert (Hdab : rid = false ->
                 (exists x0, xab = Dense x0)
                 /\ exists n inst, shape (nd_concat a b) = n :: inst).
  { intros E. split; [apply (Hd E)|]. eexists _, _. reflexivity. }
  destruct (is_unsigned i) eqn:Hu.
  - assert (Hi : i = tf_uint8 \/ i = tf_uint16).
    { destruct i; try discriminate Hu; auto; exfalso; now (apply H32 || apply H64). }
    destruct (minmax_int_values_widened i xa a rid Hi Ha Hda) as (nA & MA & EA & HnA & HMA).
    destruct (minmax_int_values_widened i xb b rid Hi Hb Hdb) as (nB & MB & EB & HnB & HMB).
    destruct (minmax_int_values_widened i xab _ rid Hi Hab Hdab)
      as (nAB & MAB & EAB & HnAB & HMAB).
    destruct (max_reduce_merges tf_int32 _ a b n m inst rid nA nB nAB HnA HnB HnAB Ba Bb)
      as (r1 & H1 & H1').
    destruct (max_reduce_merges tf_int32 _ a b n m inst rid MA MB MAB HMA HMB HMAB Ba Bb)
      as (r2 & H2 & H2').
    exists tf_int32, nA, MA, nB, MB, nAB, MAB, r1, r2. repeat split; assumption.
  - destruct (minmax_int_values_signed i xa a rid Hu Ha Hda) as (nA & MA & EA & HnA & HMA).
    destruct (minmax_int_values_signed i xb b rid Hu Hb Hdb) as (nB & MB & EB & HnB & HMB).
    destruct (minmax_int_values_signed i xab _ rid Hu Hab Hdab)
      as (nAB & MAB & EAB & HnAB & HMAB).
    rewrite <- (nd_map_id a) in HMA. rewrite <- (nd_map_id b) in HMB.
    rewrite <- (nd_map_id (nd_concat a b)) in HMAB.
    destruct (max_reduce_merges i _ a b n m inst rid nA nB nAB HnA HnB HnAB Ba Bb)
      as (r1 & H1 & H1').
    destruct (max_reduce_merges i _ a b n m inst rid MA MB MAB HMA HMB HMAB Ba Bb)
      as (r2 & H2 & H2').
    exists i, nA, MA, nB, MB, nAB, MAB, r1, r2. repeat split; assumption.
Qed.




(* ================================================================= *)
(** * Further properties of the module *)

(** ** Shape assertions *)

Lemma dims_differ (a b : list nat) :
  a <> b ->
  shape_eqb [List.length a] [List.length b]
  && forallb (fun c : bool => c) (map2 Z.eqb (map Z.of_nat a) (map Z.of_nat b)) = false.
Proof.
  intros Hne. unfold shape_eqb.
  destruct (list_eq_dec Nat.eq_dec [List.length a] [List.length b]) as [E|_]; [|reflexivity].
  cbn [andb]. injection E as E. revert b Hne E.
  induction a as [|n a IH]; intros [|m b] Hne E; try discriminate; [congruence|].
  cbn [map map2 forallb]. destruct (Z.eqb_spec (Z.of_nat n) (Z.of_nat m)) as [Enm|_];
    [|reflexivity].
  apply Nat2Z.inj in Enm. subst m. cbn [andb]. apply IH; [congruence|].
  now injection E.
Qed.

Lemma assert_same_shape_value {s t} (x x' : Tensor s) (y : Tensor t)
    (a : ndarray (carrier s)) (b : ndarray (carrier t)) :
  assert_same_shape x y = Ok x' ->
  value x = Ok a -> value y = Ok b ->
  value x'
  = if shape_eqb (shape a) (shape b) then Ok a
    else Raise (InvalidArgument [shape_report a; shape_report b]).
Proof.
  unfold assert_same_shape, assert_is_compatible_with.
  destruct (is_compatible_with _ _); [|discriminate]. cbn [bind].
  intros E Hx Hy. injection E as <-.
  unfold tf_control_dependencies, tf_identity, tf_assert_equal, tf_shape, lift1.
  cbn [value run_ops]. rewrite Hx, Hy. cbn [bind shape data].
  destruct (list_eq_dec Nat.eq_dec (shape a) (shape b)) as [E|Hne].
  - rewrite E, !shape_eqb_refl, dims_equal. reflexivity.
  - pose proof (dims_differ _ _ Hne) as Hd.
    match goal with
    | |- context [if ?c then Ok tt else _] =>
        replace c with false by (symmetry; exact Hd)
    end.
    unfold shape_eqb. destruct (list_eq_dec Nat.eq_dec (shape a) (shape b)); [contradiction|].
    reflexivity.
Qed.

Lemma assert_same_shape_mismatch {s t} (x x' : Tensor s) (y : Tensor t)
    (a : ndarray (carrier s)) (b : ndarray (carrier t)) :
  assert_same_shape x y = Ok x' ->
  value x = Ok a -> value y = Ok b -> shape a <> shape b ->
  value x' = Raise (InvalidArgument [shape_report a; shape_report b]).
Proof.
  intros E Hx Hy Hne. rewrite (assert_same_shape_value x x' y a b E Hx Hy).
  unfold shape_eqb.
  destruct (list_eq_dec Nat.eq_dec (shape a) (shape b)); [contradiction | reflexivity].
Qed.



(** ** Arguments and fields of the vocabulary reduction *)

(** X2: the weighted orderings need their optional arguments.  With
    ordering [WEIGHTED_FREQUENCY] and no weights the reduction raises
    [AttributeError] whatever the batch and the labels are; with ordering
    [WEIGHTED_MUTUAL_INFORMATION] it raises [ValueError] when the labels are
    absent and [TypeError] when their element type is not [tf.int64].  All
    three are raised while the graph is built. *)
Theorem weighted_orderings_required_arguments (t : DType) (x : Tensor t) :
  (forall labels : option AnyTensor,
      reduce_batch_vocabulary x WEIGHTED_FREQUENCY None labels = Raise AttributeError)
  /\ (forall weights : option NumTensor,
         reduce_batch_vocabulary x WEIGHTED_MUTUAL_INFORMATION weights None
         = Raise ValueError)
  /\ (forall (weights : option NumTensor) (tl : DType) (labels : Tensor tl),
         tl <> DT tf_int64 ->
         reduce_batch_vocabulary x WEIGHTED_MUTUAL_INFORMATION weights
           (Some (existT _ tl labels))
         = Raise TypeError).
Proof.
  split; [|split].
  - intros labels. reflexivity.
  - intros weights. reflexivity.
  - intros weights tl labels Hne. unfold reduce_batch_vocabulary, tf_assert_type.
    cbn [VocabOrderingType_eqb convert_to_tensor bind].
    destruct (DType_eq_dec tl tf_int64) as [E|_]; [contradiction | reflexivity].
Qed.

Lemma weighted_orderings_required_arguments_witness :
  reduce_batch_vocabulary vocab_aba WEIGHTED_MUTUAL_INFORMATION None
    (Some (existT _ (DT tf_int32) (vector (t := tf_int32) [1; 0; 1])))
  = Raise TypeError.
Proof.
  apply (proj2 (proj2 (weighted_orderings_required_arguments tf_string vocab_aba))).
  discriminate.
Defined.

Lemma reduce_vocabulary_inputs_fields {t} {dw : NumType} (x : Tensor t) (w : Tensor dw)
    (labels : option AnyTensor) u sw spw counts :
  _reduce_vocabulary_inputs x w labels = Ok (u, sw, spw, counts) ->
  sw <> None /\ (spw = None <-> labels = None) /\ (counts = None <-> labels = None).
Proof.
  unfold _reduce_vocabulary_inputs. destruct labels as [[tl l]|].
  - destruct tl as [dl| |]; try discriminate. intros E. injection E as <- <- <- <-.
    repeat split; intros; discriminate.
  - intros E. injection E as <- <- <- <-. repeat split; intros; discriminate || reflexivity.
Qed.

(** X3: which fields the vocabulary reduction returns.  With ordering
    [FREQUENCY] it returns the batch flattened, in row-major order, and
    [None] in the three other fields, whatever weights and labels are
    passed (they are not looked at).  With a weighted ordering, whenever the
    graph is built the summed weights are present, and the summed positive
    weights and the counts are present exactly when labels were given. *)
Theorem vocabulary_fields_by_ordering
    (t : DType) (x : Tensor t) (weights : option NumTensor) (labels : option AnyTensor) :
  (exists x' : Tensor t,
      reduce_batch_vocabulary x FREQUENCY weights labels = Ok (x', None, None, None)
      /\ forall a, value x = Ok a ->
                   value x' = Ok (mk_nd [List.length (data a)] (data a)))
  /\ forall o u sw spw counts,
       o <> FREQUENCY ->
       reduce_batch_vocabulary x o weights labels = Ok (u, sw, spw, counts) ->
       sw <> None
       /\ (spw = None <-> labels = None)
       /\ (counts = None <-> labels = None).
Proof.
  split.
  - eexists. split; [reflexivity|]. intros a Hx. now apply flat_value.
  - intros o u sw spw counts Ho. unfold reduce_batch_vocabulary.
    destruct o; [congruence| |]; cbn [VocabOrderingType_eqb bind].
    + destruct weights as [[dw w]|]; cbn [getattr_of bind]; [|discriminate].
      destruct (assert_same_shape x w) as [x1|e]; cbn [bind]; [|discriminate].
      apply reduce_vocabulary_inputs_fields.
    + destruct (tf_assert_type labels tf_int64) as [l|e] eqn:El; cbn [bind]; [|discriminate].
      destruct (assert_same_shape x l) as [x1|e]; cbn [bind]; [|discriminate].
      assert (Hl : labels <> None).
      { intros ->. discriminate El. }
      destruct weights as [[dw w]|]; cbn [getattr_of bind];
        match goal with
        | |- context [assert_same_shape x1 ?w0] =>
            destruct (assert_same_shape x1 w0) as [x2|e]; cbn [bind]; [|discriminate]
        end.
      all: intros E; apply reduce_vocabulary_inputs_fields in E;
        destruct E as (H1 & H2 & H3); (split; [exact H1|]);
        split; split; intros H; try contradiction;
        [apply H2 in H | apply H3 in H]; discriminate.
Qed.

Lemma vocabulary_fields_by_ordering_witness :
  exists u sw,
    reduce_batch_vocabulary vocab_aba WEIGHTED_FREQUENCY
      (Some (existT _ (FloatT tf_float32) weights_123)) None
    = Ok (u, sw, None, None)
    /\ sw <> None.
Proof.
  eexists _, _. split; [reflexivity|].
  refine (proj1 (proj2 (vocabulary_fields_by_ordering tf_string vocab_aba
                          (Some (existT _ (FloatT tf_float32) weights_123)) None)
                   WEIGHTED_FREQUENCY _ _ None None _ eq_refl)).
  discriminate.
Defined.



(** ** Exact sums behind wrap-around addition *)

Lemma fold_add_zsum (i : IntType) (l : list Z) (acc : Z) :
  fold_left (add i) l (wrap i acc) = wrap i (acc + zsum l).
Proof.
  revert acc. induction l as [|v l IH]; intros acc; cbn [fold_left zsum fold_right].
  - f_equal. lia.
  - unfold add at 2. rewrite wrap_add_l, IH. f_equal. unfold zsum. lia.
Qed.

Lemma fold_add_from_zero (i : IntType) (l : list Z) :
  fold_left (add i) l (zero i) = wrap i (zsum l).
Proof. change (zero i) with (wrap i 0). apply fold_add_zsum. Qed.

Lemma wrap_zsum_map {A} (i : IntType) (g : A -> Z) (l : list A) :
  wrap i (zsum (map (fun a => wrap i (g a)) l)) = wrap i (zsum (map g l)).
Proof.
  induction l as [|a l IH]; [reflexivity|].
  cbn [map zsum fold_right]. fold (zsum (map (fun a => wrap i (g a)) l)).
  fold (zsum (map g l)).
  rewrite wrap_add_l, <- wrap_add_r, IH, wrap_add_r. reflexivity.
Qed.

Lemma zsum_map_add {A} (f g : A -> Z) (l : list A) :
  zsum (map (fun a => f a + g a) l) = zsum (map f l) + zsum (map g l).
Proof.
  unfold zsum. induction l as [|a l IH]; [reflexivity|].
  cbn [map fold_right]. lia.
Qed.

Lemma zsum_indicator (i0 : nat) (w0 : Z) (s n : nat) :
  zsum (map (fun j => if Nat.eqb i0 j then w0 else 0) (seq s n))
  = if (s <=? i0)%nat && (i0 <? s + n)%nat then w0 else 0.
Proof.
  revert s. induction n as [|n IH]; intros s.
  - cbn [seq map zsum fold_right].
    destruct (Nat.leb_spec s i0); destruct (Nat.ltb_spec i0 (s + 0)); cbn [andb];
      reflexivity || lia.
  - cbn [seq map zsum fold_right]. fold (zsum (map (fun j => if Nat.eqb i0 j then w0 else 0)
                                                 (seq (S s) n))).
    rewrite IH.
    destruct (Nat.eqb_spec i0 s); destruct (Nat.leb_spec s i0);
      destruct (Nat.leb_spec (S s) i0); destruct (Nat.ltb_spec i0 (S s + n));
      destruct (Nat.ltb_spec i0 (s + S n)); cbn [andb]; lia.
Qed.

(** Every value belongs to exactly one segment: the segment sums add up
    to the sum of all values. *)
Lemma zsum_segments (n : nat) (ix : list nat) (ws : list Z) :
  List.length ix = List.length ws ->
  Forall (fun j => (j < n)%nat) ix ->
  zsum (map (fun j => zsum (segment j ix ws)) (seq 0 n)) = zsum ws.
Proof.
  intros Hl Hix. revert ws Hl.
  induction Hix as [|i0 ix Hi Hix IH]; intros [|w0 ws] Hl; try discriminate.
  - cbn [zsum fold_right]. induction (seq 0 n) as [|j l IHl]; [reflexivity|].
    cbn [map zsum fold_right] in *. unfold segment at 1. cbn. exact IHl.
  - transitivity (zsum (map (fun j => (if Nat.eqb i0 j then w0 else 0)
                                      + zsum (segment j ix ws)) (seq 0 n))).
    + f_equal. apply map_ext. intros j. unfold segment.
      cbn [combine filter fst snd]. destruct (Nat.eqb i0 j); reflexivity.
    + rewrite zsum_map_add, zsum_indicator, IH by (simpl in Hl; lia).
      destruct (Nat.leb_spec 0 i0); [|lia].
      destruct (Nat.ltb_spec i0 (0 + n)); [|lia]. reflexivity.
Qed.

Lemma segment_length {W} (j : nat) (ix : list nat) (ws : list W) :
  List.length ix = List.length ws ->
  List.length (segment j ix ws) = count_occ_nat j ix.
Proof.
  unfold segment, count_occ_nat. revert ws.
  induction ix as [|i0 ix IH]; intros [|w0 ws] Hl; try discriminate; [reflexivity|].
  cbn [combine filter fst]. rewrite (Nat.eqb_sym j i0).
  destruct (Nat.eqb i0 j); cbn [map List.length]; rewrite IH by (simpl in Hl; lia);
    reflexivity.
Qed.

Lemma zsum_ones {W} (l : list W) : zsum (map (fun _ => 1) l) = Z.of_nat (List.length l).
Proof.
  unfold zsum. induction l as [|a l IH]; [reflexivity|].
  cbn [map fold_right List.length]. lia.
Qed.

Lemma count_occ_nat_cons (j i0 : nat) (ix : list nat) :
  Z.of_nat (count_occ_nat j (i0 :: ix))
  = (if Nat.eqb i0 j then 1 else 0) + Z.of_nat (count_occ_nat j ix).
Proof.
  unfold count_occ_nat. cbn [filter]. rewrite (Nat.eqb_sym j i0).
  destruct (Nat.eqb i0 j); cbn [List.length]; lia.
Qed.

Lemma zsum_counts (n : nat) (ix : list nat) :
  Forall (fun j => (j < n)%nat) ix ->
  zsum (map (fun j => Z.of_nat (count_occ_nat j ix)) (seq 0 n))
  = Z.of_nat (List.length ix).
Proof.
  induction 1 as [|i0 ix Hi Hix IH].
  - induction (seq 0 n) as [|j l IHl]; [reflexivity|]. exact IHl.
  - rewrite (map_ext _ _ (fun j => count_occ_nat_cons j i0 ix)).
    rewrite zsum_map_add, zsum_indicator, IH.
    destruct (Nat.leb_spec 0 i0); [|lia].
    destruct (Nat.ltb_spec i0 (0 + n)); [|lia]. cbn [andb List.length]. lia.
Qed.

(** ** Counts and total weight of a vocabulary *)

Lemma weights_of_self_length {A} (eqb : A -> A -> bool) (v : A) (xs : list A) :
  List.length (weights_of eqb v xs xs) = List.length (filter (fun a => eqb a v) xs).
Proof.
  unfold weights_of. rewrite length_map.
  induction xs as [|a xs IH]; [reflexivity|].
  cbn [combine filter fst]. destruct (eqb a v); cbn [List.length]; now rewrite IH.
Qed.

Lemma count_occ_occurrences (t : DType) (xs : list (carrier t)) (j : nat) (v : carrier t) :
  exact_key t = true ->
  nth_error (fst (unique_idx (el_eqb t) xs)) j = Some v ->
  count_occ_nat j (snd (unique_idx (el_eqb t) xs)) = occurrences t v xs.
Proof.
  intros Hkey Hj.
  destruct (unique_idx_bounds (el_eqb t) xs) as [_ Hl].
  rewrite <- (segment_length j _ xs Hl).
  rewrite (segment_weights_of (el_eqb t) (exact_key_lawful t Hkey) xs xs j v Hj).
  apply weights_of_self_length.
Qed.

(** X5: under ordering [WEIGHTED_MUTUAL_INFORMATION], for a batch of a
    type with exact equality and [tf.int64] labels of the same shape, the
    count field holds, at the position of each unique value, the number of
    occurrences of that value in the batch (as a [tf.int64]), and the counts
    add up to the number of elements of the batch.  The counts do not depend
    on the label values. *)
Theorem mutual_information_counts_occurrences
    (t : DType) (x : Tensor t) (weights : option NumTensor) (labels : Tensor tf_int64)
    (ax : ndarray (carrier t)) (al : ndarray Z)
    (aw : ndarray (num (projT1 (default_weights labels weights)))) :
  exact_key t = true ->
  is_compatible_with (static_shape x) (static_shape labels) = true ->
  is_compatible_with (static_shape x)
    (static_shape (projT2 (default_weights labels weights))) = true ->
  value x = Ok ax -> value labels = Ok al ->
  value (projT2 (default_weights labels weights)) = Ok aw ->
  shape ax = shape al -> shape ax = shape aw -> wf_nd ax -> wf_nd aw ->
  exists (u : Tensor t) (sw : NumTensor) (spw : Tensor tf_float32)
         (counts : Tensor tf_int64) (ys : list (carrier t)) (cs : list Z),
    reduce_batch_vocabulary x WEIGHTED_MUTUAL_INFORMATION weights
      (Some (existT _ (DT tf_int64) labels))
    = Ok (u, Some sw, Some spw, Some counts)
    /\ value u = Ok (mk_nd [List.length ys] ys)
    /\ value counts = Ok (mk_nd [List.length ys] cs)
    /\ List.length cs = List.length ys
    /\ (forall j v,
           nth_error ys j = Some v ->
           nth_error cs j
           = Some (wrap tf_int64 (Z.of_nat (occurrences t v (data ax)))))
    /\ wrap tf_int64 (zsum cs) = wrap tf_int64 (Z.of_nat (List.length (data ax))).
Proof.
  intros Hkey Hc Hcw Hx Hl Hw Hs Hsw Hwx Hww.
  destruct (mutual_information_pipeline x weights labels Hc Hcw) as (x2 & E & Hx2).
  specialize (Hx2 ax al aw Hx Hl Hs Hw Hsw).
  pose proof (flat_value (projT2 (default_weights labels weights)) aw Hw) as Hw2.
  pose proof (data_length_of_shape ax aw Hwx Hww Hsw) as Hlen.
  destruct (unique_with_counts_values x2
              (tf_reshape (projT2 (default_weights labels weights)) [-1])
              (data ax) (data aw) Hx2 Hw2 Hlen) as (Hy & Hcount & _).
  destruct (unique_idx_bounds (el_eqb t) (data ax)) as [Hb Hix].
  eexists _, _, _, _, _, _. split; [rewrite E; reflexivity|].
  split; [exact Hy|]. split; [exact Hcount|]. split; [|split].
  - now rewrite length_map, length_seq.
  - intros j v Hj.
    assert (Hlt : (j < List.length (fst (unique_idx (el_eqb t) (data ax))))%nat).
    { apply nth_error_Some. congruence. }
    rewrite nth_error_map_seq by exact Hlt.
    now rewrite (count_occ_occurrences t (data ax) j v Hkey Hj).
  - rewrite (wrap_zsum_map tf_int64 (fun j => Z.of_nat (count_occ_nat j _))).
    now rewrite (zsum_counts _ _ Hb), Hix.
Qed.

Lemma mutual_information_counts_occurrences_witness :
  exists (u : Tensor tf_string) (sw : NumTensor) (spw : Tensor tf_float32)
         (counts : Tensor tf_int64),
    reduce_batch_vocabulary vocab_aba WEIGHTED_MUTUAL_INFORMATION None
      (Some (existT _ (DT tf_int64) (vector (t := tf_int64) [1; 0; 1])))
    = Ok (u, Some sw, Some spw, Some counts)
    /\ value u = Ok (mk_nd [2%nat] ["a"%string; "b"%string])
    /\ value counts = Ok (mk_nd [2%nat] [2; 1]).
Proof.
  destruct (mutual_information_counts_occurrences tf_string vocab_aba None
              (vector (t := tf_int64) [1; 0; 1])
              (mk_nd [3%nat] ["a"%string; "b"%string; "a"%string])
              (mk_nd [3%nat] [1; 0; 1]) (mk_nd [3%nat] [1; 1; 1])
              eq_refl eq_refl eq_refl eq_refl eq_refl eq_refl eq_refl eq_refl eq_refl
              eq_refl)
    as (u & sw & spw & counts & ys & cs & E & _).
  exists u, sw, spw, counts. split; [exact E|].
  injection E as <- _ _ <-. split; reflexivity.
Defined.

(** X6: under ordering [WEIGHTED_FREQUENCY] with integer weights of the
    same shape as the batch, no weight is lost or counted twice: the summed
    weights of the unique values add up to the sum of all weights, modulo
    the width of the weight type (and this holds for every element type of
    the batch, floating ones included). *)
Theorem weighted_frequency_conserves_total_weight
    (t : DType) (i : IntType) (x : Tensor t) (w : Tensor i)
    (ax : ndarray (carrier t)) (aw : ndarray Z) :
  is_compatible_with (static_shape x) (static_shape w) = true ->
  value x = Ok ax -> value w = Ok aw ->
  shape ax = shape aw -> wf_nd ax -> wf_nd aw ->
  exists (u : Tensor t) (sw : Tensor i) (sums : ndarray Z),
    reduce_batch_vocabulary x WEIGHTED_FREQUENCY (Some (existT _ (IntT i) w)) None
    = Ok (u, Some (existT _ (IntT i) sw), None, None)
    /\ value sw = Ok sums
    /\ wrap i (zsum (data sums)) = wrap i (zsum (data aw)).
Proof.
  intros Hc Hx Hw Hs Hwx Hww.
  destruct (weighted_frequency_pipeline x w None Hc) as (x2 & E & Hx2).
  specialize (Hx2 ax aw Hx Hw Hs).
  pose proof (flat_value w aw Hw) as Hw2.
  pose proof (data_length_of_shape ax aw Hwx Hww Hs) as Hlen.
  destruct (unique_with_counts_values x2 (tf_reshape w [-1]) (data ax) (data aw)
              Hx2 Hw2 Hlen) as (_ & _ & Hsum).
  destruct (unique_idx_bounds (el_eqb t) (data ax)) as [Hb Hix].
  eexists _, _, _. split; [rewrite E; reflexivity|]. split; [exact Hsum|].
  cbn [data]. unfold segment_sums.
  rewrite (map_ext _ _ (fun j => fold_add_from_zero i (segment j _ (data aw)))).
  rewrite (wrap_zsum_map i (fun j => zsum (segment j _ (data aw)))).
  f_equal. apply zsum_segments; [|exact Hb].
  cbn [num carrier] in *. congruence.
Qed.

Lemma weighted_frequency_conserves_total_weight_witness :
  exists (u : Tensor tf_string) (sw : Tensor tf_uint8) (sums : ndarray Z),
    reduce_batch_vocabulary vocab_aba WEIGHTED_FREQUENCY
      (Some (existT _ (IntT tf_uint8) (vector (t := tf_uint8) [200; 7; 100]))) None
    = Ok (u, Some (existT _ (IntT tf_uint8) sw), None, None)
    /\ value sw = Ok sums
    /\ wrap tf_uint8 (zsum (data sums)) = 51.
Proof.
  destruct (weighted_frequency_conserves_total_weight tf_string tf_uint8 vocab_aba
              (vector (t := tf_uint8) [200; 7; 100])
              (mk_nd [3%nat] ["a"%string; "b"%string; "a"%string])
              (mk_nd [3%nat] [200; 7; 100])
              eq_refl eq_refl eq_refl eq_refl eq_refl eq_refl)
    as (u & sw & sums & E & Hsw & H).
  exists u, sw, sums. split; [exact E|]. split; [exact Hsw|]. exact H.
Defined.

(** ** Reductions along the batch axis, cell by cell *)

Section ReduceCells.
Context {A : Type} (op : A -> A -> A).

Lemma fold_rows_cell (k j : nat) (rs : list (list A)) (acc : list A) :
  Forall (fun r => List.length r = k) rs ->
  List.length acc = k -> (j < k)%nat ->
  List.length (fold_left (map2 op) rs acc) = k
  /\ nth_error (fold_left (map2 op) rs acc) j
     = option_map (fold_left op (cell_values j rs)) (nth_error acc j).
Proof.
  intros Hrs. revert acc. induction Hrs as [|r rs Hr Hrs IH]; intros acc Hacc Hj.
  - cbn [fold_left cell_values flat_map]. split; [exact Hacc|].
    now destruct (nth_error acc j).
  - cbn [fold_left cell_values flat_map].
    destruct (IH (map2 op acc r)) as [H1 H2]; [rewrite map2_length; lia | exact Hj |].
    split; [exact H1|]. rewrite H2, nth_error_map2.
    destruct (nth_error acc j) as [a|] eqn:Ea.
    + destruct (nth_error r j) as [b|] eqn:Eb; [reflexivity|].
      apply nth_error_None in Eb. lia.
    + apply nth_error_None in Ea. lia.
Qed.

Lemma reduce_rows_cell (init : A) (k j : nat) (rs : list (list A)) :
  Forall (fun r => List.length r = k) rs -> (j < k)%nat ->
  nth_error (reduce_rows op init k rs) j = Some (fold_left op (cell_values j rs) init).
Proof.
  intros Hrs Hj. unfold reduce_rows.
  destruct (fold_rows_cell k j rs (repeat init k) Hrs (repeat_length _ _) Hj) as [_ H].
  rewrite H, nth_error_repeat by exact Hj. reflexivity.
Qed.

Lemma reduce_rows_length (init : A) (k : nat) (rs : list (list A)) :
  Forall (fun r => List.length r = k) rs ->
  List.length (reduce_rows op init k rs) = k.
Proof.
  intros Hrs. unfold reduce_rows. destruct k as [|k].
  - clear Hrs. cbn [repeat]. induction rs as [|r rs IH]; [reflexivity|]. exact IH.
  - apply (fold_rows_cell (S k) 0 rs (repeat init (S k)) Hrs (repeat_length _ _)). lia.
Qed.

(** Reducing a batch along its first axis yields one instance, whose
    cell [j] is the reduction of the cells [j] of all instances. *)
Lemma nd_reduce_batch_axis (init : A) (a : ndarray A) (n : nat) (inst : list nat) :
  is_batch a n inst ->
  exists r,
    nd_reduce op init a (Some O) = Ok (mk_nd inst r)
    /\ List.length r = prod_dims inst
    /\ forall j, (j < prod_dims inst)%nat ->
         nth_error r j
         = Some (fold_left op (cell_values j (rows n (prod_dims inst) (data a))) init).
Proof.
  intros [Hs Hl]. unfold nd_reduce. rewrite Hs. cbn [reduce_axis remove_nth].
  eexists. split; [reflexivity|].
  pose proof (rows_lengths n (prod_dims inst) (data a) Hl) as Hrs.
  split; [now apply reduce_rows_length|].
  intros j Hj. now apply reduce_rows_cell.
Qed.
End ReduceCells.

Lemma rows_map {A B} (g : A -> B) (n k : nat) (l : list A) :
  rows n k (map g l) = map (map g) (rows n k l).
Proof.
  revert l. induction n as [|n IH]; intros l; [reflexivity|].
  cbn [rows map]. now rewrite firstn_map, skipn_map, IH.
Qed.

Lemma cell_values_map {A B} (g : A -> B) (j : nat) (rs : list (list A)) :
  cell_values j (map (map g) rs) = map g (cell_values j rs).
Proof.
  unfold cell_values. induction rs as [|r rs IH]; [reflexivity|].
  cbn [map flat_map]. rewrite map_app, IH, nth_error_map.
  now destruct (nth_error r j).
Qed.

Lemma cell_values_length {A} (k j : nat) (rs : list (list A)) :
  Forall (fun r => List.length r = k) rs -> (j < k)%nat ->
  List.length (cell_values j rs) = List.length rs.
Proof.
  intros Hrs Hj. unfold cell_values. induction Hrs as [|r rs Hr Hrs IH]; [reflexivity|].
  cbn [flat_map]. rewrite length_app, IH.
  destruct (nth_error r j) eqn:E; [reflexivity|].
  apply nth_error_None in E. lia.
Qed.

Lemma rows_count {A} (n k : nat) (l : list A) : List.length (rows n k l) = n.
Proof. revert l. induction n as [|n IH]; intros l; cbn [rows List.length]; auto. Qed.

Lemma all_cells_equal {A} (c : A) (k : nat) (r : list A) :
  List.length r = k ->
  (forall j, (j < k)%nat -> nth_error r j = Some c) ->
  r = repeat c k.
Proof.
  intros Hl H. apply nth_error_ext. intros j.
  destruct (Nat.ltb_spec j k) as [Hj|Hj].
  - now rewrite H, nth_error_repeat.
  - transitivity (@None A); [|symmetry]; apply nth_error_None;
      rewrite ?repeat_length; lia.
Qed.

Lemma nd_map_nan_to_zero_int (i : IntType) (a : ndarray Z) :
  nd_map (nan_to_zero i) a = a.
Proof.
  rewrite <- (nd_map_id a) at 2. unfold nd_map. f_equal.
  apply map_ext. intros v. apply nan_to_zero_int.
Qed.

Lemma nd_map_valid_indicator_int (i : IntType) (a : ndarray Z) :
  nd_map (valid_indicator i) a = nd_map (fun _ => 1) a.
Proof.
  unfold nd_map. f_equal. apply map_ext. intros v.
  unfold valid_indicator. rewrite elem_is_nan_int. apply wrap_one.
Qed.

(** ** Sum and count of a dense integer batch *)

(** X7: the Sum Reducer on a dense integer batch is exact modulo the
    width of the element type.  Collapsed, it is the exact sum of all
    elements wrapped into the range of the type, hence the exact sum
    whenever that fits.  Per instance position, it returns a tensor of the
    shape of one instance whose cell [j] is the wrapped exact sum of the
    cells [j] of all instances of the batch. *)
Theorem dense_integer_sum_exact_modulo_width
    (i : IntType) (x : Tensor i) (a : ndarray Z) (n : nat) (inst : list nat) :
  value x = Ok a -> is_batch a n inst ->
  value (reduce_batch_sum (Dense x) true) = Ok (nd_scalar (wrap i (zsum (data a))))
  /\ (int_min i <= zsum (data a) <= int_max i ->
      value (reduce_batch_sum (Dense x) true) = Ok (nd_scalar (zsum (data a))))
  /\ exists r : list Z,
       value (reduce_batch_sum (Dense x) false) = Ok (mk_nd inst r)
       /\ List.length r = prod_dims inst
       /\ forall j, (j < prod_dims inst)%nat ->
            nth_error r j
            = Some (wrap i (zsum (cell_values j (rows n (prod_dims inst) (data a))))).
Proof.
  intros Hx Hb.
  assert (Hc : value (reduce_batch_sum (Dense x) true)
               = Ok (nd_scalar (wrap i (zsum (data a))))).
  { rewrite (reduce_batch_sum_dense x a true Hx), nd_map_nan_to_zero_int.
    cbn [axis_of nd_reduce]. now rewrite fold_add_from_zero. }
  split; [exact Hc|]. split.
  - intros Hr. rewrite Hc. now rewrite wrap_small.
  - rewrite (reduce_batch_sum_dense x a false Hx), nd_map_nan_to_zero_int.
    destruct (nd_reduce_batch_axis (add i) (zero i) a n inst Hb) as (r & E & Hl & Hr).
    exists r. split; [exact E|]. split; [exact Hl|].
    intros j Hj. etransitivity; [exact (Hr j Hj)|].
    apply f_equal. apply fold_add_from_zero.
Qed.

Lemma dense_integer_sum_exact_modulo_width_witness :
  value (reduce_batch_sum
           (Dense (constant_array (t := tf_int8) (mk_nd [2%nat; 2%nat] [100; 1; 100; -3])))
           true)
  = Ok (nd_scalar (-58))
  /\ exists r : list Z,
       value (reduce_batch_sum
                (Dense (constant_array (t := tf_int8)
                          (mk_nd [2%nat; 2%nat] [100; 1; 100; -3]))) false)
       = Ok (mk_nd [2%nat] r)
       /\ nth_error r 0 = Some (-56) /\ nth_error r 1 = Some (-2).
Proof.
  destruct (dense_integer_sum_exact_modulo_width tf_int8
              (constant_array (t := tf_int8) (mk_nd [2%nat; 2%nat] [100; 1; 100; -3]))
              (mk_nd [2%nat; 2%nat] [100; 1; 100; -3]) 2 [2%nat] eq_refl
              (conj eq_refl eq_refl)) as (Hc & _ & r & E & _ & Hr).
  split; [exact Hc|]. exists r. split; [exact E|]. split.
  - apply (Hr 0%nat). cbn. lia.
  - apply (Hr 1%nat). cbn. lia.
Defined.

(** X8: the Count Reducer on a dense integer batch counts every
    element (an integer is never NaN), in the element type of the batch:
    collapsed, it is the number of elements wrapped at the width of that
    type; per instance position, every cell of the result is the number of
    instances, wrapped likewise. *)
Theorem dense_integer_count_is_batch_size
    (i : IntType) (x : Tensor i) (a : ndarray Z) (n : nat) (inst : list nat) :
  value x = Ok a -> is_batch a n inst ->
  value (reduce_batch_count (Dense x) true)
  = Ok (nd_scalar (wrap i (Z.of_nat (List.length (data a)))))
  /\ value (reduce_batch_count (Dense x) false)
     = Ok (mk_nd inst (repeat (wrap i (Z.of_nat n)) (prod_dims inst))).
Proof.
  intros Hx Hb. split.
  - etransitivity; [exact (reduce_batch_count_dense x a true Hx)|].
    rewrite nd_map_valid_indicator_int. cbn [axis_of nd_reduce nd_map data].
    now rewrite fold_add_from_zero, zsum_ones.
  - etransitivity; [exact (reduce_batch_count_dense x a false Hx)|].
    rewrite nd_map_valid_indicator_int.
    destruct (nd_reduce_batch_axis (add i) (zero i) (nd_map (fun _ => 1) a) n inst
                (is_batch_map _ _ _ _ Hb)) as (r & E & Hl & Hr).
    cbn [axis_of]. rewrite E. apply (f_equal Ok), (f_equal (mk_nd _)).
    apply all_cells_equal; [exact Hl|]. intros j Hj.
    etransitivity; [exact (Hr j Hj)|]. apply f_equal.
    cbn [nd_map data]. rewrite rows_map, cell_values_map.
    etransitivity; [apply fold_add_from_zero|]. rewrite zsum_ones.
    destruct Hb as [_ Hlen].
    rewrite (cell_values_length (prod_dims inst) j _ (rows_lengths n _ _ Hlen) Hj).
    now rewrite rows_count.
Qed.

Lemma dense_integer_count_is_batch_size_witness :
  value (reduce_batch_count
           (Dense (constant_array (t := tf_int64) (mk_nd [3%nat; 2%nat] [5; 6; 7; 8; 9; 0])))
           false)
  = Ok (mk_nd [2%nat] [3; 3]).
Proof.
  exact (proj2 (dense_integer_count_is_batch_size tf_int64
                  (constant_array (t := tf_int64) (mk_nd [3%nat; 2%nat] [5; 6; 7; 8; 9; 0]))
                  (mk_nd [3%nat; 2%nat] [5; 6; 7; 8; 9; 0]) 3 [2%nat] eq_refl
                  (conj eq_refl eq_refl))).
Defined.

(** ** Sum and count of a sparse batch *)

Lemma column_values_map {V V'} (g : V -> V') (c : nat) (coords : list (Z * Z))
    (vs : list V) :
  column_values c coords (map g vs) = map g (column_values c coords vs).
Proof.
  unfold column_values. revert vs.
  induction coords as [|rc coords IH]; intros [|v vs]; try reflexivity.
  cbn [map combine filter fst snd].
  destruct (Nat.eqb c (Z.to_nat (snd rc))); cbn [map snd]; now rewrite IH.
Qed.

Lemma column_count_length {V} (c : nat) (coords : list (Z * Z)) (vs : list V) :
  column_count c coords vs
  = wrap tf_int64 (Z.of_nat (List.length (column_values c coords vs))).
Proof.
  unfold column_count. rewrite column_values_map.
  etransitivity; [apply (reduce_group_sum tf_int64)|].
  etransitivity; [apply fold_add_from_zero|].
  apply f_equal. exact (zsum_ones (column_values c coords vs)).
Qed.

(** X9: the Count Reducer on a sparse batch counts the stored entries,
    in [tf.int64] whatever the element type of the batch: collapsed, it is
    the number of stored values; per column, the number of entries whose
    column index is that column.  Every stored value counts, a NaN
    included: unlike for a dense batch, no value is skipped. *)
Theorem sparse_count_counts_stored_entries
    (d : NumType) (sp : SparseTensor d)
    (coords : list (Z * Z)) (vs : list (num d)) (nrows ncols : Z) :
  sparse_repr sp coords vs nrows ncols ->
  value (reduce_batch_count (Sparse sp) true)
  = Ok (nd_scalar (wrap tf_int64 (Z.of_nat (List.length vs))))
  /\ value (reduce_batch_count (Sparse sp) false)
     = Ok (mk_nd [Z.to_nat ncols]
             (map (fun c => wrap tf_int64
                              (Z.of_nat (List.length (column_values c coords vs))))
                  (seq 0 (Z.to_nat ncols)))).
Proof.
  intros H. split.
  - unfold reduce_batch_count, reduce_batch_sum, tf_sparse_reduce_sum.
    etransitivity;
      [exact (sparse_reduce_all_value (d := tf_int64) _ _ _ coords _ nrows ncols
                (sparse_repr_ones sp coords vs nrows ncols H))|].
    apply (f_equal Ok), (f_equal nd_scalar).
    etransitivity; [apply (reduce_group_sum tf_int64)|].
    etransitivity; [apply fold_add_from_zero|].
    apply f_equal. exact (zsum_ones vs).
  - etransitivity; [exact (sparse_count_columns_value sp coords vs nrows ncols H)|].
    apply (f_equal Ok), (f_equal (mk_nd _)). apply map_ext. intros c.
    apply column_count_length.
Qed.

Lemma sparse_count_counts_stored_entries_witness :
  value (reduce_batch_count (Sparse sparse_2x3) false) = Ok (mk_nd [3%nat] [1; 0; 1]).
Proof.
  refine (proj2 (sparse_count_counts_stored_entries tf_float32 sparse_2x3
                   [(0, 0); (1, 2)] [of_Z tf_float32 5; of_Z tf_float32 (-3)] 2 3 _)).
  unfold sparse_repr. repeat split; try reflexivity.
  repeat constructor; simpl; lia.
Defined.

(** X10: the Sum Reducer on a sparse integer batch is exact modulo the
    width of the element type: collapsed, it is the wrapped exact sum of
    the stored values; per column, the wrapped exact sum of the values
    stored in that column, which is 0 for a column without entries. *)
Theorem sparse_integer_sum_exact_modulo_width
    (i : IntType) (sp : SparseTensor i)
    (coords : list (Z * Z)) (vs : list Z) (nrows ncols : Z) :
  sparse_repr sp coords vs nrows ncols ->
  value (reduce_batch_sum (Sparse sp) true) = Ok (nd_scalar (wrap i (zsum vs)))
  /\ value (reduce_batch_sum (Sparse sp) false)
     = Ok (mk_nd [Z.to_nat ncols]
             (map (fun c => wrap i (zsum (column_values c coords vs)))
                  (seq 0 (Z.to_nat ncols)))).
Proof.
  intros H. unfold reduce_batch_sum, tf_sparse_reduce_sum. split.
  - etransitivity; [exact (sparse_reduce_all_value _ _ sp coords vs nrows ncols H)|].
    apply (f_equal Ok), (f_equal nd_scalar).
    etransitivity; [apply reduce_group_sum | apply fold_add_from_zero].
  - etransitivity; [exact (sparse_reduce_columns_value _ _ sp coords vs nrows ncols H)|].
    apply (f_equal Ok), (f_equal (mk_nd _)). apply map_ext. intros c.
    etransitivity; [apply reduce_group_sum | apply fold_add_from_zero].
Qed.

Lemma sparse_integer_sum_exact_modulo_width_witness :
  value (reduce_batch_sum
           (Sparse (tf_SparseTensor (d := tf_uint8)
                      (constant_array (t := tf_int64)
                         (mk_nd [3%nat; 2%nat] [0; 0; 1; 0; 1; 2]))
                      (vector (t := tf_uint8) [200; 100; 7])
                      (vector (t := tf_int64) [2; 3]))) false)
  = Ok (mk_nd [3%nat] [44; 0; 7]).
Proof.
  refine (proj2 (sparse_integer_sum_exact_modulo_width tf_uint8 _
                   [(0, 0); (1, 0); (1, 2)] [200; 100; 7] 2 3 _)).
  unfold sparse_repr. repeat split; try reflexivity.
  repeat constructor; simpl; lia.
Defined.

Lemma fold_add_nan_acc (f : FloatType) (l : list spec_float) :
  fold_left (add f) l S754_nan = S754_nan.
Proof. induction l as [|v l IH]; [reflexivity | exact IH]. Qed.

Lemma fold_add_nan (f : FloatType) (l : list spec_float) (acc : spec_float) :
  In S754_nan l -> fold_left (add f) l acc = S754_nan.
Proof.
  revert acc. induction l as [|v l IH]; intros acc Hin; [contradiction|].
  cbn [fold_left]. destruct Hin as [->|Hin].
  - cbn [add]. rewrite SFadd_nan_r. apply fold_add_nan_acc.
  - now apply IH.
Qed.

Lemma reduce_group_sum_nan (f : FloatType) (g : list spec_float) :
  In S754_nan g -> reduce_group (add f) (zero f) (zero f) g = S754_nan.
Proof.
  intros Hin. destruct g as [|v g]; [contradiction|].
  unfold reduce_group. now apply fold_add_nan.
Qed.

(** X11: the Sum Reducer does not skip a NaN stored in a sparse batch
    (only dense batches have their NaNs replaced by zero): collapsed, the
    sum is NaN as soon as one stored value is NaN; per column, the sum of a
    column that stores a NaN is NaN. *)
Theorem sparse_float_sum_keeps_nan
    (f : FloatType) (sp : SparseTensor f)
    (coords : list (Z * Z)) (vs : list spec_float) (nrows ncols : Z) :
  sparse_repr sp coords vs nrows ncols ->
  (In S754_nan vs ->
   value (reduce_batch_sum (Sparse sp) true) = Ok (nd_scalar S754_nan))
  /\ forall c : Z,
       0 <= c < ncols ->
       In S754_nan (column_values (Z.to_nat c) coords vs) ->
       exists r : ndarray spec_float,
         value (reduce_batch_sum (Sparse sp) false) = Ok r
         /\ nth_error (data r) (Z.to_nat c) = Some S754_nan.
Proof.
  intros H. unfold reduce_batch_sum, tf_sparse_reduce_sum. split.
  - intros Hin.
    etransitivity; [exact (sparse_reduce_all_value _ _ sp coords vs nrows ncols H)|].
    apply (f_equal Ok), (f_equal nd_scalar). now apply reduce_group_sum_nan.
  - intros c Hc Hin. eexists. split.
    + exact (sparse_reduce_columns_value _ _ sp coords vs nrows ncols H).
    + cbn [data]. rewrite nth_error_map_seq by lia.
      apply f_equal. now apply reduce_group_sum_nan.
Qed.

Lemma sparse_float_sum_keeps_nan_witness :
  value (reduce_batch_sum
           (Sparse (tf_SparseTensor (d := tf_float32)
                      (constant_array (t := tf_int64) (mk_nd [2%nat; 2%nat] [0; 0; 1; 0]))
                      (vector (t := tf_float32) [of_Z tf_float32 1; S754_nan])
                      (vector (t := tf_int64) [2; 1]))) true)
  = Ok (nd_scalar S754_nan).
Proof.
  refine (proj1 (sparse_float_sum_keeps_nan tf_float32 _
                   [(0, 0); (1, 0)] [of_Z tf_float32 1; S754_nan] 2 1 _) _).
  - unfold sparse_repr. repeat split; try reflexivity.
    repeat constructor; simpl; lia.
  - right. now left.
Defined.

(** ** Minimum and maximum of integer batches *)

(** X12: the Min/Max Reducer rejects exactly the element types
    [tf.uint32] and [tf.uint64], with [TypeError], while the graph is
    built; for every other numeric type, dense or sparse batch, in either
    mode, it returns a pair of tensors of the type it computes in
    ([tf.int32] for [tf.uint8] and [tf.uint16], the type of the batch
    otherwise). *)
Theorem minmax_rejects_only_uint32_and_uint64
    (d : NumType) (x : TensorLike d) (rid : bool) :
  (d = tf_uint32 \/ d = tf_uint64 ->
   reduce_batch_minus_min_and_max x rid = Raise TypeError)
  /\ (d <> tf_uint32 -> d <> tf_uint64 ->
      exists minus_min max_ : Tensor (working_type d),
        reduce_batch_minus_min_and_max x rid
        = Ok (existT _ (working_type d) (minus_min, max_))).
Proof.
  split.
  - intros [->| ->]; reflexivity.
  - intros H32 H64. destruct d as [i|f].
    + destruct i; try (exfalso; now (apply H32 || apply H64));
        destruct x as [x|x]; destruct rid; eexists _, _; reflexivity.
    + destruct f; destruct x as [x|x]; destruct rid; eexists _, _; reflexivity.
Qed.

Lemma minmax_rejects_only_uint32_and_uint64_witness :
  reduce_batch_minus_min_and_max (Dense (vector (t := tf_uint32) [1; 2])) true
  = Raise TypeError
  /\ exists minus_min max_ : Tensor tf_int64,
       reduce_batch_minus_min_and_max (Dense (vector (t := tf_int64) [1; 2])) false
       = Ok (existT _ (IntT tf_int64) (minus_min, max_)).
Proof.
  split.
  - apply (proj1 (minmax_rejects_only_uint32_and_uint64 tf_uint32
                    (Dense (vector (t := tf_uint32) [1; 2])) true)).
    now left.
  - apply (proj2 (minmax_rejects_only_uint32_and_uint64 tf_int64
                    (Dense (vector (t := tf_int64) [1; 2])) false)); discriminate.
Defined.

Lemma signed_bounds (i : IntType) :
  is_unsigned i = false -> int_min i = - int_max i - 1 /\ 0 <= int_max i.
Proof. destruct i; try discriminate; intros _; split; vm_compute; congruence. Qed.

Lemma neg_no_wrap (i : IntType) (v : Z) :
  is_unsigned i = false -> int_min i < v <= int_max i ->
  sub i (zero i) v = - v.
Proof.
  intros Hu Hv. destruct (signed_bounds i Hu) as [Hm _].
  unfold sub, zero, of_Z. rewrite wrap_zero. apply wrap_small. lia.
Qed.

Lemma neg_wraps_at_min (i : IntType) :
  is_unsigned i = false -> sub i (zero i) (int_min i) = int_min i.
Proof. destruct i; try discriminate; reflexivity. Qed.

Lemma map_neg_no_wrap (i : IntType) (l : list Z) :
  is_unsigned i = false ->
  Forall (fun v => int_min i < v <= int_max i) l ->
  map (sub i (zero i)) l = map Z.opp l.
Proof.
  intros Hu Hl. apply map_ext_in. intros v Hv.
  rewrite Forall_forall in Hl. apply (neg_no_wrap i v Hu (Hl v Hv)).
Qed.

(** The maximum reduction of a non-empty list whose elements all exceed
    the bottom of the type is the largest element. *)
Lemma max_of_nonempty (i : IntType) (l : list Z) :
  l <> [] -> Forall (fun v => int_min i < v) l ->
  In (fold_left (max_acc i) l (lowest i)) l
  /\ Forall (fun v => v <= fold_left (max_acc i) l (lowest i)) l.
Proof.
  intros Hne Hl.
  pose proof (fold_max_spec i l (lowest i)) as (_ & Hub & Hin). cbv zeta in Hub, Hin.
  split; [|exact Hub].
  destruct Hin as [E|Hin]; [|exact Hin]. exfalso.
  set (r := fold_left (max_acc i) l (lowest i)) in *. clearbody r.
  destruct l as [|v l]; [now apply Hne|].
  apply Forall_inv in Hub. apply Forall_inv in Hl.
  change (lowest i) with (int_min i) in E. cbv beta in Hub, Hl.
  change (num i) with Z in *. lia.
Qed.

(** The two reductions of the reducer on a list within the signed range:
    the negated smallest element and the largest element. *)
Lemma minus_min_and_max_of_list (i : IntType) (l : list Z) :
  is_unsigned i = false -> l <> [] ->
  Forall (fun v => int_min i < v <= int_max i) l ->
  exists lo hi,
    fold_left (max_acc i) (map (sub i (zero i)) l) (lowest i) = - lo
    /\ fold_left (max_acc i) l (lowest i) = hi
    /\ In lo l /\ In hi l /\ Forall (fun v => lo <= v <= hi) l.
Proof.
  intros Hu Hne Hl. destruct (signed_bounds i Hu) as [Hm _].
  rewrite (map_neg_no_wrap i l Hu Hl).
  destruct (max_of_nonempty i l Hne) as [Hin Hub].
  { eapply Forall_impl; [|exact Hl]. cbv beta. intros v Hv. lia. }
  destruct (max_of_nonempty i (map Z.opp l)) as [Hin' Hub'].
  { destruct l; [now elim Hne | discriminate]. }
  { rewrite Forall_forall in *. intros v Hv. apply in_map_iff in Hv as (u & <- & Hu').
    specialize (Hl u Hu'). cbv beta in Hl. lia. }
  apply in_map_iff in Hin' as (lo & Elo & Hlo).
  exists lo, (fold_left (max_acc i) l (lowest i)).
  split; [now symmetry|]. split; [reflexivity|]. split; [exact Hlo|]. split; [exact Hin|].
  rewrite Forall_forall in *. intros v Hv. split; [|now apply Hub].
  specialize (Hub' (- v) (in_map Z.opp l v Hv)). cbv beta in Hub'. lia.
Qed.

(** X13: on a non-empty batch of a signed integer type, dense or sparse,
    none of whose elements is the minimum of the type, the collapsed
    Min/Max Reducer returns exactly the negation of the smallest element
    and the largest element, in the type of the batch. *)
Theorem minmax_signed_integers_exact
    (i : IntType) (x : TensorLike i) (a : ndarray Z) :
  is_unsigned i = false ->
  value (batch_values x) = Ok a ->
  data a <> [] ->
  Forall (fun v => int_min i < v <= int_max i) (data a) ->
  exists (minus_min max_ : Tensor i) (lo hi : Z),
    reduce_batch_minus_min_and_max x true = Ok (existT _ (IntT i) (minus_min, max_))
    /\ value minus_min = Ok (nd_scalar (- lo))
    /\ value max_ = Ok (nd_scalar hi)
    /\ In lo (data a) /\ In hi (data a)
    /\ Forall (fun v => lo <= v <= hi) (data a).
Proof.
  intros Hu Hx Hne Hl.
  destruct (minmax_int_values_signed i x a true Hu Hx) as (m & M & E & Hm & HM);
    [discriminate|].
  destruct (minus_min_and_max_of_list i (data a) Hu Hne Hl)
    as (lo & hi & Elo & Ehi & Hlo & Hhi & Hb).
  exists m, M, lo, hi. split; [exact E|].
  split; [|split; [|split; [exact Hlo | split; [exact Hhi | exact Hb]]]].
  - etransitivity; [exact Hm|]. cbn [axis_of nd_reduce nd_map data].
    apply (f_equal Ok), (f_equal nd_scalar). exact Elo.
  - etransitivity; [exact HM|]. cbn [axis_of nd_reduce].
    apply (f_equal Ok), (f_equal nd_scalar). exact Ehi.
Qed.

Lemma minmax_signed_integers_exact_witness :
  exists minus_min max_ : Tensor tf_int16,
    reduce_batch_minus_min_and_max (Dense (vector (t := tf_int16) [4; -7; 32767])) true
    = Ok (existT _ (IntT tf_int16) (minus_min, max_))
    /\ value minus_min = Ok (nd_scalar 7)
    /\ value max_ = Ok (nd_scalar 32767).
Proof.
  destruct (minmax_signed_integers_exact tf_int16
              (Dense (vector (t := tf_int16) [4; -7; 32767]))
              (mk_nd [3%nat] [4; -7; 32767]) eq_refl eq_refl)
    as (m & M & lo & hi & E & Hm & HM & Hlo & Hhi & Hb).
  - discriminate.
  - repeat constructor; vm_compute; congruence.
  - exists m, M. split; [exact E|].
    cbn [data] in Hlo, Hhi, Hb.
    assert (Elo : lo = -7).
    { inversion Hb as [|? ? H4 Hb']; subst. inversion Hb' as [|? ? H7 Hb'']; subst.
      cbn [In] in Hlo. lia. }
    assert (Ehi : hi = 32767).
    { inversion Hb as [|? ? H4 Hb']; subst. inversion Hb' as [|? ? H7 Hb'']; subst.
      inversion Hb'' as [|? ? H3 _]; subst. cbn [In] in Hhi. lia. }
    rewrite Elo in Hm. rewrite Ehi in HM. split; [exact Hm | exact HM].
Defined.

Lemma rows_Forall {A} (P : A -> Prop) (n k : nat) (l : list A) :
  Forall P l -> Forall (Forall P) (rows n k l).
Proof.
  revert l. induction n as [|n IH]; intros l Hl; cbn [rows]; constructor;
    rewrite <- (firstn_skipn k l) in Hl; apply Forall_app in Hl as [H1 H2].
  - exact H1.
  - now apply IH.
Qed.

Lemma cell_values_Forall {A} (P : A -> Prop) (j : nat) (rs : list (list A)) :
  Forall (Forall P) rs -> Forall P (cell_values j rs).
Proof.
  unfold cell_values. induction 1 as [|r rs Hr Hrs IH]; [constructor|].
  cbn [flat_map]. apply Forall_app. split; [|exact IH].
  destruct (nth_error r j) as [v|] eqn:E; [|constructor].
  constructor; [|constructor]. rewrite Forall_forall in Hr.
  apply Hr. eapply nth_error_In; eauto.
Qed.

(** X14: on a dense batch of at least one instance of a signed integer
    type, none of whose elements is the minimum of the type, the Min/Max
    Reducer in per-instance mode returns two tensors of the shape of one
    instance: at every instance position, the negation of the smallest and
    the largest of the elements the instances of the batch hold at that
    position. *)
Theorem minmax_dense_per_instance_position
    (i : IntType) (x : Tensor i) (a : ndarray Z) (n : nat) (inst : list nat) :
  is_unsigned i = false ->
  value x = Ok a -> is_batch a n inst -> n <> O ->
  Forall (fun v => int_min i < v <= int_max i) (data a) ->
  exists (minus_min max_ : Tensor i) (rm rM : list Z),
    reduce_batch_minus_min_and_max (Dense x) false
    = Ok (existT _ (IntT i) (minus_min, max_))
    /\ value minus_min = Ok (mk_nd inst rm)
    /\ value max_ = Ok (mk_nd inst rM)
    /\ forall j, (j < prod_dims inst)%nat ->
         exists lo hi,
           nth_error rm j = Some (- lo) /\ nth_error rM j = Some hi
           /\ In lo (cell_values j (rows n (prod_dims inst) (data a)))
           /\ In hi (cell_values j (rows n (prod_dims inst) (data a)))
           /\ Forall (fun v => lo <= v <= hi)
                     (cell_values j (rows n (prod_dims inst) (data a))).
Proof.
  intros Hu Hx Hb Hn Hl.
  destruct (minmax_int_values_signed i (Dense x) a false Hu Hx) as (m & M & E & Hm & HM).
  { intros _. split; [now exists x|]. exists n, inst. apply Hb. }
  destruct (nd_reduce_batch_axis (max_acc i) (lowest i) (nd_map (sub i (zero i)) a) n inst
              (is_batch_map _ _ _ _ Hb)) as (rm & Erm & _ & Hrm).
  destruct (nd_reduce_batch_axis (max_acc i) (lowest i) a n inst Hb)
    as (rM & ErM & _ & HrM).
  exists m, M, rm, rM. split; [exact E|].
  split; [etransitivity; [exact Hm | exact Erm]|].
  split; [etransitivity; [exact HM | exact ErM]|].
  intros j Hj.
  set (cell := cell_values j (rows n (prod_dims inst) (data a))).
  assert (Hcell : Forall (fun v => int_min i < v <= int_max i) cell).
  { apply cell_values_Forall, rows_Forall, Hl. }
  assert (Hne : cell <> []).
  { destruct Hb as [_ Hlen]. intros E0.
    pose proof (cell_values_length (prod_dims inst) j _
                  (rows_lengths n _ (data a) Hlen) Hj) as Hc.
    fold cell in Hc. rewrite E0, rows_count in Hc. cbn in Hc. lia. }
  destruct (minus_min_and_max_of_list i cell Hu Hne Hcell)
    as (lo & hi & Elo & Ehi & Hlo & Hhi & Hbd).
  exists lo, hi. split; [|split; [|split; [exact Hlo | split; [exact Hhi | exact Hbd]]]].
  - etransitivity; [exact (Hrm j Hj)|]. apply f_equal.
    cbn [nd_map data]. rewrite rows_map, cell_values_map. exact Elo.
  - etransitivity; [exact (HrM j Hj)|]. apply f_equal. exact Ehi.
Qed.

Lemma minmax_dense_per_instance_position_witness :
  exists (minus_min max_ : Tensor tf_int32) (rm rM : list Z),
    reduce_batch_minus_min_and_max
      (Dense (constant_array (t := tf_int32) (mk_nd [2%nat; 2%nat] [1; -5; 3; 8]))) false
    = Ok (existT _ (IntT tf_int32) (minus_min, max_))
    /\ value minus_min = Ok (mk_nd [2%nat] rm)
    /\ value max_ = Ok (mk_nd [2%nat] rM).
Proof.
  destruct (minmax_dense_per_instance_position tf_int32
              (constant_array (t := tf_int32) (mk_nd [2%nat; 2%nat] [1; -5; 3; 8]))
              (mk_nd [2%nat; 2%nat] [1; -5; 3; 8]) 2 [2%nat] eq_refl eq_refl
              (conj eq_refl eq_refl))
    as (m & M & rm & rM & E & Hm & HM & _).
  - discriminate.
  - repeat constructor; vm_compute; congruence.
  - exists m, M, rm, rM. split; [exact E|]. split; [exact Hm | exact HM].
Defined.

(** X15: the negation behind the first field wraps at the minimum of a
    signed type.  On a non-empty batch whose elements are in range, the
    collapsed first field is the type's minimum itself when every element is
    that minimum; otherwise it is the negation of the smallest element that
    is not the minimum, even when the minimum occurs in the batch. *)
Theorem minmax_negation_wraps_at_minimum
    (i : IntType) (x : TensorLike i) (a : ndarray Z) :
  is_unsigned i = false ->
  value (batch_values x) = Ok a ->
  data a <> [] ->
  Forall (fun v => int_min i <= v <= int_max i) (data a) ->
  exists (minus_min max_ : Tensor i) (r : Z),
    reduce_batch_minus_min_and_max x true = Ok (existT _ (IntT i) (minus_min, max_))
    /\ value minus_min = Ok (nd_scalar r)
    /\ (Forall (fun v => v = int_min i) (data a) -> r = int_min i)
    /\ (Exists (fun v => v <> int_min i) (data a) ->
        exists lo, r = - lo /\ In lo (data a) /\ lo <> int_min i
                   /\ Forall (fun v => v = int_min i \/ lo <= v) (data a)).
Proof.
  intros Hu Hx Hne Hl. destruct (signed_bounds i Hu) as [Hm0 _].
  destruct (minmax_int_values_signed i x a true Hu Hx) as (m & M & E & Hm & _);
    [discriminate|].
  exists m, M, (fold_left (max_acc i) (map (sub i (zero i)) (data a)) (lowest i)).
  split; [exact E|]. split; [exact Hm|].
  set (g := sub i (zero i)).
  assert (Hg : forall v, int_min i <= v <= int_max i ->
                 (v = int_min i /\ g v = int_min i) \/ (v <> int_min i /\ g v = - v)).
  { intros v Hv. destruct (Z.eq_dec v (int_min i)) as [->|Hn].
    - left. split; [reflexivity | now apply neg_wraps_at_min].
    - right. split; [exact Hn|]. apply neg_no_wrap; [exact Hu | lia]. }
  pose proof (fold_max_spec i (map g (data a)) (lowest i)) as (Hlow & Hub & Hin).
  cbv zeta in Hlow, Hub, Hin.
  set (r := fold_left (max_acc i) (map g (data a)) (lowest i)) in *. clearbody r.
  change (lowest i) with (int_min i) in *. change (num i) with Z in *.
  rewrite Forall_forall in Hl, Hub.
  assert (Hr : r = int_min i \/ exists v, In v (data a) /\ r = g v).
  { destruct Hin as [->|Hin]; [now left|]. right.
    apply in_map_iff in Hin as (v & <- & Hv). now exists v. }
  split.
  - intros Hall. rewrite Forall_forall in Hall.
    destruct Hr as [Hr|(v & Hv & ->)]; [exact Hr|].
    rewrite (Hall v Hv). now apply neg_wraps_at_min.
  - intros Hex. apply Exists_exists in Hex as (v0 & Hv0 & Hn0).
    assert (H0 : - v0 <= r).
    { specialize (Hub (g v0) (in_map g _ v0 Hv0)). cbv beta in Hub.
      destruct (Hg v0 (Hl v0 Hv0)) as [[? _]|[_ Eg]]; [contradiction | lia]. }
    pose proof (Hl v0 Hv0) as Hb0. cbv beta in Hb0.
    destruct Hr as [Hr|(v & Hv & Er)]; [lia|].
    destruct (Hg v (Hl v Hv)) as [[_ Eg]|[Hnv Eg]]; [lia|].
    exists v. split; [lia|]. split; [exact Hv|]. split; [exact Hnv|].
    apply Forall_forall. intros u Hu0.
    destruct (Hg u (Hl u Hu0)) as [[Eu _]|[_ Eg']]; [now left|]. right.
    specialize (Hub (g u) (in_map g _ u Hu0)). cbv beta in Hub. lia.
Qed.

Lemma minmax_negation_wraps_at_minimum_witness :
  exists (minus_min max_ : Tensor tf_int8) (r : Z),
    reduce_batch_minus_min_and_max (Dense (vector (t := tf_int8) [-128; 5])) true
    = Ok (existT _ (IntT tf_int8) (minus_min, max_))
    /\ value minus_min = Ok (nd_scalar r)
    /\ exists lo, r = - lo /\ In lo [-128; 5] /\ lo <> -128.
Proof.
  destruct (minmax_negation_wraps_at_minimum tf_int8
              (Dense (vector (t := tf_int8) [-128; 5])) (mk_nd [2%nat] [-128; 5])
              eq_refl eq_refl)
    as (m & M & r & E & Hm & _ & H).
  - discriminate.
  - repeat constructor; vm_compute; congruence.
  - exists m, M, r. split; [exact E|]. split; [exact Hm|].
    destruct H as (lo & Hr & Hin & Hn & _).
    + apply Exists_cons_tl, Exists_cons_hd. discriminate.
    + exists lo. split; [exact Hr|]. split; [exact Hin | exact Hn].
Defined.

(** ** Remapping of infinities *)

Lemma nd_broadcast2_scalar_any {A B C} (f : A -> B -> C) (a : ndarray A) (c : B) :
  wf_nd a ->
  nd_broadcast2 f a (nd_scalar c) = Ok (mk_nd (shape a) (map (fun v => f v c) (data a))).
Proof.
  intros Hwf. unfold wf_nd in Hwf. destruct a as [sh l]. cbn [shape data] in *.
  destruct sh as [|n inst].
  - destruct l as [|v [|? ?]]; try discriminate Hwf. reflexivity.
  - unfold nd_broadcast2, shape_eqb. cbn [shape data nd_scalar is_suffix].
    destruct (list_eq_dec Nat.eq_dec (n :: inst) []) as [E|_]; [discriminate E|].
    destruct (list_eq_dec Nat.eq_dec [] (n :: inst)) as [E|_]; [discriminate E|].
    now rewrite is_suffix_nil, cycle_singleton, map2_repeat_r.
Qed.

Lemma inf_remapped_value (f : FloatType) (t : Tensor f) (a : ndarray spec_float) :
  value t = Ok a -> wf_nd a ->
  value (inf_remapped t)
  = Ok (nd_map (fun v => if SFis_inf v then S754_nan else v) a).
Proof.
  intros Ht Hwf. unfold inf_remapped, tf_where, tf_is_inf, tf_add, lift1, lift2,
    nan_constant, constant_array, placeholder. cbn [value]. rewrite Ht. cbn [bind].
  rewrite nd_broadcast2_scalar_any by exact Hwf. cbn [bind].
  unfold nd_where, nd_map. cbn [shape data]. rewrite !shape_eqb_refl. cbn [andb].
  pose proof (where_select (is_inf f) (fun v => add f v S754_nan) (data a)) as Hsel.
  etransitivity; [exact (f_equal (fun r => Ok (mk_nd (shape a) r)) Hsel)|].
  apply (f_equal Ok), (f_equal (mk_nd _)). apply map_ext. intros v.
  cbn [is_inf add]. now rewrite SFadd_nan_r.
Qed.

Lemma inf_remapped_static_shape (f : FloatType) (t : Tensor f) :
  static_shape (inf_remapped t) = static_shape t.
Proof.
  unfold inf_remapped, tf_where, tf_add, lift2, nan_constant, constant_array, placeholder,
    static_broadcast, known_shape.
  cbn [static_shape shape nd_scalar map]. destruct (static_shape t) as [da|]; [|reflexivity].
  now destruct da.
Qed.

(** X16: [_inf_to_nan] changes infinities and nothing else.  An integer
    tensor is returned as it is, whatever the output type.  On a floating
    tensor, with its own type as output type, the result has the same static
    shape and evaluates to the same array with every infinite element
    replaced by NaN and every other element unchanged; with any other output
    type the call raises [TypeError] while the graph is built. *)
Theorem inf_to_nan_changes_only_infinities :
  (forall (i : IntType) (t : Tensor i) (out : NumType), _inf_to_nan t out = Ok t)
  /\ (forall (f : FloatType) (t : Tensor f) (a : ndarray spec_float),
         value t = Ok a -> wf_nd a ->
         exists t' : Tensor f,
           _inf_to_nan t f = Ok t'
           /\ static_shape t' = static_shape t
           /\ value t' = Ok (nd_map (fun v => if SFis_inf v then S754_nan else v) a))
  /\ (forall (f : FloatType) (t : Tensor f) (out : NumType),
         out <> FloatT f -> _inf_to_nan t out = Raise TypeError).
Proof.
  split; [|split].
  - intros i t out. reflexivity.
  - intros f t a Ht Hwf. exists (inf_remapped t).
    split; [apply inf_to_nan_float|]. split; [apply inf_remapped_static_shape|].
    now apply inf_remapped_value.
  - intros f t out Hne. unfold _inf_to_nan. cbn [is_floating].
    destruct out as [i|g]; [reflexivity|]. cbn [tf_constant_nan nan_of bind].
    unfold tensor_add. destruct (NumType_eq_dec g f) as [E|_]; [|reflexivity].
    congruence.
Qed.

Lemma inf_to_nan_changes_only_infinities_witness :
  exists t' : Tensor tf_float32,
    _inf_to_nan (vector (t := tf_float32)
                   [S754_infinity false; of_Z tf_float32 1; S754_nan; S754_infinity true])
                tf_float32 = Ok t'
    /\ value t'
       = Ok (mk_nd [4%nat] [S754_nan; of_Z tf_float32 1; S754_nan; S754_nan]).
Proof.
  destruct (proj1 (proj2 inf_to_nan_changes_only_infinities) tf_float32
              (vector (t := tf_float32)
                 [S754_infinity false; of_Z tf_float32 1; S754_nan; S754_infinity true])
              (mk_nd [4%nat]
                 [S754_infinity false; of_Z tf_float32 1; S754_nan; S754_infinity true])
              eq_refl eq_refl) as (t' & E & _ & Hv).
  exists t'. split; [exact E | exact Hv].
Defined.

(** ** Batches without a valid element *)

Lemma fold_max_all_nan (f : FloatType) (l : list spec_float) (acc : spec_float) :
  Forall (fun v => v = S754_nan) l -> fold_left (max_acc f) l acc = acc.
Proof.
  intros Hl. revert acc. induction Hl as [|v l Hv Hl IH]; intros acc; [reflexivity|].
  cbn [fold_left]. subst v. rewrite <- (IH acc) at 2. f_equal.
  unfold max_acc, ltb. now destruct acc as [[]|[]| |[] ? ?].
Qed.

Lemma map_sub_all_nan (f : FloatType) (c : spec_float) (l : list spec_float) :
  Forall (fun v => v = S754_nan) l ->
  Forall (fun v => v = S754_nan) (map (sub f c) l).
Proof.
  induction 1 as [|v l Hv Hl IH]; cbn [map]; constructor; [|exact IH].
  subst v. cbn [sub]. now destruct c as [[]|[]| |[] ? ?].
Qed.

(** X17: a dense floating batch without a valid element (empty, or all
    NaN) has no minimum and no maximum: the collapsed Min/Max Reducer
    returns NaN in both fields.  (The maximum reductions yield minus
    infinity, which is then remapped to NaN.) *)
Theorem minmax_of_all_nan_batch_is_nan
    (f : FloatType) (x : Tensor f) (a : ndarray spec_float) :
  value x = Ok a ->
  Forall (fun v => v = S754_nan) (data a) ->
  exists minus_min max_ : Tensor f,
    reduce_batch_minus_min_and_max (Dense x) true
    = Ok (existT _ (FloatT f) (minus_min, max_))
    /\ value minus_min = Ok (nd_scalar S754_nan)
    /\ value max_ = Ok (nd_scalar S754_nan).
Proof.
  intros Hx Hnan.
  assert (HM : value (tf_reduce_max x None) = Ok (nd_scalar (S754_infinity true))).
  { unfold tf_reduce_max, lift1. cbn [value]. rewrite Hx. cbn [bind nd_reduce].
    apply (f_equal Ok), (f_equal nd_scalar). now apply fold_max_all_nan. }
  assert (Hm : value (tf_reduce_max (tf_subtract (tf_zeros_like x f) x) None)
               = Ok (nd_scalar (S754_infinity true))).
  { unfold tf_reduce_max, tf_subtract, tf_zeros_like, lift1, lift2. cbn [value].
    rewrite Hx. cbn [bind nd_map shape data]. unfold nd_broadcast2. cbn [shape data].
    rewrite shape_eqb_refl. cbn [bind nd_reduce data].
    apply (f_equal Ok), (f_equal nd_scalar).
    unfold nd_map. cbn [data]. rewrite map2_map_l, map2_diag. apply fold_max_all_nan.
    apply (map_sub_all_nan f (zero f)), Hnan. }
  unfold reduce_batch_minus_min_and_max.
  destruct f; cbn -[assert_same_shape tf_reduce_max tf_subtract tf_zeros_like _inf_to_nan].
  all: match goal with
       | |- context [assert_same_shape ?p ?q] =>
           destruct (assert_same_shape_ok p q eq_refl) as (mm & Emm & _ & Hmm);
           specialize (Hmm _ _ Hm HM eq_refl)
       end.
  all: rewrite Emm; cbn [bind]; rewrite !inf_to_nan_float; cbn [bind].
  all: eexists _, _; split; [reflexivity|].
  all: split; (etransitivity; [apply inf_remapped_value; [eassumption | reflexivity] |]);
    reflexivity.
Qed.

Lemma minmax_of_all_nan_batch_is_nan_witness :
  exists minus_min max_ : Tensor tf_float64,
    reduce_batch_minus_min_and_max (Dense (vector (t := tf_float64) [S754_nan; S754_nan]))
      true
    = Ok (existT _ (FloatT tf_float64) (minus_min, max_))
    /\ value minus_min = Ok (nd_scalar S754_nan)
    /\ value max_ = Ok (nd_scalar S754_nan).
Proof.
  apply (minmax_of_all_nan_batch_is_nan tf_float64
           (vector (t := tf_float64) [S754_nan; S754_nan])
           (mk_nd [2%nat] [S754_nan; S754_nan]) eq_refl).
  repeat constructor.
Defined.

(** ** Per-column minimum and maximum of a sparse batch *)

Lemma sparse_minmax_signed (i : IntType) (sp : SparseTensor i)
    (coords : list (Z * Z)) (vs : list Z) (nrows ncols : Z) :
  is_unsigned i = false ->
  sparse_repr sp coords vs nrows ncols ->
  exists minus_min max_ : Tensor i,
    reduce_batch_minus_min_and_max (Sparse sp) false
    = Ok (existT _ (IntT i) (minus_min, max_))
    /\ value minus_min
       = Ok (mk_nd [Z.to_nat ncols] (column_cells (d := i) coords (map (sub i (zero i)) vs) ncols))
    /\ value max_ = Ok (mk_nd [Z.to_nat ncols] (column_cells (d := i) coords vs ncols)).
Proof.
  intros Hu H.
  destruct (sparse_minmax_columns sp coords vs nrows ncols H) as (m & M & E & Hm & HM).
  exists m, M. split; [|split; [exact Hm | exact HM]].
  destruct i; try discriminate Hu; unfold reduce_batch_minus_min_and_max;
    cbn -[_sparse_minus_reduce_min_and_reduce_max]; rewrite E; reflexivity.
Qed.

Lemma column_cell_nonempty (i : IntType) (count : nat) (g : list Z) :
  g <> [] -> (0 < count)%nat -> Z.of_nat count <= int_max tf_int64 ->
  column_cell i (wrap tf_int64 (Z.of_nat count)) g = fold_left (max_acc i) g (lowest i).
Proof.
  intros Hg Hc Hle. unfold column_cell.
  assert (Hmin : int_min tf_int64 <= 0) by (vm_compute; discriminate).
  rewrite (wrap_small tf_int64) by lia.
  change (eqb tf_int64 (Z.of_nat count) (of_Z tf_int64 0)) with (Z.of_nat count =? 0).
  destruct (Z.eqb_spec (Z.of_nat count) 0) as [E|_]; [lia|].
  destruct g; [now elim Hg | reflexivity].
Qed.

(** X18: per-column Min/Max of a sparse batch of a signed integer type.
    For every column that stores at least one value (and fewer than 2^63),
    none of them the minimum of the type, the two fields hold at that column
    the negation of the smallest and the largest of the values stored in the
    column; the sentinel is written only for columns without entries. *)
Theorem sparse_minmax_of_nonempty_column
    (i : IntType) (sp : SparseTensor i)
    (coords : list (Z * Z)) (vs : list Z) (nrows ncols c : Z) :
  is_unsigned i = false ->
  sparse_repr sp coords vs nrows ncols ->
  0 <= c < ncols ->
  column_values (Z.to_nat c) coords vs <> [] ->
  Z.of_nat (List.length (column_values (Z.to_nat c) coords vs)) <= int_max tf_int64 ->
  Forall (fun v => int_min i < v <= int_max i) (column_values (Z.to_nat c) coords vs) ->
  exists (minus_min max_ : Tensor i) (am aM : ndarray Z) (lo hi : Z),
    reduce_batch_minus_min_and_max (Sparse sp) false
    = Ok (existT _ (IntT i) (minus_min, max_))
    /\ value minus_min = Ok am /\ value max_ = Ok aM
    /\ nth_error (data am) (Z.to_nat c) = Some (- lo)
    /\ nth_error (data aM) (Z.to_nat c) = Some hi
    /\ In lo (column_values (Z.to_nat c) coords vs)
    /\ In hi (column_values (Z.to_nat c) coords vs)
    /\ Forall (fun v => lo <= v <= hi) (column_values (Z.to_nat c) coords vs).
Proof.
  intros Hu H Hc Hne Hlen Hl.
  destruct (sparse_minmax_signed i sp coords vs nrows ncols Hu H) as (m & M & E & Hm & HM).
  set (col := column_values (Z.to_nat c) coords vs) in *.
  destruct (minus_min_and_max_of_list i col Hu Hne Hl)
    as (lo & hi & Elo & Ehi & Hlo & Hhi & Hb).
  assert (Hpos : (0 < List.length col)%nat).
  { destruct col; [now elim Hne | cbn; lia]. }
  exists m, M. eexists _, _. exists lo, hi.
  split; [exact E|]. split; [exact Hm|]. split; [exact HM|].
  split; [|split; [|split; [exact Hlo | split; [exact Hhi | exact Hb]]]].
  - cbn [data]. unfold column_cells. rewrite nth_error_map_seq by lia. apply f_equal.
    rewrite column_count_map, column_count_length, column_values_map. fold col.
    rewrite column_cell_nonempty; [exact Elo | | exact Hpos | exact Hlen].
    intros E0. apply map_eq_nil in E0. contradiction.
  - cbn [data]. unfold column_cells. rewrite nth_error_map_seq by lia. apply f_equal.
    rewrite column_count_length. fold col.
    rewrite column_cell_nonempty; [exact Ehi | exact Hne | exact Hpos | exact Hlen].
Qed.

Lemma sparse_minmax_of_nonempty_column_witness :
  exists (minus_min max_ : Tensor tf_int64) (am aM : ndarray Z),
    reduce_batch_minus_min_and_max
      (Sparse (tf_SparseTensor (d := tf_int64)
                 (constant_array (t := tf_int64) (mk_nd [3%nat; 2%nat] [0; 0; 1; 0; 1; 2]))
                 (vector (t := tf_int64) [4; -9; 7])
                 (vector (t := tf_int64) [2; 3]))) false
    = Ok (existT _ (IntT tf_int64) (minus_min, max_))
    /\ value minus_min = Ok am /\ value max_ = Ok aM
    /\ nth_error (data am) 0 = Some 9
    /\ nth_error (data aM) 0 = Some 4.
Proof.
  destruct (sparse_minmax_of_nonempty_column tf_int64
              (tf_SparseTensor (d := tf_int64)
                 (constant_array (t := tf_int64) (mk_nd [3%nat; 2%nat] [0; 0; 1; 0; 1; 2]))
                 (vector (t := tf_int64) [4; -9; 7])
                 (vector (t := tf_int64) [2; 3]))
              [(0, 0); (1, 0); (1, 2)] [4; -9; 7] 2 3 0 eq_refl)
    as (m & M & am & aM & lo & hi & E & Hm & HM & Hcm & HcM & Hlo & Hhi & Hb).
  - unfold sparse_repr. repeat split; try reflexivity.
    repeat constructor; simpl; lia.
  - lia.
  - vm_compute. discriminate.
  - vm_compute. discriminate.
  - change (Forall (fun v => int_min tf_int64 < v <= int_max tf_int64) [4; -9]).
    repeat constructor; vm_compute; congruence.
  - exists m, M, am, aM. split; [exact E|]. split; [exact Hm|]. split; [exact HM|].
    change (column_values (Z.to_nat 0) [(0, 0); (1, 0); (1, 2)] [4; -9; 7])
      with [4; -9] in Hlo, Hhi, Hb.
    inversion Hb as [|? ? H4 Hb']; subst. inversion Hb' as [|? ? H9 _]; subst.
    cbn [In] in Hlo, Hhi.
    assert (Elo : lo = -9) by lia. assert (Ehi : hi = 4) by lia.
    rewrite Elo in Hcm. rewrite Ehi in HcM. split; [exact Hcm | exact HcM].
Defined.

(** ** Mean and variance without a valid element *)

Lemma fold_add_zeros (f : FloatType) (l : list spec_float) :
  Forall (fun v => v = S754_zero false) l ->
  fold_left (add f) l (S754_zero false) = S754_zero false.
Proof.
  induction 1 as [|v l Hv Hl IH]; [reflexivity|].
  cbn [fold_left]. subst v. exact IH.
Qed.

Lemma sum_of_all_nan (f : FloatType) (y : Tensor f) (b : ndarray spec_float) :
  value y = Ok b ->
  Forall (fun v => v = S754_nan) (data b) ->
  value (reduce_batch_sum (Dense y) true) = Ok (nd_scalar (S754_zero false)).
Proof.
  intros Hy Hnan. rewrite (reduce_batch_sum_dense y b true Hy).
  cbn [axis_of nd_reduce nd_map data]. apply (f_equal Ok), (f_equal nd_scalar).
  apply fold_add_zeros. apply Forall_map.
  eapply Forall_impl; [|exact Hnan]. intros v ->.
  unfold nan_to_zero. now rewrite elem_is_nan_float.
Qed.

Lemma count_of_all_nan (f : FloatType) (y : Tensor f) (b : ndarray spec_float) :
  value y = Ok b ->
  Forall (fun v => v = S754_nan) (data b) ->
  value (reduce_batch_count (Dense y) true) = Ok (nd_scalar (S754_zero false)).
Proof.
  intros Hy Hnan.
  etransitivity; [exact (reduce_batch_count_dense y b true Hy)|].
  cbn [axis_of nd_reduce nd_map data]. apply (f_equal Ok), (f_equal nd_scalar).
  apply fold_add_zeros. apply Forall_map.
  eapply Forall_impl; [|exact Hnan]. intros v ->.
  unfold valid_indicator. now rewrite elem_is_nan_float.
Qed.

Lemma cast_same_float (f : FloatType) (v : spec_float) : cast f f v = v.
Proof. cbn [cast]. destruct (FloatType_eq_dec f f); [reflexivity | congruence]. Qed.

Lemma zero_div_zero (f : FloatType) :
  fdiv f (S754_zero false) (S754_zero false) = S754_nan.
Proof. reflexivity. Qed.

Lemma subtract_nan_all_nan (f : FloatType) (a : ndarray spec_float) :
  exists r : ndarray spec_float,
    nd_broadcast2 (sub f) a (nd_scalar S754_nan) = Ok r
    /\ Forall (fun v => v = S754_nan) (data r).
Proof.
  assert (Hs : forall l m, Forall (fun v => v = S754_nan) m ->
                 Forall (fun v => v = S754_nan) (map2 (sub f) l m)).
  { intros l m Hm. revert l. induction Hm as [|b m Hb Hm IH]; intros [|u l];
      cbn [map2]; constructor; auto.
    subst b. cbn [sub]. now destruct u as [[]|[]| |[] ? ?]. }
  unfold nd_broadcast2. cbn [shape data nd_scalar].
  match goal with
  | |- context [shape_eqb ?s ?t] => destruct (shape_eqb s t)
  end.
  - eexists. split; [reflexivity|]. cbn [data]. apply Hs. repeat constructor.
  - rewrite is_suffix_nil. eexists. split; [reflexivity|]. cbn [data].
    apply Hs, cycle_Forall. repeat constructor.
Qed.

Lemma zero_sum_over_zero_count (f : FloatType) (s c : Tensor f) :
  value s = Ok (nd_scalar (S754_zero false)) ->
  value c = Ok (nd_scalar (S754_zero false)) ->
  value (tf_realdiv s c) = Ok (nd_scalar S754_nan).
Proof. intros Hs Hc. unfold tf_realdiv, lift2. cbn [value]. now rewrite Hs, Hc. Qed.

Lemma tf_subtract_nan (f : FloatType) (x mean : Tensor f) (a : ndarray spec_float) :
  value x = Ok a -> value mean = Ok (nd_scalar S754_nan) ->
  exists r : ndarray spec_float,
    value (tf_subtract x mean) = Ok r /\ Forall (fun v => v = S754_nan) (data r).
Proof.
  intros Hx Hm. unfold tf_subtract, lift2. cbn [value]. rewrite Hx, Hm. cbn [bind].
  exact (subtract_nan_all_nan f a).
Qed.

Lemma tf_square_nan (f : FloatType) (y : Tensor f) (r : ndarray spec_float) :
  value y = Ok r -> Forall (fun v => v = S754_nan) (data r) ->
  exists q : ndarray spec_float,
    value (tf_square y) = Ok q /\ Forall (fun v => v = S754_nan) (data q).
Proof.
  intros Hy Hr. unfold tf_square, lift1. cbn [value]. rewrite Hy. cbn [bind].
  eexists. split; [reflexivity|]. cbn [nd_map data]. apply Forall_map.
  eapply Forall_impl; [|exact Hr]. intros v ->. reflexivity.
Qed.

(** X19: a dense floating batch without a valid element (empty, or all
    NaN) has, collapsed, count 0 and, the sum 0 being divided by the count
    0, mean NaN and variance NaN. *)
Theorem mean_var_of_all_nan_batch
    (f : FloatType) (x : Tensor f) (a : ndarray spec_float) :
  value x = Ok a ->
  Forall (fun v => v = S754_nan) (data a) ->
  exists count mean var : Tensor f,
    reduce_batch_count_mean_and_var (Dense x) true = Ok (count, mean, var)
    /\ value count = Ok (nd_scalar (S754_zero false))
    /\ value mean = Ok (nd_scalar S754_nan)
    /\ value var = Ok (nd_scalar S754_nan).
Proof.
  intros Hx Hnan.
  set (count := tf_cast (reduce_batch_count (Dense x) true) f).
  set (mean := tf_realdiv (reduce_batch_sum (Dense x) true) count).
  set (var := tf_realdiv
                (reduce_batch_sum (Dense (tf_square (tf_subtract x mean))) true) count).
  exists count, mean, var. split; [reflexivity|].
  assert (Hcount : value count = Ok (nd_scalar (S754_zero false))).
  { unfold count, tf_cast, lift1. cbn [value].
    rewrite (count_of_all_nan f x a Hx Hnan). cbn [bind].
    apply (f_equal Ok). unfold nd_map, nd_scalar. cbn [shape data map].
    apply (f_equal (mk_nd [])), (f_equal (fun v => [v])).
    exact (cast_same_float f (S754_zero false)). }
  assert (Hmean : value mean = Ok (nd_scalar S754_nan)).
  { unfold mean. apply zero_sum_over_zero_count; [|exact Hcount].
    exact (sum_of_all_nan f x a Hx Hnan). }
  split; [exact Hcount|]. split; [exact Hmean|].
  destruct (tf_subtract_nan f x mean a Hx Hmean) as (r & Er & Hr).
  destruct (tf_square_nan f _ r Er Hr) as (q & Eq & Hq).
  unfold var. apply zero_sum_over_zero_count; [|exact Hcount].
  exact (sum_of_all_nan f _ q Eq Hq).
Qed.

Lemma mean_var_of_all_nan_batch_witness :
  exists count mean var : Tensor tf_float32,
    reduce_batch_count_mean_and_var (Dense (vector (t := tf_float32) [S754_nan])) true
    = Ok (count, mean, var)
    /\ value count = Ok (nd_scalar (S754_zero false))
    /\ value mean = Ok (nd_scalar S754_nan)
    /\ value var = Ok (nd_scalar S754_nan).
Proof.
  apply (mean_var_of_all_nan_batch tf_float32 (vector (t := tf_float32) [S754_nan])
           (mk_nd [1%nat] [S754_nan]) eq_refl).
  repeat constructor.
Defined.

(** ** Mean and variance of a sparse batch, per column *)

Lemma rows_singletons {A} (l : list A) :
  rows (List.length l) 1 l = map (fun v => [v]) l.
Proof.
  induction l as [|a l IH]; [reflexivity|].
  cbn [List.length rows map firstn skipn]. rewrite IH. reflexivity.
Qed.

Lemma nd_column_coords (coords : list (Z * Z)) :
  nd_column (mk_nd [List.length coords; 2%nat] (flat_map coord_row coords)) 1
  = Ok (mk_nd [List.length coords] (map snd coords)).
Proof.
  unfold nd_column. cbn [shape data]. rewrite rows_coords, map_map.
  cbn [coord_row nth_error].
  assert (Hall : forallb (fun c : option Z => match c with Some _ => true | None => false end)
                   (map (fun x : Z * Z => Some (snd x)) coords) = true).
  { induction coords as [|rc coords IH]; [reflexivity | exact IH]. }
  rewrite Hall. apply (f_equal Ok), (f_equal (mk_nd _)). clear Hall.
  induction coords as [|rc coords IH]; [reflexivity|].
  cbn [map flat_map app]. rewrite IH. reflexivity.
Qed.

Lemma gather_rows_singletons {A} (g : nat -> A) (n : nat) (ids : list Z) :
  Forall (fun j => 0 <= j < Z.of_nat n) ids ->
  gather_rows (map (fun v => [v]) (map g (seq 0 n))) ids
  = Some (map (fun j => g (Z.to_nat j)) ids).
Proof.
  induction 1 as [|j ids Hj Hids IH]; [reflexivity|].
  cbn [gather_rows map]. destruct (Z.ltb_spec j 0) as [Hneg|_]; [lia|].
  rewrite IH, nth_error_map, nth_error_map_seq by lia. reflexivity.
Qed.

Lemma nd_gather_vector {A} (g : nat -> A) (n : nat) (ids : list Z) :
  Forall (fun j => 0 <= j < Z.of_nat n) ids ->
  nd_gather (mk_nd [n] (map g (seq 0 n))) (mk_nd [List.length ids] ids)
  = Ok (mk_nd [List.length ids] (map (fun j => g (Z.to_nat j)) ids)).
Proof.
  intros Hids. unfold nd_gather. cbn [shape data prod_dims fold_right].
  replace (rows n 1 (map g (seq 0 n)))
    with (map (fun v => [v]) (map g (seq 0 n))).
  - now rewrite (gather_rows_singletons g n ids Hids).
  - rewrite <- rows_singletons. now rewrite length_map, length_seq.
Qed.

Lemma reduce_rows_singletons {A} (op : A -> A -> A) (init : A) (l : list A) :
  reduce_rows op init 1 (map (fun v => [v]) l) = [fold_left op l init].
Proof.
  unfold reduce_rows. cbn [repeat]. revert init.
  induction l as [|a l IH]; intros init; [reflexivity|].
  cbn [map fold_left map2]. apply IH.
Qed.

(** The Sum Reducer along the batch axis of a rank-1 tensor: one scalar,
    the sum of all elements with NaN replaced by zero. *)
Lemma sum_of_vector_along_batch_axis (f : FloatType) (y : Tensor f)
    (l : list spec_float) :
  value y = Ok (mk_nd [List.length l] l) ->
  value (reduce_batch_sum (Dense y) false)
  = Ok (nd_scalar (fold_left (add f) (map (nan_to_zero f) l) (zero f))).
Proof.
  intros Hy. rewrite (reduce_batch_sum_dense y _ false Hy).
  cbn [axis_of nd_reduce nd_map shape data reduce_axis remove_nth prod_dims fold_right].
  assert (E : rows (List.length l) 1 (map (nan_to_zero f) l)
              = map (fun v => [v]) (map (nan_to_zero f) l)).
  { rewrite <- rows_singletons. now rewrite length_map. }
  etransitivity;
    [exact (f_equal (fun r => Ok (mk_nd [] (reduce_rows (add f) (zero f) 1 r))) E)|].
  apply (f_equal Ok), (f_equal (mk_nd [])). apply reduce_rows_singletons.
Qed.



(** ** The vocabulary of an empty batch *)

(** X21: an empty batch has an empty vocabulary.  Under ordering
    [WEIGHTED_FREQUENCY], for a batch without elements (of any shape) and
    weights of the same shape, the graph is built, and the unique values
    and the summed weights both evaluate to the empty vector. *)
Theorem vocabulary_of_empty_batch
    (t : DType) (dw : NumType) (x : Tensor t) (w : Tensor dw)
    (ax : ndarray (carrier t)) (aw : ndarray (num dw)) :
  is_compatible_with (static_shape x) (static_shape w) = true ->
  value x = Ok ax -> value w = Ok aw ->
  shape ax = shape aw -> wf_nd ax -> wf_nd aw ->
  data ax = [] ->
  exists (u : Tensor t) (sw : Tensor dw),
    reduce_batch_vocabulary x WEIGHTED_FREQUENCY (Some (existT _ dw w)) None
    = Ok (u, Some (existT _ dw sw), None, None)
    /\ value u = Ok (mk_nd [O] [])
    /\ value sw = Ok (mk_nd [O] []).
Proof.
  intros Hc Hx Hw Hs Hwx Hww Hempty.
  destruct (weighted_frequency_pipeline x w None Hc) as (x2 & E & Hx2).
  specialize (Hx2 ax aw Hx Hw Hs).
  pose proof (flat_value w aw Hw) as Hw2.
  pose proof (data_length_of_shape ax aw Hwx Hww Hs) as Hlen.
  destruct (unique_with_counts_values x2 (tf_reshape w [-1]) (data ax) (data aw)
              Hx2 Hw2 Hlen) as (Hy & _ & Hsum).
  eexists _, _. split; [rewrite E; reflexivity|].
  rewrite Hempty in Hy, Hsum. split; [exact Hy | exact Hsum].
Qed.

Lemma vocabulary_of_empty_batch_witness :
  exists (u : Tensor tf_string) (sw : Tensor tf_float32),
    reduce_batch_vocabulary
      (constant_array (t := tf_string) (mk_nd [O; 3%nat] [])) WEIGHTED_FREQUENCY
      (Some (existT _ (FloatT tf_float32)
               (constant_array (t := tf_float32) (mk_nd [O; 3%nat] [])))) None
    = Ok (u, Some (existT _ (FloatT tf_float32) sw), None, None)
    /\ value u = Ok (mk_nd [O] [])
    /\ value sw = Ok (mk_nd [O] []).
Proof.
  exact (vocabulary_of_empty_batch tf_string tf_float32
           (constant_array (t := tf_string) (mk_nd [O; 3%nat] []))
           (constant_array (t := tf_float32) (mk_nd [O; 3%nat] []))
           (mk_nd [O; 3%nat] []) (mk_nd [O; 3%nat] [])
           eq_refl eq_refl eq_refl eq_refl eq_refl eq_refl eq_refl).
Defined.

(* ================================================================= *)
(** * Serialization *)

(** ** The order of dictionary keys *)

Lemma ascii_compare_trans (a b c : Ascii.ascii) (r : comparison) :
  Ascii.compare a b = r -> Ascii.compare b c = r -> Ascii.compare a c = r.
Proof.
  unfold Ascii.compare. intros H1 H2. destruct r.
  - apply N.compare_eq_iff in H1, H2. apply N.compare_eq_iff. congruence.
  - rewrite N.compare_lt_iff in *. lia.
  - rewrite N.compare_gt_iff in *. lia.
Qed.

Lemma ascii_compare_eq (a b : Ascii.ascii) : Ascii.compare a b = Eq -> a = b.
Proof. apply Ascii.compare_eq_iff. Qed.

Lemma string_compare_trans (s1 s2 s3 : string) :
  String.compare s1 s2 <> Gt -> String.compare s2 s3 <> Gt ->
  String.compare s1 s3 <> Gt.
Proof.
  revert s2 s3. induction s1 as [|c1 s1 IH]; intros [|c2 s2] [|c3 s3];
    cbn [String.compare]; try congruence.
  destruct (Ascii.compare c1 c2) eqn:E12; try congruence;
    destruct (Ascii.compare c2 c3) eqn:E23; try congruence.
  - apply ascii_compare_eq in E12, E23. subst.
    replace (Ascii.compare c3 c3) with Eq; [apply IH|].
    symmetry. unfold Ascii.compare. apply N.compare_refl.
  - apply ascii_compare_eq in E12. subst. rewrite E23. congruence.
  - apply ascii_compare_eq in E23. subst. rewrite E12. congruence.
  - rewrite (ascii_compare_trans c1 c2 c3 Lt E12 E23). congruence.
Qed.

Lemma string_leb_trans (s1 s2 s3 : string) :
  String.leb s1 s2 = true -> String.leb s2 s3 = true -> String.leb s1 s3 = true.
Proof.
  unfold String.leb. intros H1 H2.
  pose proof (string_compare_trans s1 s2 s3) as H.
  destruct (String.compare s1 s2); try discriminate;
    destruct (String.compare s2 s3); try discriminate;
    destruct (String.compare s1 s3); try reflexivity;
    exfalso; apply H; congruence.
Qed.

Section SortedItems.
Context {V : Type}.

Definition key_le (a b : string * V) : Prop := String.leb (fst a) (fst b) = true.

Lemma insert_item_perm (kv : string * V) (l : list (string * V)) :
  Permutation (insert_item kv l) (kv :: l).
Proof.
  induction l as [|h l IH]; cbn [insert_item]; [reflexivity|].
  destruct (String.leb (fst kv) (fst h)); [reflexivity|].
  rewrite IH. apply perm_swap.
Qed.

Lemma sorted_items_perm (d : PyDict V) : Permutation (sorted_items d) d.
Proof.
  induction d as [|kv d IH]; [reflexivity|].
  cbn [sorted_items fold_right]. rewrite insert_item_perm. now constructor.
Qed.

Lemma insert_item_sorted (kv : string * V) (l : list (string * V)) :
  StronglySorted key_le l -> StronglySorted key_le (insert_item kv l).
Proof.
  induction 1 as [|h l Hl IH Hh]; cbn [insert_item].
  - constructor; constructor.
  - destruct (String.leb (fst kv) (fst h)) eqn:E.
    + constructor; [now constructor|]. constructor; [exact E|].
      eapply Forall_impl; [|exact Hh]. intros b Hb.
      exact (string_leb_trans _ _ _ E Hb).
    + constructor; [exact IH|].
      assert (Hle : key_le h kv).
      { destruct (String.leb_total (fst kv) (fst h)) as [H|H]; [congruence | exact H]. }
      apply (Permutation_Forall (Permutation_sym (insert_item_perm kv l))).
      now constructor.
Qed.

Lemma sorted_items_sorted (d : PyDict V) : StronglySorted key_le (sorted_items d).
Proof.
  induction d as [|kv d IH]; [constructor|].
  cbn [sorted_items fold_right]. now apply insert_item_sorted.
Qed.

Lemma same_key_same_item (l : list (string * V)) (a b : string * V) :
  NoDup (map fst l) -> In a l -> In b l -> fst a = fst b -> a = b.
Proof.
  induction l as [|h l IH]; [contradiction|].
  cbn [map]. intros Hnd [->|Ha] [->|Hb] E; inversion Hnd as [|? ? Hnot Hnd']; subst.
  - reflexivity.
  - exfalso. apply Hnot. rewrite E. now apply in_map.
  - exfalso. apply Hnot. rewrite <- E. now apply in_map.
  - now apply IH.
Qed.

(** Two key-sorted lists of the items of one dictionary are equal. *)
Lemma sorted_unique (l1 l2 : list (string * V)) :
  StronglySorted key_le l1 -> StronglySorted key_le l2 ->
  NoDup (map fst l1) -> Permutation l1 l2 -> l1 = l2.
Proof.
  intros H1. revert l2. induction H1 as [|a l1 Hl1 IH Ha]; intros l2 H2 Hnd Hp.
  - apply Permutation_nil in Hp. now subst.
  - destruct H2 as [|b l2 Hl2 Hb].
    + apply Permutation_sym, Permutation_nil in Hp. discriminate.
    + assert (Hab : a = b).
      { assert (Hain : In a (b :: l2)) by (apply (Permutation_in _ Hp); now left).
        assert (Hbin : In b (a :: l1))
          by (apply (Permutation_in _ (Permutation_sym Hp)); now left).
        apply (same_key_same_item (a :: l1)); [exact Hnd | now left | exact Hbin |].
        rewrite Forall_forall in Ha, Hb.
        destruct Hain as [<-|Hain]; [reflexivity|].
        destruct Hbin as [<-|Hbin]; [reflexivity|].
        apply String.leb_antisym; [exact (Ha b Hbin) | exact (Hb a Hain)]. }
      subst b. f_equal. apply IH; [exact Hl2 | | exact (Permutation_cons_inv Hp)].
      cbn [map] in Hnd. now inversion Hnd.
Qed.

Lemma sorted_items_of_permutation (d1 d2 : PyDict V) :
  NoDup (map fst d1) -> Permutation d1 d2 -> sorted_items d1 = sorted_items d2.
Proof.
  intros Hnd Hp. apply sorted_unique; try apply sorted_items_sorted.
  - apply (Permutation_NoDup (l := map fst d1)); [|exact Hnd].
    apply Permutation_map, Permutation_sym, sorted_items_perm.
  - rewrite (sorted_items_perm d1), Hp. symmetry. apply sorted_items_perm.
Qed.
End SortedItems.

(** X22: the serialization does not depend on the order in which the
    items of a dictionary were inserted: whatever the open ops compute, two
    dictionaries with the same items (and distinct keys) are turned into the
    same result by [_encode_proto], for every message type, and by
    [serialize_example]; fields and features are always processed in
    ascending key order. *)
Theorem serialization_ignores_dict_order
    (ops : GraphOps) (d1 d2 : PyDict FeatureValue) :
  NoDup (map fst d1) -> Permutation d1 d2 ->
  (forall message_type : string,
      _encode_proto d1 message_type = _encode_proto d2 message_type)
  /\ serialize_example d1 = serialize_example d2
  /\ StronglySorted (fun a b => String.leb (fst a) (fst b) = true) (sorted_items d1).
Proof.
  intros Hnd Hp.
  pose proof (sorted_items_of_permutation d1 d2 Hnd Hp) as E.
  split; [|split].
  - intros message_type. unfold _encode_proto. now rewrite E.
  - unfold serialize_example. now rewrite E.
  - apply sorted_items_sorted.
Qed.

Lemma serialization_ignores_dict_order_witness :
  serialize_example (ops := recording_ops)
    [("b"%string, DenseValue tf_int64 (vector (t := tf_int64) [1; 2]));
     ("a"%string, DenseValue tf_string (vector (t := tf_string) ["x"%string; "y"%string]))]
  = serialize_example (ops := recording_ops)
      [("a"%string, DenseValue tf_string (vector (t := tf_string) ["x"%string; "y"%string]));
       ("b"%string, DenseValue tf_int64 (vector (t := tf_int64) [1; 2]))].
Proof.
  refine (proj1 (proj2 (serialization_ignores_dict_order recording_ops _ _ _ _))).
  - cbn [map fst]. repeat constructor; cbn [In]; intros H;
      repeat (destruct H as [H|H]; try discriminate H); exact H.
  - apply perm_swap.
Defined.

(** ** Element types that can be serialized *)

Lemma feature_entries_encodable {ops : GraphOps} (items : list (string * FeatureValue))
    (r : list (Tensor tf_string)) :
  feature_entries items = Ok r ->
  Forall (fun kv => encodable (dtype_of (snd kv)) = true) items.
Proof.
  revert r. induction items as [|[key value] items IH]; intros r; [constructor|].
  cbn [feature_entries]. intros E.
  apply bind_ok in E as (sv & Esv & E).
  apply bind_ok in E as (n & _ & E). apply bind_ok in E as (keys & _ & E).
  apply bind_ok in E as (entry & _ & E). apply bind_ok in E as (entries & Eent & _).
  constructor; [|exact (IH _ Eent)].
  cbn [snd]. unfold _serialize_feature in Esv.
  apply bind_ok in Esv as (vd & Evd & _).
  destruct (DType_eq_dec (dtype_of value) tf_string) as [->|_]; [reflexivity|].
  destruct (DType_eq_dec (dtype_of value) tf_float32) as [->|_]; [reflexivity|].
  destruct (DType_eq_dec (dtype_of value) tf_int64) as [->|_]; [reflexivity|].
  discriminate Evd.
Qed.

(** X23: [_serialize_feature] encodes the element types [tf.string],
    [tf.float32] and [tf.int64] only: for a tensor or sparse tensor of any
    other type it raises [ValueError], before any op is built; and
    [serialize_example] never returns a result for a dictionary holding a
    value of another type, whatever the open ops compute. *)
Theorem serialization_encodes_three_types_only (ops : GraphOps) :
  (forall values : FeatureValue,
      encodable (dtype_of values) = false ->
      _serialize_feature values = Raise (Builtin ValueError))
  /\ (forall (features : PyDict FeatureValue) (r : Tensor tf_string),
         serialize_example features = Ok r ->
         Forall (fun kv => encodable (dtype_of (snd kv)) = true) features).
Proof.
  split.
  - intros values Hd. unfold _serialize_feature.
    destruct (dtype_of values) as [[i|f]| |]; try discriminate Hd.
    + destruct i; try discriminate Hd; reflexivity.
    + destruct f; try discriminate Hd; reflexivity.
    + reflexivity.
  - intros features r E. unfold serialize_example in E.
    apply bind_ok in E as (fd & Efd & _).
    apply feature_entries_encodable in Efd.
    exact (Permutation_Forall (sorted_items_perm features) Efd).
Qed.

Lemma serialization_encodes_three_types_only_witness :
  _serialize_feature (ops := recording_ops)
    (SparseValue tf_bool
       (constant_array (t := tf_int64) (mk_nd [1%nat; 2%nat] [0; 0]))
       (vector (t := tf_bool) [true])
       (vector (t := tf_int64) [1; 1]))
  = Raise (Builtin ValueError).
Proof.
  exact (proj1 (serialization_encodes_three_types_only recording_ops)
           (SparseValue tf_bool
              (constant_array (t := tf_int64) (mk_nd [1%nat; 2%nat] [0; 0]))
              (vector (t := tf_bool) [true])
              (vector (t := tf_int64) [1; 1]))
           eq_refl).
Defined.

(** ** Sizes of a sparse field *)

Section SparseRows.
Context {V : Type} (op : V -> V -> V) (init zero : V).

Lemma group_of_rows (r : nat) (nrows : nat) (coords : list (Z * Z)) (vs : list V) :
  Forall (fun rc => 0 <= fst rc /\ (Z.to_nat (fst rc) < nrows)%nat) coords ->
  group_of r (map (fun e => ravel (remove_nth 1 e) [nrows]) (map coord_row coords)) vs
  = row_values r coords vs.
Proof.
  unfold row_values. intros H. revert vs.
  induction H as [|rc coords [H0 H1] H IH]; intros vs; [reflexivity|].
  destruct vs as [|v vs]; [reflexivity|].
  cbn [map coord_row remove_nth ravel group_of combine filter fst snd].
  destruct (Z.leb_spec 0 (fst rc)); [|lia].
  destruct (Nat.ltb_spec (Z.to_nat (fst rc)) nrows); [|lia].
  cbn [andb option_map prod_dims fold_right].
  rewrite Nat.mul_1_r, Nat.add_0_r.
  destruct (Nat.eqb r (Z.to_nat (fst rc))); cbn [map snd]; now rewrite IH.
Qed.

Lemma row_offsets_valid (nrows : nat) (coords : list (Z * Z)) :
  Forall (fun rc => 0 <= fst rc /\ (Z.to_nat (fst rc) < nrows)%nat) coords ->
  forallb (fun o : option nat => match o with Some _ => true | None => false end)
          (map (fun e => ravel (remove_nth 1 e) [nrows]) (map coord_row coords)) = true.
Proof.
  induction 1 as [|rc coords [H0 H1] H IH]; [reflexivity|].
  cbn [map coord_row remove_nth ravel forallb].
  destruct (Z.leb_spec 0 (fst rc)); [|lia].
  destruct (Nat.ltb_spec (Z.to_nat (fst rc)) nrows); [|lia].
  exact IH.
Qed.

Lemma nd_sparse_reduce_rows (coords : list (Z * Z)) (vs : list V) (nrows ncols : Z) :
  List.length vs = List.length coords ->
  Forall (fun rc => 0 <= fst rc < nrows /\ 0 <= snd rc < ncols) coords ->
  nd_sparse_reduce op init zero
    (mk_nd [List.length coords; 2%nat] (flat_map coord_row coords))
    (mk_nd [List.length vs] vs) (mk_nd [2%nat] [nrows; ncols]) (Some 1%nat)
  = Ok (mk_nd [Z.to_nat nrows]
          (map (fun r => reduce_group op init zero (row_values r coords vs))
               (seq 0 (Z.to_nat nrows)))).
Proof.
  intros Hlen Hb. unfold nd_sparse_reduce.
  cbn [data shape List.length Nat.ltb Nat.leb andb].
  change (remove_nth 1 (map Z.to_nat [nrows; ncols])) with [Z.to_nat nrows].
  rewrite Hlen, rows_coords.
  assert (Hb' : Forall (fun rc => 0 <= fst rc /\ (Z.to_nat (fst rc) < Z.to_nat nrows)%nat)
                  coords).
  { eapply Forall_impl; [|exact Hb]. cbv beta. intros rc [H _]. lia. }
  rewrite (row_offsets_valid _ _ Hb').
  cbn [prod_dims fold_right]. rewrite Nat.mul_1_r.
  do 2 f_equal. apply map_ext. intros r. now rewrite (group_of_rows r _ _ vs Hb').
Qed.
End SparseRows.

Lemma row_values_map {V V'} (g : V -> V') (r : nat) (coords : list (Z * Z)) (vs : list V) :
  row_values r coords (map g vs) = map g (row_values r coords vs).
Proof.
  unfold row_values. revert vs.
  induction coords as [|rc coords IH]; intros [|v vs]; try reflexivity.
  cbn [map combine filter fst snd].
  destruct (Nat.eqb r (Z.to_nat (fst rc))); cbn [map snd]; now rewrite IH.
Qed.

(** X24: the size [_encode_proto] passes for a sparse field is, for each
    row of the sparse tensor, the number of entries stored in that row (as a
    [tf.int32]), whatever their column indices; the value passed along is
    the tensor [tf.sparse.to_dense] returns for the default of the element
    type. *)
Theorem sparse_field_size_counts_row_entries
    (ops : GraphOps) (t : DType)
    (ix : Tensor tf_int64) (vals : Tensor t) (dsh : Tensor tf_int64)
    (coords : list (Z * Z)) (vs : list (carrier t)) (nrows ncols : Z)
    (default : carrier t) (dense : Tensor t) :
  value ix = Ok (mk_nd [List.length coords; 2%nat] (flat_map coord_row coords)) ->
  value vals = Ok (mk_nd [List.length vs] vs) ->
  value dsh = Ok (mk_nd [2%nat] [nrows; ncols]) ->
  List.length vs = List.length coords ->
  Forall (fun rc => 0 <= fst rc < nrows /\ 0 <= snd rc < ncols) coords ->
  _DEFAULT_VALUE_BY_DTYPE t = Ok default ->
  tf_sparse_to_dense t ix vals dsh default = Ok dense ->
  exists size : Tensor tf_int32,
    encode_field (SparseValue t ix vals dsh) = Ok (existT _ t dense, size)
    /\ value size
       = Ok (mk_nd [Z.to_nat nrows]
               (map (fun r => wrap tf_int32
                                (Z.of_nat (List.length (row_values r coords vs))))
                    (seq 0 (Z.to_nat nrows)))).
Proof.
  intros Hi Hv Hd Hl Hb Hdef Hdense.
  eexists. split.
  - cbn [encode_field]. rewrite Hdef. cbn [bind]. rewrite Hdense. reflexivity.
  - unfold tf_sparse_reduce_sum, tf_sparse_reduce, tf_ones_like, lift1.
    cbn [value indices values dense_shape]. rewrite Hi, Hv, Hd.
    cbn [bind nd_map shape data].
    rewrite <- (length_map (fun _ : carrier t => one tf_int32) vs).
    etransitivity;
      [apply (nd_sparse_reduce_rows (add tf_int32) (zero tf_int32) (zero tf_int32));
       [rewrite length_map; exact Hl | exact Hb]|].
    apply (f_equal Ok), (f_equal (mk_nd _)). apply map_ext. intros r.
    rewrite row_values_map.
    etransitivity; [apply (reduce_group_sum tf_int32)|].
    etransitivity; [apply fold_add_from_zero|].
    apply f_equal. exact (zsum_ones (row_values r coords vs)).
Qed.

Lemma sparse_field_size_counts_row_entries_witness :
  exists size : Tensor tf_int32,
    encode_field (ops := recording_ops)
      (SparseValue tf_string
         (constant_array (t := tf_int64) (mk_nd [3%nat; 2%nat] [0; 0; 0; 4; 1; 2]))
         (vector (t := tf_string) ["a"%string; "b"%string; "c"%string])
         (vector (t := tf_int64) [3; 5]))
    = Ok (existT _ tf_string
            (vector (t := tf_string) ["a"%string; "b"%string; "c"%string]), size)
    /\ value size = Ok (mk_nd [3%nat] [2; 1; 0]).
Proof.
  refine (sparse_field_size_counts_row_entries recording_ops tf_string
            (constant_array (t := tf_int64) (mk_nd [3%nat; 2%nat] [0; 0; 0; 4; 1; 2]))
            (vector (t := tf_string) ["a"%string; "b"%string; "c"%string])
            (vector (t := tf_int64) [3; 5])
            [(0, 0); (0, 4); (1, 2)] ["a"%string; "b"%string; "c"%string] 3 5
            EmptyString _ eq_refl eq_refl eq_refl eq_refl _ eq_refl eq_refl).
  repeat constructor; simpl; lia.
Defined.

(** ** Minimum and maximum of floating batches *)

Lemma compare_cont_Eq (m1 m2 : positive) :
  PosDef.Pos.compare_cont Eq m1 m2 = Pos.compare m1 m2.
Proof. reflexivity. Qed.

Lemma SFleb_rank (x y : spec_float) :
  SFis_nan x = false -> SFis_nan y = false ->
  (SFleb x y = true <-> rank_le (SFrank x) (SFrank y)).
Proof.
  unfold SFleb, rank_le.
  destruct x as [sx|sx| |sx mx ex]; destruct y as [sy|sy| |sy my ey];
    try discriminate; intros _ _;
    try destruct sx; try destruct sy; cbn [SFcompare SFrank fst snd];
    try (split; [intros _; lia | reflexivity]);
    try (split; [discriminate | intros H; exfalso; lia]).
  - rewrite compare_cont_Eq.
    destruct (Z.compare_spec ex ey); destruct (Pos.compare_spec mx my); cbn [CompOpp];
      split; try discriminate; try (intros _; lia); try reflexivity;
      intros H'; exfalso; lia.
  - rewrite compare_cont_Eq.
    destruct (Z.compare_spec ex ey); destruct (Pos.compare_spec mx my);
      split; try discriminate; try (intros _; lia); try reflexivity;
      intros H'; exfalso; lia.
Qed.

Lemma SFltb_rank (x y : spec_float) :
  SFis_nan x = false -> SFis_nan y = false ->
  (SFltb x y = false <-> rank_le (SFrank y) (SFrank x)).
Proof.
  unfold SFltb, rank_le.
  destruct x as [sx|sx| |sx mx ex]; destruct y as [sy|sy| |sy my ey];
    try discriminate; intros _ _;
    try destruct sx; try destruct sy; cbn [SFcompare SFrank fst snd];
    try (split; [intros _; lia | reflexivity]);
    try (split; [discriminate | intros H; exfalso; lia]).
  - rewrite compare_cont_Eq.
    destruct (Z.compare_spec ex ey); destruct (Pos.compare_spec mx my); cbn [CompOpp];
      split; try discriminate; try (intros _; lia); try reflexivity;
      intros H'; exfalso; lia.
  - rewrite compare_cont_Eq.
    destruct (Z.compare_spec ex ey); destruct (Pos.compare_spec mx my);
      split; try discriminate; try (intros _; lia); try reflexivity;
      intros H'; exfalso; lia.
Qed.

Lemma rank_le_refl (a : Z * Z * Z) : rank_le a a.
Proof. unfold rank_le. lia. Qed.

Lemma rank_le_trans (a b c : Z * Z * Z) : rank_le a b -> rank_le b c -> rank_le a c.
Proof. unfold rank_le. lia. Qed.

Lemma SFfinite_not_nan (x : spec_float) : SFfinite x = true -> SFis_nan x = false.
Proof. now destruct x. Qed.

(** The maximum reduction over values that are not NaN. *)
Lemma fold_max_float (f : FloatType) (l : list spec_float) (acc : spec_float) :
  Forall (fun v => SFis_nan v = false) l -> SFis_nan acc = false ->
  SFis_nan (fold_left (max_acc f) l acc) = false
  /\ rank_le (SFrank acc) (SFrank (fold_left (max_acc f) l acc))
  /\ Forall (fun v => rank_le (SFrank v) (SFrank (fold_left (max_acc f) l acc))) l
  /\ (fold_left (max_acc f) l acc = acc \/ In (fold_left (max_acc f) l acc) l).
Proof.
  intros Hl. revert acc. induction Hl as [|v l Hv Hl IH]; intros acc Hacc.
  - cbn [fold_left In]. split; [exact Hacc|]. split; [apply rank_le_refl|].
    split; [constructor | now left].
  - cbn [fold_left].
    assert (Hstep : SFis_nan (max_acc f acc v) = false
                    /\ rank_le (SFrank acc) (SFrank (max_acc f acc v))
                    /\ rank_le (SFrank v) (SFrank (max_acc f acc v))
                    /\ (max_acc f acc v = acc \/ max_acc f acc v = v)).
    { unfold max_acc. cbn [ltb]. destruct (SFltb acc v) eqn:E.
      - split; [exact Hv|]. split; [|split; [apply rank_le_refl | now right]].
        apply (SFleb_rank acc v Hacc Hv). unfold SFleb. unfold SFltb in E.
        destruct (SFcompare acc v) as [[]|]; congruence.
      - split; [exact Hacc|]. split; [apply rank_le_refl|]. split; [|now left].
        now apply (SFltb_rank acc v Hacc Hv). }
    destruct Hstep as (N1 & A1 & V1 & C1).
    destruct (IH (max_acc f acc v) N1) as (N2 & A2 & F2 & C2).
    split; [exact N2|]. split; [exact (rank_le_trans _ _ _ A1 A2)|]. split.
    + constructor; [exact (rank_le_trans _ _ _ V1 A2) | exact F2].
    + cbn [In]. destruct C2 as [C2|C2]; [|right; right; exact C2].
      rewrite C2. destruct C1 as [C1|C1]; [left | right; left]; congruence.
Qed.

Lemma neg_float_rank (f : FloatType) (x : spec_float) :
  SFfinite x = true ->
  SFfinite (sub f (zero f) x) = true
  /\ SFrank (sub f (zero f) x)
     = (- fst (fst (SFrank x)), - snd (fst (SFrank x)), - snd (SFrank x)).
Proof.
  assert (Z0 : zero f = S754_zero false) by now destruct f.
  rewrite Z0. cbn [sub].
  destruct x as [[]| | |[] m e]; try discriminate; intros _;
    (split; [reflexivity|]); cbn [SFsub negb SFrank fst snd];
    rewrite ?Z.opp_involutive; reflexivity.
Qed.

(** The two reductions of the reducer on a non-empty list of finite
    floating values. *)
Lemma minus_min_and_max_of_floats (f : FloatType) (l : list spec_float) :
  l <> [] -> Forall (fun v => SFfinite v = true) l ->
  exists lo hi,
    fold_left (max_acc f) (map (sub f (zero f)) l) (lowest f) = sub f (zero f) lo
    /\ fold_left (max_acc f) l (lowest f) = hi
    /\ In lo l /\ In hi l
    /\ Forall (fun v => SFleb lo v = true /\ SFleb v hi = true) l.
Proof.
  intros Hne Hl.
  assert (Hnn : Forall (fun v => SFis_nan v = false) l).
  { eapply Forall_impl; [|exact Hl]. intros v. apply SFfinite_not_nan. }
  assert (Hneg : Forall (fun v => SFis_nan v = false) (map (sub f (zero f)) l)).
  { apply Forall_map. eapply Forall_impl; [|exact Hl]. intros v Hv.
    apply SFfinite_not_nan. now apply neg_float_rank. }
  destruct (fold_max_float f l (lowest f) Hnn eq_refl) as (_ & _ & Fhi & Chi).
  destruct (fold_max_float f _ (lowest f) Hneg eq_refl) as (_ & _ & Flo & Clo).
  set (hi := fold_left (max_acc f) l (lowest f)) in *.
  set (nlo := fold_left (max_acc f) (map (sub f (zero f)) l) (lowest f)) in *.
  assert (Hbot : forall v, SFfinite v = true -> ~ rank_le (SFrank v) (SFrank (lowest f))).
  { intros v Hv. unfold rank_le. cbn [lowest SFrank fst snd].
    destruct v as [[]| | |[] m e]; try discriminate; cbn [SFrank fst snd]; lia. }
  assert (Hhi : In hi l).
  { destruct Chi as [E|H]; [|exact H]. exfalso.
    destruct l as [|v l']; [now apply Hne|].
    apply Forall_inv in Fhi. apply Forall_inv in Hl. rewrite E in Fhi.
    exact (Hbot v Hl Fhi). }
  assert (Hnlo : In nlo (map (sub f (zero f)) l)).
  { destruct Clo as [E|H]; [|exact H]. exfalso.
    destruct l as [|v l']; [now apply Hne|].
    cbn [map] in Flo. apply Forall_inv in Flo. apply Forall_inv in Hl. rewrite E in Flo.
    exact (Hbot _ (proj1 (neg_float_rank f v Hl)) Flo). }
  apply in_map_iff in Hnlo as (lo & Elo & Hlo).
  exists lo, hi. split; [now symmetry|]. split; [reflexivity|].
  split; [exact Hlo|]. split; [exact Hhi|].
  rewrite Forall_forall in *. intros v Hv.
  pose proof (Hl v Hv) as Fv. pose proof (Hl lo Hlo) as Flo'.
  pose proof (Hl hi Hhi) as Fhi'.
  split.
  - apply (SFleb_rank lo v); try now apply SFfinite_not_nan.
    specialize (Flo _ (in_map (sub f (zero f)) l v Hv)). cbv beta in Flo.
    rewrite <- Elo in Flo.
    rewrite (proj2 (neg_float_rank f v Fv)), (proj2 (neg_float_rank f lo Flo')) in Flo.
    unfold rank_le in *. cbn [fst snd] in Flo. lia.
  - apply (SFleb_rank v hi); try now apply SFfinite_not_nan.
    exact (Fhi v Hv).
Qed.

Lemma minmax_float_values_collapsed (f : FloatType) (x : TensorLike f)
    (a : ndarray spec_float) :
  value (batch_values x) = Ok a ->
  exists m M : Tensor f,
    reduce_batch_minus_min_and_max x true
    = Ok (existT _ (FloatT f) (inf_remapped m, inf_remapped M))
    /\ value m
       = Ok (nd_scalar (fold_left (max_acc f) (map (sub f (zero f)) (data a)) (lowest f)))
    /\ value M = Ok (nd_scalar (fold_left (max_acc f) (data a) (lowest f))).
Proof.
  intros Hx.
  assert (HM : value (tf_reduce_max (batch_values x) None)
               = Ok (nd_scalar (fold_left (max_acc f) (data a) (lowest f)))).
  { unfold tf_reduce_max, lift1. cbn [value]. now rewrite Hx. }
  assert (Hm : value (tf_reduce_max
                        (tf_subtract (tf_zeros_like (batch_values x) f) (batch_values x))
                        None)
               = Ok (nd_scalar (fold_left (max_acc f) (map (sub f (zero f)) (data a))
                                  (lowest f)))).
  { unfold tf_reduce_max, tf_subtract, tf_zeros_like, lift1, lift2. cbn [value].
    rewrite Hx. cbn [bind nd_map shape data]. unfold nd_broadcast2. cbn [shape data].
    rewrite shape_eqb_refl. cbn [bind nd_reduce data].
    unfold nd_map. cbn [data]. now rewrite map2_map_l, map2_diag. }
  destruct (assert_same_shape_ok _ _
              (eq_refl : is_compatible_with
                           (static_shape
                              (tf_reduce_max
                                 (tf_subtract (tf_zeros_like (batch_values x) f)
                                    (batch_values x)) None))
                           (static_shape (tf_reduce_max (batch_values x) None)) = true))
    as (mm & Emm & _ & Hmm).
  specialize (Hmm _ _ Hm HM eq_refl).
  exists mm, (tf_reduce_max (batch_values x) None).
  split; [|split; [exact Hmm | exact HM]].
  unfold reduce_batch_minus_min_and_max.
  destruct f; destruct x as [x|x]; cbn [batch_values] in *;
    cbn -[assert_same_shape tf_reduce_max tf_subtract tf_zeros_like _inf_to_nan];
    rewrite Emm; cbn [bind]; rewrite !inf_to_nan_float; reflexivity.
Qed.

Lemma inf_remapped_finite_scalar (f : FloatType) (t : Tensor f) (v : spec_float) :
  value t = Ok (nd_scalar v) -> SFfinite v = true ->
  value (inf_remapped t) = Ok (nd_scalar v).
Proof.
  intros Ht Hv. rewrite (inf_remapped_value f t (nd_scalar v) Ht eq_refl).
  unfold nd_map, nd_scalar. cbn [shape data map].
  now destruct v.
Qed.

(** X25: on a non-empty floating batch, dense or sparse, all of whose
    elements are finite (no NaN, no infinity), the collapsed Min/Max Reducer
    returns zero minus the smallest element and the largest element: both
    are taken from the batch, and every element lies between them. *)
Theorem minmax_finite_floats_exact
    (f : FloatType) (x : TensorLike f) (a : ndarray spec_float) :
  value (batch_values x) = Ok a ->
  data a <> [] ->
  Forall (fun v => SFfinite v = true) (data a) ->
  exists (minus_min max_ : Tensor f) (lo hi : spec_float),
    reduce_batch_minus_min_and_max x true = Ok (existT _ (FloatT f) (minus_min, max_))
    /\ value minus_min = Ok (nd_scalar (sub f (zero f) lo))
    /\ value max_ = Ok (nd_scalar hi)
    /\ In lo (data a) /\ In hi (data a)
    /\ Forall (fun v => SFleb lo v = true /\ SFleb v hi = true) (data a).
Proof.
  intros Hx Hne Hl.
  destruct (minmax_float_values_collapsed f x a Hx) as (m & M & E & Hm & HM).
  destruct (minus_min_and_max_of_floats f (data a) Hne Hl)
    as (lo & hi & Elo & Ehi & Hlo & Hhi & Hb).
  exists (inf_remapped m), (inf_remapped M), lo, hi.
  split; [exact E|]. rewrite Forall_forall in Hl.
  split; [|split; [|split; [exact Hlo | split; [exact Hhi | exact Hb]]]].
  - apply inf_remapped_finite_scalar.
    + etransitivity; [exact Hm|]. apply (f_equal Ok), (f_equal nd_scalar). exact Elo.
    + apply neg_float_rank. now apply Hl.
  - apply inf_remapped_finite_scalar.
    + etransitivity; [exact HM|]. apply (f_equal Ok), (f_equal nd_scalar). exact Ehi.
    + now apply Hl.
Qed.

Lemma minmax_finite_floats_exact_witness :
  exists (minus_min max_ : Tensor tf_float32) (lo hi : spec_float),
    reduce_batch_minus_min_and_max
      (Dense (vector (t := tf_float32)
                [of_Z tf_float32 3; of_Z tf_float32 (-2); of_Z tf_float32 7])) true
    = Ok (existT _ (FloatT tf_float32) (minus_min, max_))
    /\ value minus_min = Ok (nd_scalar (sub tf_float32 (zero tf_float32) lo))
    /\ value max_ = Ok (nd_scalar hi)
    /\ In lo [of_Z tf_float32 3; of_Z tf_float32 (-2); of_Z tf_float32 7]
    /\ In hi [of_Z tf_float32 3; of_Z tf_float32 (-2); of_Z tf_float32 7].
Proof.
  destruct (minmax_finite_floats_exact tf_float32
              (Dense (vector (t := tf_float32)
                        [of_Z tf_float32 3; of_Z tf_float32 (-2); of_Z tf_float32 7]))
              (mk_nd [3%nat] [of_Z tf_float32 3; of_Z tf_float32 (-2); of_Z tf_float32 7])
              eq_refl)
    as (m & M & lo & hi & E & Hm & HM & Hlo & Hhi & _).
  - discriminate.
  - repeat constructor.
  - exists m, M, lo, hi. repeat split; assumption.
Defined.
